(** * ZyraZoo: power model, fusion economy, difficulty window,
      opponent synthesis, combat and rewards of [main.py]

    A shallow embedding of the battle and fusion engine of the bot.

    Conventions of the embedding:
    - Python [int] is [Z]; Python [float] is an exact rational [Q] (the
      constants 1.5, 1.2, 0.35, ... are written as fractions), compared
      with [==]; [round] is Python's round-half-to-even.
    - The three-key dicts [{"slot1": .., "slot2": .., "slot3": ..}] are
      records [PerSlot], iterated in insertion order slot1, slot2, slot3.
    - Canonical mutation keys are the enumeration [Mutation]; raw strings
      enter through [normalize_mutation_key].
    - [random.random()] reads the next value of a stream [nat -> Q];
      [random.choice seq] is [seq[floor(random() * len seq)]] and raises
      [IndexError] on an empty sequence.
    - Strings are byte strings; [strip] and [lower] act on ASCII. *)

From Stdlib Require Import ZArith QArith Qround Qminmax String Ascii List Lia Lqa Bool.
From stdpp Require Import gmap strings.
Import ListNotations.

Local Open Scope Z_scope.
Local Open Scope string_scope.

(** ** Data definitions *)

Inductive Role := TANK | ATTACK | SUPPORT.
Inductive Rarity := COMMON | UNCOMMON | RARE | EPIC | LEGENDARY | SPECIAL | HIDDEN.
Inductive Mutation := none | golden | diamond | emerald | rainbow.
Inductive Slot := slot1 | slot2 | slot3.

#[global] Instance Role_eq_dec : EqDecision Role.
Proof. solve_decision. Defined.
#[global] Instance Rarity_eq_dec : EqDecision Rarity.
Proof. solve_decision. Defined.
#[global] Instance Mutation_eq_dec : EqDecision Mutation.
Proof. solve_decision. Defined.
#[global] Instance Slot_eq_dec : EqDecision Slot.
Proof. solve_decision. Defined.

Record Animal := mkAnimal {
  animal_id : string;
  emoji : string;
  rarity : Rarity;
  rarity_index : Z;
  role : Role;
  hp : Z;
  atk : Z;
  defense : Z;
  aliases : list string
}.

Record Food := mkFood {
  food_id : string;
  food_emoji : string;
  food_rarity : Rarity;
  cost : Z;
  hp_bonus : Z;
  atk_bonus : Z;
  def_bonus : Z;
  food_aliases : list string
}.

(** [RARITY_ORDER] (names only) and [RARITY_INDEX]. *)
Definition RARITY_ORDER : list Rarity :=
  [COMMON; UNCOMMON; RARE; EPIC; LEGENDARY; SPECIAL; HIDDEN].

Definition RARITY_INDEX (r : Rarity) : Z :=
  match r with
  | COMMON => 0 | UNCOMMON => 1 | RARE => 2 | EPIC => 3
  | LEGENDARY => 4 | SPECIAL => 5 | HIDDEN => 6
  end.

(** The slots [f"slot{i}" for i in range(1, 4)], also the insertion order
    of every slot-keyed dict the engine builds. *)
Definition SLOTS : list Slot := [slot1; slot2; slot3].

Record PerSlot (A : Type) := mkPerSlot { at1 : A; at2 : A; at3 : A }.
Arguments mkPerSlot {A} _ _ _.
Arguments at1 {A} _.
Arguments at2 {A} _.
Arguments at3 {A} _.

Definition sget {A} (d : PerSlot A) (s : Slot) : A :=
  match s with slot1 => at1 d | slot2 => at2 d | slot3 => at3 d end.

Definition sset {A} (d : PerSlot A) (s : Slot) (v : A) : PerSlot A :=
  match s with
  | slot1 => mkPerSlot v (at2 d) (at3 d)
  | slot2 => mkPerSlot (at1 d) v (at3 d)
  | slot3 => mkPerSlot (at1 d) (at2 d) v
  end.

(** [d.items()] *)
Definition items {A} (d : PerSlot A) : list (Slot * A) :=
  map (fun s => (s, sget d s)) SLOTS.

(** [d.values()] *)
Definition values {A} (d : PerSlot A) : list A := map snd (items d).

Lemma sget_sset_same {A} (d : PerSlot A) s v : sget (sset d s v) s = v.
Proof. destruct s; reflexivity. Qed.

Lemma sget_sset_other {A} (d : PerSlot A) s s' v :
  s <> s' -> sget (sset d s v) s' = sget d s'.
Proof. destruct s, s'; intros H; try reflexivity; contradiction. Qed.

(** ** Mutation tiers *)

Definition MUTATION_ORDER : list Mutation := [none; golden; diamond; emerald; rainbow].
Definition MUTATIONS : list Mutation := MUTATION_ORDER.

Definition mutation_name (m : Mutation) : string :=
  match m with
  | none => "none" | golden => "golden" | diamond => "diamond"
  | emerald => "emerald" | rainbow => "rainbow"
  end.

Definition MUTATION_ALIASES : list (Mutation * list string) :=
  [ (none, ["none"; "normal"; "base"; "n"]);
    (golden, ["golden"; "gold"; "g"]);
    (diamond, ["diamond"; "dia"; "d"]);
    (emerald, ["emerald"; "emer"; "em"; "e"]);
    (rainbow, ["rainbow"; "rb"; "rain"; "r"]) ].

Record MutationMeta := mkMeta {
  meta_emoji : string;
  multiplier : Q;
  ability_multiplier : Q
}.

Definition MUTATION_META (m : Mutation) : MutationMeta :=
  match m with
  | none => mkMeta "" 1 1
  | golden => mkMeta "<a:9922yellowfire:1392567259687551037>" (5 # 4) (5 # 4)
  | diamond => mkMeta "<a:3751bluefire:1392567237453545524>" (3 # 2) (3 # 2)
  | emerald => mkMeta "<a:9922greenfire:1392567257821089994>" 2 2
  | rainbow => mkMeta "<a:8308rainbowfire:1392567255170158780>" 5 5
  end.

(** [str.lower] and [str.strip] on ASCII. *)
Definition lower_ascii (c : ascii) : ascii :=
  let n := nat_of_ascii c in
  if (Nat.leb 65 n && Nat.leb n 90)%bool then ascii_of_nat (n + 32) else c.

Fixpoint lower (s : string) : string :=
  match s with
  | EmptyString => EmptyString
  | String c r => String (lower_ascii c) (lower r)
  end.

Definition is_space (c : ascii) : bool :=
  let n := nat_of_ascii c in
  (Nat.eqb n 32 || (Nat.leb 9 n && Nat.leb n 13) || (Nat.leb 28 n && Nat.leb n 31))%bool.

Fixpoint lstrip (s : string) : string :=
  match s with
  | EmptyString => EmptyString
  | String c r => if is_space c then lstrip r else s
  end.

Fixpoint rstrip (s : string) : string :=
  match s with
  | EmptyString => EmptyString
  | String c r =>
      match rstrip r with
      | EmptyString => if is_space c then EmptyString else String c EmptyString
      | r' => String c r'
      end
  end.

Definition strip (s : string) : string := rstrip (lstrip s).

Definition str_in (k : string) (l : list string) : bool :=
  existsb (String.eqb k) l.

(** [normalize_mutation_key]; [None] is the [ValueError]. *)
Definition normalize_mutation_key (value : string) : option Mutation :=
  let key := lower (strip value) in
  match find (fun '(canonical, als) =>
                (String.eqb key (mutation_name canonical) || str_in key als)%bool)
             MUTATION_ALIASES with
  | Some (canonical, _) => Some canonical
  | None => find (fun m => String.eqb key (mutation_name m)) MUTATIONS
  end.

Lemma normalize_canonical (m : Mutation) :
  normalize_mutation_key (mutation_name m) = Some m.
Proof. destruct m; reflexivity. Qed.

(** ** Catalogs

    [ANIMALS] and [FOODS] are the values of the two dicts in insertion
    order (ids are unique, so the dict comprehension drops nothing). *)
Definition add_animal_def (r : Rarity) (ro : Role) (id em : string)
    (h a d : Z) (als : list string) : Animal :=
  mkAnimal id em r (RARITY_INDEX r) ro h a d als.
Definition ANIMALS : list Animal :=
  [ add_animal_def COMMON ATTACK "mouse" "🐁" 7 6 1 ["mouse"; "m"];
    add_animal_def COMMON ATTACK "chicken" "🐔" 7 5 1 ["chicken"; "chick"];
    add_animal_def COMMON ATTACK "fish" "🐟" 7 5 1 ["fish"];
    add_animal_def COMMON TANK "pig" "🐖" 10 3 3 ["pig"];
    add_animal_def COMMON TANK "cow" "🐄" 11 3 3 ["cow"];
    add_animal_def COMMON TANK "ram" "🐏" 9 4 3 ["ram"];
    add_animal_def COMMON TANK "sheep" "🐑" 9 3 4 ["sheep"];
    add_animal_def COMMON TANK "goat" "🐐" 8 4 3 ["goat"];
    add_animal_def COMMON SUPPORT "bug" "🐛" 7 3 3 ["bug"];
    add_animal_def COMMON SUPPORT "ant" "🐜" 6 3 3 ["ant"];
    add_animal_def COMMON SUPPORT "bird" "🐦" 7 3 3 ["bird"];
    add_animal_def UNCOMMON ATTACK "dog" "🐕" 8 7 2 ["dog"];
    add_animal_def UNCOMMON ATTACK "cat" "🐈" 8 7 2 ["cat"];
    add_animal_def UNCOMMON ATTACK "snake" "🐍" 8 8 2 ["snake"];
    add_animal_def UNCOMMON TANK "horse" "🐎" 13 4 4 ["horse"];
    add_animal_def UNCOMMON TANK "boar" "🐗" 12 5 4 ["boar"];
    add_animal_def UNCOMMON TANK "deer" "🦌" 12 4 5 ["deer"];
    add_animal_def UNCOMMON TANK "turtle" "🐢" 14 2 5 ["turtle"];
    add_animal_def UNCOMMON SUPPORT "tropicalfish" "🐠" 8 4 4 ["tropicalfish"; "tfish"];
    add_animal_def RARE ATTACK "wolf" "🐺" 9 9 3 ["wolf"];
    add_animal_def RARE ATTACK "fox" "🦊" 9 9 3 ["fox"];
    add_animal_def RARE ATTACK "dolphin" "🐬" 10 8 3 ["dolphin"];
    add_animal_def RARE TANK "crocodile" "🐊" 15 5 6 ["crocodile"; "croc"];
    add_animal_def RARE SUPPORT "raccoon" "🦝" 9 4 5 ["raccoon"];
    add_animal_def RARE SUPPORT "owl" "🦉" 9 3 6 ["owl"];
    add_animal_def RARE SUPPORT "parrot" "🦜" 8 4 5 ["parrot"];
    add_animal_def EPIC TANK "elephant" "🐘" 18 4 8 ["elephant"; "ele"];
    add_animal_def EPIC TANK "hippo" "🦛" 19 4 8 ["hippo"];
    add_animal_def EPIC TANK "llama" "🦙" 16 5 7 ["llama"];
    add_animal_def EPIC TANK "giraffe" "🦒" 17 5 7 ["giraffe"];
    add_animal_def EPIC SUPPORT "swan_epic" "🦢" 11 4 7 ["swan"];
    add_animal_def EPIC SUPPORT "flamingo" "🦩" 10 5 6 ["flamingo"];
    add_animal_def LEGENDARY ATTACK "shark" "🦈" 14 11 4 ["shark"];
    add_animal_def LEGENDARY TANK "mammoth" "🦣" 22 5 9 ["mammoth"];
    add_animal_def LEGENDARY TANK "seal" "🦭" 20 6 8 ["seal"];
    add_animal_def LEGENDARY TANK "whale" "🐳" 24 4 10 ["whale"];
    add_animal_def SPECIAL SUPPORT "octopus" "🐙" 12 5 7 ["octopus"];
    add_animal_def SPECIAL SUPPORT "butterfly" "🦋" 10 4 6 ["butterfly"];
    add_animal_def HIDDEN ATTACK "dragon" "🐉" 16 13 5 ["dragon"];
    add_animal_def HIDDEN TANK "trex" "🦖" 25 7 10 ["trex"; "t-rex"];
    add_animal_def HIDDEN SUPPORT "unicorn" "🦄" 14 6 8 ["unicorn"] ].
Definition FOODS : list Food :=
  [ mkFood "apple" "🍎" COMMON 10 2 0 0 ["apple"];
    mkFood "carrot" "🥕" COMMON 10 1 1 0 ["carrot"];
    mkFood "berry" "🫐" COMMON 12 0 1 1 ["berry"];
    mkFood "bread" "🍞" COMMON 15 2 0 1 ["bread"];
    mkFood "corn" "🌽" COMMON 15 1 2 0 ["corn"];
    mkFood "honey" "🍯" UNCOMMON 30 3 1 1 ["honey"];
    mkFood "seaweed" "🪸" UNCOMMON 35 2 2 1 ["seaweed"; "kelp"];
    mkFood "mushroom" "🍄" UNCOMMON 35 1 2 2 ["mushroom"; "shroom"];
    mkFood "coconut" "🥥" UNCOMMON 40 4 0 2 ["coconut"];
    mkFood "sushi" "🍣" RARE 80 3 4 2 ["sushi"];
    mkFood "cheese" "🧀" RARE 75 5 2 1 ["cheese"];
    mkFood "pepper" "🌶️" RARE 85 0 6 1 ["pepper"; "chili"];
    mkFood "egg" "🥚" RARE 80 4 2 2 ["egg"];
    mkFood "steak" "🥩" EPIC 200 6 6 2 ["steak"];
    mkFood "ramen" "🍜" EPIC 210 4 5 4 ["ramen"; "noodles"];
    mkFood "salmon" "🍣" EPIC 220 5 5 3 ["salmon"];
    mkFood "truffle" "🍄" EPIC 230 3 6 5 ["truffle"];
    mkFood "golden_apple" "🍏" LEGENDARY 500 10 6 6 ["gapple"; "goldapple"];
    mkFood "phoenix_pepper" "🪽" LEGENDARY 520 4 12 4 ["phoenixpepper"; "firepepper"];
    mkFood "royal_honey" "🍯" LEGENDARY 510 8 5 8 ["royalhoney"];
    mkFood "stardust" "✨" SPECIAL 900 12 10 10 ["stardust"];
    mkFood "moon_berry" "🌙" SPECIAL 880 14 8 8 ["moonberry"];
    mkFood "dragons_feast" "🍖" HIDDEN 1500 16 16 12 ["dragonfeast"; "dfeast"];
    mkFood "unicorn_cake" "🍰" HIDDEN 1550 14 12 14 ["unicorncake"; "ucake"];
    mkFood "abyssal_ink" "🪶" HIDDEN 1600 12 18 10 ["ink"; "abyssalink"];
    mkFood "ancient_seed" "🪴" SPECIAL 950 18 6 12 ["ancientseed"; "seed"] ].

(** The flavour text [Food.ability] is not part of the model. *)

Definition RARITY_COIN_WEIGHT (r : Rarity) : Q :=
  match r with
  | COMMON => 3 # 5 | UNCOMMON => 4 # 5 | RARE => 1 | EPIC => 5 # 4
  | LEGENDARY => 8 # 5 | SPECIAL => 19 # 10 | HIDDEN => 12 # 5
  end.

(** ** Numbers *)

(** Python's [round(x)]: nearest integer, ties to even. *)
Definition py_round (x : Q) : Z :=
  let f := Qfloor x in
  match (x - inject_Z f ?= 1 # 2)%Q with
  | Lt => f
  | Gt => f + 1
  | Eq => if Z.even f then f else f + 1
  end.

#[global] Instance py_round_proper : Proper (Qeq ==> eq) py_round.
Proof.
  intros x y Hxy. unfold py_round.
  rewrite (Qfloor_comp x y Hxy).
  assert (H : (x - inject_Z (Qfloor y) ?= 1 # 2)%Q = (y - inject_Z (Qfloor y) ?= 1 # 2)%Q).
  { apply Qcompare_comp; [rewrite Hxy|]; reflexivity. }
  rewrite H. reflexivity.
Qed.

Definition Qleb (x y : Q) : bool := Qle_bool x y.
Definition Qltb (x y : Q) : bool := negb (Qle_bool y x).

Lemma Qleb_le x y : Qleb x y = true <-> (x <= y)%Q.
Proof. apply Qle_bool_iff. Qed.

Lemma Qltb_lt x y : Qltb x y = true <-> (x < y)%Q.
Proof.
  unfold Qltb. rewrite negb_true_iff. split.
  - intros H. apply Qnot_le_lt. intros Hle. apply Qle_bool_iff in Hle. congruence.
  - intros H. destruct (Qle_bool y x) eqn:E; [|reflexivity].
    apply Qle_bool_iff in E. exfalso. apply (Qlt_not_le _ _ H E).
Qed.

(** ** Power model *)

Module PowerModel.

Definition power (animal : Animal) : Q :=
  (inject_Z (hp animal) * 1 + inject_Z (atk animal) * (3 # 2)
   + inject_Z (defense animal) * (6 # 5))%Q.

Definition food_power (food : option Food) : Q :=
  match food with
  | None => 0
  | Some f =>
      (inject_Z (hp_bonus f) * 1 + inject_Z (atk_bonus f) * (3 # 2)
       + inject_Z (def_bonus f) * (6 # 5))%Q
  end.

(** [mutation_multiplier_value], on an already canonical key. *)
Definition mutation_multiplier_value (mutation : Mutation) : Q :=
  ability_multiplier (MUTATION_META mutation).

Definition effective_power (animal : Animal) (food : option Food)
    (mutation_multiplier : Q) : Q :=
  ((power animal + food_power food) * mutation_multiplier)%Q.

Definition calculate_team_power (animals : PerSlot Animal)
    (foods : PerSlot (option Food)) (mutations : PerSlot Mutation) : Q :=
  fold_left
    (fun total slot =>
       let mutation_multiplier := mutation_multiplier_value (sget mutations slot) in
       (total + effective_power (sget animals slot) (sget foods slot) mutation_multiplier)%Q)
    SLOTS 0%Q.










End PowerModel.

(** ** Exceptions and randomness *)

Inductive Exn := ValueError | IndexError.

Inductive Res (A : Type) := Ok (a : A) | Raise (e : Exn).
Arguments Ok {A} _.
Arguments Raise {A} _.

(** A computation that may draw from the random source (the stream and
    the position of the next draw) and may raise. *)
Definition Rand (A : Type) : Type := (nat -> Q) -> nat -> Res (A * nat).

Definition ret {A} (a : A) : Rand A := fun _ n => Ok (a, n).

Definition bind {A B} (m : Rand A) (k : A -> Rand B) : Rand B :=
  fun src n =>
    match m src n with
    | Ok (a, n') => k a src n'
    | Raise e => Raise e
    end.

Definition raise {A} (e : Exn) : Rand A := fun _ _ => Raise e.

Notation "'do' x <- m ; k" := (bind m (fun x => k))
  (at level 10, x pattern, m at level 100, k at level 200).

(** A step that raises [ValueError] when it has no result. *)
Definition lift {A} (o : option A) : Rand A :=
  match o with
  | Some a => ret a
  | None => raise ValueError
  end.

(** [random.random()] *)
Definition random : Rand Q := fun src n => Ok (src n, S n).

(** [random.choice(seq)] *)
Definition choice {A} (seq : list A) : Rand A :=
  do u <- random;
  match nth_error seq (Z.to_nat (Qfloor (u * inject_Z (Z.of_nat (length seq))))) with
  | Some x => ret x
  | None => raise IndexError
  end.

Lemma choice_In {A} (seq : list A) src n x n' :
  choice seq src n = Ok (x, n') -> In x seq /\ n' = S n.
Proof.
  unfold choice, bind, random, ret, raise.
  destruct (nth_error seq _) eqn:E; [|discriminate].
  intros H. injection H as <- <-. split; [|reflexivity].
  eapply nth_error_In. exact E.
Qed.

(** ** Progression economy: fusion *)

Module Fusion.

(** The branches of [roll_fusion_result] once the key is canonical and
    [roll = random.random() * 100] is drawn. *)
Definition fusion_of_roll (mutation : Mutation) (roll : Q) : Res (Mutation * Z) :=
  match mutation with
  | none =>
      if Qltb roll 50 then Ok (golden, 1)
      else if Qltb roll 75 then Ok (diamond, 1)
      else if Qltb roll 95 then Ok (emerald, 1)
      else Ok (rainbow, 1)
  | golden =>
      if Qltb roll 50 then Ok (diamond, 1)
      else if Qltb roll 90 then Ok (emerald, 1)
      else Ok (rainbow, 1)
  | diamond =>
      if Qltb roll 75 then Ok (emerald, 1)
      else Ok (rainbow, 1)
  | emerald =>
      if Qltb roll 50 then Ok (emerald, 3)
      else Ok (rainbow, 1)
  | rainbow => Raise ValueError
  end.

Definition roll_fusion_result (input_mutation : string) : Rand (Mutation * Z) :=
  match normalize_mutation_key input_mutation with
  | None => raise ValueError
  | Some mutation =>
      do u <- random;
      let roll := (u * 100)%Q in
      match fusion_of_roll mutation roll with
      | Ok r => ret r
      | Raise e => raise e
      end
  end.

Lemma Qltb_true_intro x y : (x < y)%Q -> Qltb x y = true.
Proof. apply Qltb_lt. Qed.

Lemma Qltb_false_intro x y : (y <= x)%Q -> Qltb x y = false.
Proof.
  intros H. destruct (Qltb x y) eqn:E; [|reflexivity].
  apply Qltb_lt in E. exfalso. exact (Qlt_not_le _ _ E H).
Qed.

Ltac roll_case :=
  repeat match goal with
         | H : (?x < ?y)%Q |- context [Qltb ?x ?y] =>
             rewrite (Qltb_true_intro x y H)
         | H : (?y <= ?x)%Q |- context [Qltb ?x ?y] =>
             rewrite (Qltb_false_intro x y H)
         | H : (?a <= ?x)%Q |- context [Qltb ?x ?b] =>
             rewrite (Qltb_false_intro x b) by (eapply Qle_trans; [|exact H]; discriminate)
         end.

(** C3: the outcome of fusing four units of one tier, by the roll in
    [0, 100): none: golden below 50, diamond in [50, 75), emerald in
    [75, 95), rainbow otherwise; golden: diamond below 50, emerald in
    [50, 90), rainbow otherwise; diamond: emerald below 75, rainbow
    otherwise; emerald: three emerald below 50, one rainbow otherwise;
    rainbow is rejected.  A roll of 40 from none gives one golden, a roll
    of 60 one diamond. *)
Theorem fusion_roll_table (roll : Q) :
  (0 <= roll)%Q -> (roll < 100)%Q ->
  ((roll < 50)%Q -> fusion_of_roll none roll = Ok (golden, 1)) /\
  ((50 <= roll)%Q -> (roll < 75)%Q -> fusion_of_roll none roll = Ok (diamond, 1)) /\
  ((75 <= roll)%Q -> (roll < 95)%Q -> fusion_of_roll none roll = Ok (emerald, 1)) /\
  ((95 <= roll)%Q -> fusion_of_roll none roll = Ok (rainbow, 1)) /\
  ((roll < 50)%Q -> fusion_of_roll golden roll = Ok (diamond, 1)) /\
  ((50 <= roll)%Q -> (roll < 90)%Q -> fusion_of_roll golden roll = Ok (emerald, 1)) /\
  ((90 <= roll)%Q -> fusion_of_roll golden roll = Ok (rainbow, 1)) /\
  ((roll < 75)%Q -> fusion_of_roll diamond roll = Ok (emerald, 1)) /\
  ((75 <= roll)%Q -> fusion_of_roll diamond roll = Ok (rainbow, 1)) /\
  ((roll < 50)%Q -> fusion_of_roll emerald roll = Ok (emerald, 3)) /\
  ((50 <= roll)%Q -> fusion_of_roll emerald roll = Ok (rainbow, 1)) /\
  fusion_of_roll rainbow roll = Raise ValueError /\
  (forall src n, roll == src n * 100 ->
     forall m, roll_fusion_result (mutation_name m) src n
               = match fusion_of_roll m roll with
                 | Ok r => Ok (r, S n)
                 | Raise e => Raise e
                 end) /\
  fusion_of_roll none 40 = Ok (golden, 1) /\
  fusion_of_roll none 60 = Ok (diamond, 1).
Proof.
  intros H0 H100.
  repeat split; try reflexivity; intros; cbn [fusion_of_roll]; roll_case;
    try reflexivity.
  unfold roll_fusion_result. rewrite normalize_canonical.
  unfold bind, random, ret, raise.
  assert (E : fusion_of_roll m (src n * 100) = fusion_of_roll m roll).
  { destruct m; cbn [fusion_of_roll]; unfold Qltb; rewrite <- ?H; reflexivity. }
  rewrite E. destruct (fusion_of_roll m roll); reflexivity.
Qed.

Lemma fusion_roll_table_witness :
  (0 <= 40)%Q /\ (40 < 100)%Q /\ fusion_of_roll none 40 = Ok (golden, 1) /\
  roll_fusion_result "none" (fun _ => 2 # 5) 0%nat = Ok ((golden, 1), 1%nat).
Proof.
  assert (H0 : (0 <= 40)%Q) by discriminate.
  assert (H1 : (40 < 100)%Q) by reflexivity.
  destruct (fusion_roll_table 40 H0 H1)
    as (G & _ & _ & _ & _ & _ & _ & _ & _ & _ & _ & _ & R & _).
  split; [exact H0|]. split; [exact H1|]. split.
  - apply G. reflexivity.
  - exact (R (fun _ => 2 # 5) 0%nat (eq_refl : (40 == (2 # 5) * 100)%Q) none).
Defined.

End Fusion.

(** ** Inventory, team reservations and the profile store *)

Module Inventory.

(** A zoo entry is a dict from mutation key to count (an association list
    in insertion order) or, in old data, a bare count.  Counts are ints. *)
Inductive ZooEntry :=
| ZDict (d : list (string * Z))
| ZInt (n : Z).

(** A team slot is [None], an animal id (old data) or a dict with the
    keys "animal_id" and "mutation". *)
Inductive SlotValue :=
| SlotNone
| SlotStr (s : string)
| SlotDict (d : list (string * string)).

Record Profile := mkProfile {
  zoo : gmap string ZooEntry;
  team : PerSlot SlotValue
}.

(** [store.data]: the users and the global owned counts.  Every stored
    profile carries its own key as "user_id". *)
Record Store := mkStore {
  users : gmap string Profile;
  owned_counts : gmap string Z
}.

(** [d.get(key, default)] and [d[key] = v] on insertion-ordered dicts. *)
Definition dict_get {V} (d : list (string * V)) (key : string) : option V :=
  match find (fun kv => String.eqb (fst kv) key) d with
  | Some kv => Some (snd kv)
  | None => None
  end.

Fixpoint dict_set {V} (d : list (string * V)) (key : string) (v : V)
  : list (string * V) :=
  match d with
  | [] => [(key, v)]
  | (k, x) :: r =>
      if String.eqb k key then (k, v) :: r else (k, x) :: dict_set r key v
  end.

Definition default_mutation_counts : list (string * Z) :=
  map (fun mutation => (mutation_name mutation, 0)) MUTATIONS.

Definition get_owned_count (profile : Profile) (animal_id mutation : string)
  : option Z :=
  mutation ← normalize_mutation_key mutation;
  let zoo_entry := default (ZDict []) (zoo profile !! animal_id) in
  match zoo_entry with
  | ZDict d => Some (Z.max 0 (default 0 (dict_get d (mutation_name mutation))))
  | ZInt n => Some (if decide (mutation = none) then Z.max 0 n else 0)
  end.

(** The loop shared by [add_animal] and [remove_animal]: a fresh bucket
    filled from the current entry, unknown keys skipped. *)
Definition rebuild_bucket (current : list (string * Z)) : list (string * Z) :=
  fold_left
    (fun bucket kv =>
       match normalize_mutation_key (fst kv) with
       | None => bucket
       | Some normalized_key =>
           dict_set bucket (mutation_name normalized_key) (Z.max 0 (snd kv))
       end)
    current default_mutation_counts.

Definition current_dict (current : option ZooEntry) : list (string * Z) :=
  match current with
  | None => []
  | Some (ZDict d) => d
  | Some (ZInt n) => [("none", Z.max 0 n)]
  end.

Definition add_animal (profile : Profile) (animal_id mutation : string) (qty : Z)
  : option Profile :=
  mutation ← normalize_mutation_key mutation;
  let qty := Z.max 0 qty in
  if (qty <=? 0)%Z then Some profile
  else
    let current := current_dict (zoo profile !! animal_id) in
    let bucket := rebuild_bucket current in
    let bucket :=
      dict_set bucket (mutation_name mutation)
        (default 0 (dict_get bucket (mutation_name mutation)) + qty) in
    Some (mkProfile (<[animal_id := ZDict bucket]> (zoo profile)) (team profile)).

Definition remove_animal (profile : Profile) (animal_id mutation : string) (qty : Z)
  : option (Z * Profile) :=
  mutation ← normalize_mutation_key mutation;
  let qty := Z.max 0 qty in
  if (qty <=? 0)%Z then Some (0, profile)
  else
    let current := current_dict (zoo profile !! animal_id) in
    let bucket := rebuild_bucket current in
    let owned := default 0 (dict_get bucket (mutation_name mutation)) in
    let removed := Z.min owned qty in
    let bucket := dict_set bucket (mutation_name mutation) (Z.max 0 (owned - removed)) in
    Some (removed,
          mkProfile (<[animal_id := ZDict bucket]> (zoo profile)) (team profile)).

Definition reserved_count (team : PerSlot SlotValue) (animal_id mutation : string)
  : option Z :=
  mutation ← normalize_mutation_key mutation;
  Some (fold_left
          (fun total slot =>
             match slot with
             | SlotDict ((_ :: _) as d) =>
                 if (bool_decide (dict_get d "animal_id" = Some animal_id)
                     && bool_decide (dict_get d "mutation" = Some (mutation_name mutation)))%bool
                 then total + 1 else total
             | _ => total
             end)
          (values team) 0).

Definition sellable_amount (profile : Profile) (animal_id mutation : string)
  : option Z :=
  owned ← get_owned_count profile animal_id mutation;
  reserved ← reserved_count (team profile) animal_id mutation;
  Some (Z.max 0 (owned - reserved)).

(** *** Persistence: [_migrate_profile] and [load_profile] *)

Definition _normalize_zoo_entry (value : ZooEntry) : list (string * Z) :=
  match value with
  | ZDict d => rebuild_bucket d
  | ZInt n => [("none", Z.max 0 n)]
  end.

Definition migrate_slot (normalized_zoo : gmap string (list (string * Z)))
    (raw_value : SlotValue) : SlotValue :=
  let slot_value : option (option string * Mutation) :=
    match raw_value with
    | SlotStr s => Some (Some s, none)
    | SlotDict ((_ :: _) as d) =>
        let mutation := default "none" (dict_get d "mutation") in
        let mutation := default none (normalize_mutation_key mutation) in
        Some (dict_get d "animal_id", mutation)
    | _ => None
    end in
  match slot_value with
  | Some (Some id, mutation) =>
      match normalized_zoo !! id with
      | Some bucket =>
          if (default 0 (dict_get bucket (mutation_name mutation)) <=? 0)%Z then
            match find (fun mut => (0 <? default 0 (dict_get bucket (mutation_name mut)))%Z)
                       MUTATIONS with
            | Some mut =>
                SlotDict [("animal_id", id); ("mutation", mutation_name mut)]
            | None => SlotNone
            end
          else SlotDict [("animal_id", id); ("mutation", mutation_name mutation)]
      | None => SlotNone
      end
  | _ => SlotNone
  end.

Definition _migrate_profile (profile : Profile) : Profile :=
  let normalized_zoo := _normalize_zoo_entry <$> zoo profile in
  let fixed_team :=
    mkPerSlot (migrate_slot normalized_zoo (sget (team profile) slot1))
              (migrate_slot normalized_zoo (sget (team profile) slot2))
              (migrate_slot normalized_zoo (sget (team profile) slot3)) in
  mkProfile (ZDict <$> normalized_zoo) fixed_team.

Definition _default_profile : Profile :=
  mkProfile ∅ (mkPerSlot SlotNone SlotNone SlotNone).

(** [store.load_profile]: the profile is the object held by the store, so
    the migration is visible in the store as well. *)
Definition load_profile (st : Store) (user_id : string) : Profile * Store :=
  let profile := _migrate_profile (default _default_profile (users st !! user_id)) in
  (profile, mkStore (<[user_id := profile]> (users st)) (owned_counts st)).

Definition save_profile (st : Store) (user_id : string) (profile : Profile) : Store :=
  mkStore (<[user_id := profile]> (users st)) (owned_counts st).

Definition adjust_owned_count (st : Store) (animal_id : string) (delta : Z) : Store :=
  mkStore (users st)
    (<[animal_id := Z.max 0 (default 0 (owned_counts st !! animal_id) + delta)]>
       (owned_counts st)).

(** *** Name resolution *)

Definition ALIASES : gmap string string :=
  fold_left
    (fun acc animal =>
       fold_left (fun acc alias => <[alias := animal_id animal]> acc)
                 (aliases animal ++ [emoji animal]) acc)
    ANIMALS ∅.

Definition resolve_animal (query : string) : option Animal :=
  let key := lower (strip query) in
  match ALIASES !! key with
  | Some found_id =>
      if String.eqb found_id "" then None
      else find (fun a => String.eqb (animal_id a) found_id) ANIMALS
  | None => None
  end.

End Inventory.

(** ** The fuse command *)

Module FuseCommand.
Import Inventory Fusion.

Inductive FuseReply :=
| UnknownAnimal
| InvalidMutation
| RainbowCannotFuse
| NotEnough (available : Z)
| FusionFailed
| FusionComplete (a : Animal) (mutation_key result_mutation : Mutation) (result_qty : Z).

(** [fuse]: the reply sent and the store as it is left in memory.  The
    profile returned by [load_profile] is the store's own object, so each
    mutation of it is written through to the store. *)
Definition fuse (st : Store) (user_id animal mutation : string)
  : Rand (FuseReply * Store) :=
  match resolve_animal animal with
  | None => ret (UnknownAnimal, st)
  | Some a =>
      match normalize_mutation_key mutation with
      | None => ret (InvalidMutation, st)
      | Some mutation_key =>
          if decide (mutation_key = rainbow) then ret (RainbowCannotFuse, st)
          else
            let '(profile, st) := load_profile st user_id in
            do available <-
                 lift (sellable_amount profile (animal_id a) (mutation_name mutation_key));
            if (available <? 4)%Z then ret (NotEnough available, st)
            else
              do rp <- lift (remove_animal profile (animal_id a)
                               (mutation_name mutation_key) 4);
              let '(removed, profile) := rp in
              let st := save_profile st user_id profile in
              if (removed <? 4)%Z then ret (FusionFailed, st)
              else
                do res <- roll_fusion_result (mutation_name mutation_key);
                let '(result_mutation, result_qty) := res in
                do profile <-
                     lift (add_animal profile (animal_id a)
                             (mutation_name result_mutation) result_qty);
                let owned_delta := result_qty - removed in
                let st := adjust_owned_count st (animal_id a) owned_delta in
                let st := save_profile st user_id profile in
                ret (FusionComplete a mutation_key result_mutation result_qty, st)
      end
  end.

(** *** Buckets with the five canonical keys *)

Definition bucket_of (f : Mutation -> Z) : list (string * Z) :=
  map (fun m => (mutation_name m, f m)) MUTATIONS.

Definition fupd (f : Mutation -> Z) (m : Mutation) (v : Z) : Mutation -> Z :=
  fun m' => if decide (m' = m) then v else f m'.

Lemma bucket_of_ext f g : (forall m, f m = g m) -> bucket_of f = bucket_of g.
Proof. intros H. unfold bucket_of. apply map_ext. intros m. now rewrite H. Qed.

Lemma dict_get_bucket_of f m :
  dict_get (bucket_of f) (mutation_name m) = Some (f m).
Proof. destruct m; reflexivity. Qed.

Lemma dict_set_bucket_of f m v :
  dict_set (bucket_of f) (mutation_name m) v = bucket_of (fupd f m v).
Proof. destruct m; reflexivity. Qed.

Lemma dict_get_single (v : Z) m :
  dict_get [("none", v)] (mutation_name m) = if decide (m = none) then Some v else None.
Proof. destruct m; reflexivity. Qed.

Lemma fupd_same f m v : fupd f m v m = v.
Proof. unfold fupd. destruct (decide (m = m)); congruence. Qed.


Definition rebuild_step (bucket : list (string * Z)) (kv : string * Z)
  : list (string * Z) :=
  match normalize_mutation_key (fst kv) with
  | None => bucket
  | Some normalized_key =>
      dict_set bucket (mutation_name normalized_key) (Z.max 0 (snd kv))
  end.

Lemma rebuild_fold_canonical d :
  forall f, (forall m, 0 <= f m) ->
  exists g, (forall m, 0 <= g m) /\ fold_left rebuild_step d (bucket_of f) = bucket_of g.
Proof.
  induction d as [|[k v] d IH]; intros f Hf.
  - exists f. split; [exact Hf|reflexivity].
  - cbn [fold_left]. unfold rebuild_step at 2. cbn [fst snd].
    destruct (normalize_mutation_key k) as [m|].
    + rewrite dict_set_bucket_of. apply IH. intros m'. unfold fupd.
      destruct (decide (m' = m)); [lia|apply Hf].
    + apply IH, Hf.
Qed.

Lemma rebuild_bucket_canonical d :
  exists g, (forall m, 0 <= g m) /\ rebuild_bucket d = bucket_of g.
Proof.
  apply (rebuild_fold_canonical d (fun _ => 0)). intros; lia.
Qed.

Lemma rebuild_bucket_of f :
  (forall m, 0 <= f m) -> rebuild_bucket (bucket_of f) = bucket_of f.
Proof.
  intros Hf. unfold rebuild_bucket.
  change default_mutation_counts with (bucket_of (fun _ => 0)).
  change (fold_left _ (bucket_of f) (bucket_of (fun _ => 0)))
    with (fold_left rebuild_step (bucket_of f) (bucket_of (fun _ => 0))).
  unfold bucket_of at 1. cbn [map MUTATIONS MUTATION_ORDER fold_left].
  unfold rebuild_step. cbn [fst snd].
  rewrite !normalize_canonical, !dict_set_bucket_of.
  apply bucket_of_ext. intros m. unfold fupd.
  destruct m; cbn; apply Z.max_r, Hf.
Qed.

(** The counts a profile holds of one animal, as its operations see them. *)
Definition counts_view (profile : Profile) (id : string) (f : Mutation -> Z) : Prop :=
  (forall m, 0 <= f m) /\
  (forall m, get_owned_count profile id (mutation_name m) = Some (f m)) /\
  rebuild_bucket (current_dict (zoo profile !! id)) = bucket_of f.

Definition well_formed (profile : Profile) : Prop :=
  forall id, exists f, counts_view profile id f.

Lemma get_owned_count_canonical profile id m :
  get_owned_count profile id (mutation_name m)
  = Some (match zoo profile !! id with
          | Some (ZDict d) =>
              Z.max 0 (match dict_get d (mutation_name m) with
                       | Some v => v
                       | None => 0
                       end)
          | Some (ZInt n) => if decide (m = none) then Z.max 0 n else 0
          | None => 0
          end).
Proof.
  unfold get_owned_count. rewrite normalize_canonical.
  change (Some m ≫= ?k) with (k m). cbv beta.
  destruct (zoo profile !! id) as [[d|n]|]; try reflexivity.
Qed.

Lemma counts_view_bucket profile id f :
  (forall m, 0 <= f m) ->
  zoo profile !! id = Some (ZDict (bucket_of f)) ->
  counts_view profile id f.
Proof.
  intros Hf Hz. split; [exact Hf|]. split.
  - intros m. rewrite get_owned_count_canonical, Hz, dict_get_bucket_of.
    f_equal. apply Z.max_r, Hf.
  - rewrite Hz. cbn [current_dict]. apply rebuild_bucket_of, Hf.
Qed.

Lemma migrate_profile_well_formed profile : well_formed (_migrate_profile profile).
Proof.
  intros id. unfold _migrate_profile.
  destruct (zoo profile !! id) as [[d|k]|] eqn:E.
  - destruct (rebuild_bucket_canonical d) as (g & Hg & Eg).
    exists g. apply counts_view_bucket; [exact Hg|].
    cbn [zoo]. rewrite !lookup_fmap, E. cbn. now rewrite Eg.
  - exists (fun m => if decide (m = none) then Z.max 0 k else 0).
    assert (Hz : (ZDict <$> (_normalize_zoo_entry <$> zoo profile)) !! id
                 = Some (ZDict [("none", Z.max 0 k)])).
    { rewrite !lookup_fmap, E. reflexivity. }
    split; [intros m; destruct (decide (m = none)); lia|]. split.
    + intros m. rewrite get_owned_count_canonical. cbn [zoo].
      rewrite Hz, dict_get_single.
      destruct (decide (m = none)); f_equal; lia.
    + cbn [zoo]. rewrite Hz. cbn [current_dict].
      unfold rebuild_bucket. cbn [fold_left fst snd].
      change (normalize_mutation_key "none") with (Some none).
      change default_mutation_counts with (bucket_of (fun _ => 0)).
      cbv iota beta.
      rewrite dict_set_bucket_of. apply bucket_of_ext. intros m.
      unfold fupd. destruct (decide (m = none)); lia.
  - exists (fun _ => 0).
    assert (Hz : (ZDict <$> (_normalize_zoo_entry <$> zoo profile)) !! id = None).
    { rewrite !lookup_fmap, E. reflexivity. }
    split; [intros; lia|]. split.
    + intros m. rewrite get_owned_count_canonical. cbn [zoo]. rewrite Hz.
      reflexivity.
    + cbn [zoo]. rewrite Hz. reflexivity.
Qed.

Lemma load_profile_well_formed st user_id :
  well_formed (fst (load_profile st user_id)).
Proof. apply migrate_profile_well_formed. Qed.

(** Position of a tier in [MUTATION_ORDER]. *)
Definition tier (m : Mutation) : nat :=
  match m with
  | none => 0 | golden => 1 | diamond => 2 | emerald => 3 | rainbow => 4
  end.

Lemma tier_is_index m : nth_error MUTATION_ORDER (tier m) = Some m.
Proof. destruct m; reflexivity. Qed.

Definition reserved_step (animal_id : string) (mutation : Mutation)
    (total : Z) (slot : SlotValue) : Z :=
  match slot with
  | SlotDict ((_ :: _) as d) =>
      if (bool_decide (dict_get d "animal_id" = Some animal_id)
          && bool_decide (dict_get d "mutation" = Some (mutation_name mutation)))%bool
      then total + 1 else total
  | _ => total
  end.

Definition reserved_total (team : PerSlot SlotValue) (animal_id : string)
    (mutation : Mutation) : Z :=
  fold_left (reserved_step animal_id mutation) (values team) 0.

Lemma reserved_count_canonical team id m :
  reserved_count team id (mutation_name m) = Some (reserved_total team id m).
Proof.
  unfold reserved_count. rewrite normalize_canonical. reflexivity.
Qed.



Lemma sellable_amount_view profile id f m :
  counts_view profile id f ->
  sellable_amount profile id (mutation_name m)
  = Some (Z.max 0 (f m - reserved_total (team profile) id m)).
Proof.
  intros (_ & Hget & _). unfold sellable_amount.
  rewrite Hget, reserved_count_canonical. reflexivity.
Qed.

Lemma remove_animal_view profile id f m qty :
  counts_view profile id f -> 0 < qty ->
  remove_animal profile id (mutation_name m) qty
  = Some (Z.min (f m) qty,
          mkProfile
            (<[id := ZDict (bucket_of (fupd f m (Z.max 0 (f m - Z.min (f m) qty))))]>
               (zoo profile))
            (team profile)).
Proof.
  intros (_ & _ & Hb) Hq. unfold remove_animal. rewrite normalize_canonical.
  change (Some m ≫= ?k) with (k m). cbv beta zeta.
  rewrite Z.max_r by lia.
  destruct (qty <=? 0)%Z eqn:E; [apply Z.leb_le in E; lia|].
  rewrite Hb, dict_get_bucket_of, dict_set_bucket_of. reflexivity.
Qed.

Lemma add_animal_view profile id f m qty :
  counts_view profile id f -> 0 < qty ->
  add_animal profile id (mutation_name m) qty
  = Some (mkProfile
            (<[id := ZDict (bucket_of (fupd f m (f m + qty)))]> (zoo profile))
            (team profile)).
Proof.
  intros (_ & _ & Hb) Hq. unfold add_animal. rewrite normalize_canonical.
  change (Some m ≫= ?k) with (k m). cbv beta zeta.
  rewrite Z.max_r by lia.
  destruct (qty <=? 0)%Z eqn:E; [apply Z.leb_le in E; lia|].
  rewrite Hb, dict_get_bucket_of, dict_set_bucket_of. reflexivity.
Qed.

Lemma counts_view_insert z t id g :
  (forall m, 0 <= g m) ->
  counts_view (mkProfile (<[id := ZDict (bucket_of g)]> z) t) id g.
Proof.
  intros Hg. apply counts_view_bucket; [exact Hg|].
  cbn [zoo]. apply lookup_insert_eq.
Qed.





(** C10: units reserved on the team do not count for a fusion: with at
    least four owned of the animal and tier but fewer than four left after
    subtracting the team slots that hold this animal and tier, the fuse is
    refused and nothing is consumed. *)
Theorem fuse_refused_when_reserved
    st user_id animal mutation a m owned reserved src n :
  resolve_animal animal = Some a ->
  normalize_mutation_key mutation = Some m ->
  get_owned_count (fst (load_profile st user_id)) (animal_id a) (mutation_name m)
  = Some owned ->
  reserved_count (team (fst (load_profile st user_id))) (animal_id a) (mutation_name m)
  = Some reserved ->
  4 <= owned ->
  owned - reserved < 4 ->
  fuse st user_id animal mutation src n
  = Ok ((NotEnough (Z.max 0 (owned - reserved)), snd (load_profile st user_id)), n)
  \/ fuse st user_id animal mutation src n = Ok ((RainbowCannotFuse, st), n).
Proof.
  intros Ha Hm Ho Hr H4 Hlt. unfold fuse. rewrite Ha, Hm.
  destruct (decide (m = rainbow)); [right; reflexivity|left].
  destruct (load_profile st user_id) as [profile st0] eqn:El.
  cbn [fst snd] in *.
  unfold bind, lift, sellable_amount. rewrite Ho, Hr.
  cbn [mbind option_bind ret].
  destruct (Z.max 0 (owned - reserved) <? 4)%Z eqn:E; [reflexivity|].
  apply Z.ltb_ge in E. lia.
Qed.

Definition reserved_example : Store :=
  mkStore
    {[ "42" := mkProfile {[ "pig" := ZDict [("none", 4)] ]}
                 (mkPerSlot (SlotDict [("animal_id", "pig"); ("mutation", "none")])
                            SlotNone SlotNone) ]}
    ∅.

Lemma fuse_refused_when_reserved_witness :
  fuse reserved_example "42" "pig" "none" (fun _ => 0%Q) 0%nat
  = Ok ((NotEnough 3, snd (load_profile reserved_example "42")), 0%nat).
Proof.
  assert (Ha : resolve_animal "pig"
               = Some (add_animal_def COMMON TANK "pig" "🐖" 10 3 3 ["pig"]))
    by (vm_compute; reflexivity).
  assert (Hm : normalize_mutation_key "none" = Some none) by reflexivity.
  assert (Ho : get_owned_count (fst (load_profile reserved_example "42"))
                 "pig" (mutation_name none) = Some 4)
    by (vm_compute; reflexivity).
  assert (Hr : reserved_count (team (fst (load_profile reserved_example "42")))
                 "pig" (mutation_name none) = Some 1)
    by (vm_compute; reflexivity).
  destruct (fuse_refused_when_reserved reserved_example "42" "pig" "none"
              _ none 4 1 (fun _ => 0%Q) 0%nat Ha Hm Ho Hr ltac:(lia) ltac:(lia))
    as [H|H].
  - exact H.
  - exfalso. revert H. vm_compute. discriminate.
Defined.

(** A fusion that goes through: five plain pigs, none on the team, roll
    40: four are consumed and one golden pig is credited. *)
Definition five_pigs : Store :=
  mkStore {[ "42" := mkProfile {[ "pig" := ZInt 5 ]}
                       (mkPerSlot SlotNone SlotNone SlotNone) ]}
          {[ "pig" := 5 ]}.

Example fuse_five_pigs :
  match fuse five_pigs "42" " Pig" "Normal" (fun _ => 2 # 5) 0%nat with
  | Ok ((FusionComplete a m result qty, st'), _) =>
      animal_id a = "pig" /\ m = none /\ result = golden /\ qty = 1 /\
      (zoo <$> users st' !! "42")
      = Some {[ "pig" := ZDict [("none", 1); ("golden", 1); ("diamond", 0);
                                ("emerald", 0); ("rainbow", 0)] ]} /\
      owned_counts st' !! "pig" = Some 2
  | _ => False
  end.
Proof. vm_compute. repeat split; reflexivity. Qed.

End FuseCommand.

(** ** Difficulty window *)

Module Window.

Definition mutation_stage (mutation_key : Mutation) : Z :=
  match mutation_key with
  | none => 0 | golden => 0 | diamond => 1 | emerald => 2 | rainbow => 3
  end.

Definition food_count (player_foods : PerSlot (option Food)) : Z :=
  fold_left (fun total food => match food with Some _ => total + 1 | None => total end)
            (values player_foods) 0.

(** The loop over [player_mutations.values()]: the number of mutated
    slots and the highest stage. *)
Definition mutation_signals (player_mutations : PerSlot Mutation) : Z * Z :=
  fold_left
    (fun '(mutated_count, highest_stage) normalized =>
       ((if decide (normalized <> none) then mutated_count + 1 else mutated_count),
        Z.max highest_stage (mutation_stage normalized)))
    (values player_mutations) (0, 0).

Definition base_range (mutated_count food_count : Z) : Q * Q :=
  if (mutated_count =? 0)%Z then
    if (food_count =? 0)%Z then (80, 150)%Q
    else if (food_count =? 1)%Z then (80, 145)%Q
    else (80, 140)%Q
  else if (mutated_count =? 3)%Z then
    if (food_count =? 0)%Z then (75, 130)%Q
    else (70, 130)%Q
  else
    if (food_count =? 0)%Z then (75, 135)%Q
    else (70, 135)%Q.

(** [min_pct] and [max_pct]. *)
Definition window_pct (player_foods : PerSlot (option Food))
    (player_mutations : PerSlot Mutation) : Q * Q :=
  let '(mutated_count, highest_stage) := mutation_signals player_mutations in
  let '(base_min_pct, base_max_pct) := base_range mutated_count (food_count player_foods) in
  let buff_per_stage := (5 * inject_Z highest_stage)%Q in
  let min_pct := Qmax 0 (base_min_pct - buff_per_stage / 2) in
  let max_pct := Qmax 0 (base_max_pct + buff_per_stage / 2) in
  (min_pct, max_pct).

(** [target_min] and [target_max]. *)
Definition difficulty_window (player_final_power : Q)
    (player_foods : PerSlot (option Food)) (player_mutations : PerSlot Mutation)
  : Q * Q :=
  let '(min_pct, max_pct) := window_pct player_foods player_mutations in
  ((player_final_power * (min_pct / 100))%Q, (player_final_power * (max_pct / 100))%Q).











End Window.

(** ** Combat resolver *)

Module Combat.

Definition Stats : Type := Z * Z * Z.   (* (hp, atk, defense) *)

Definition stat_hp (s : Stats) : Z := fst (fst s).
Definition stat_atk (s : Stats) : Z := snd (fst s).
Definition stat_def (s : Stats) : Z := snd s.

Definition apply_food (animal : Animal) (food : option Food) : Stats :=
  let hp := hp animal + match food with Some f => hp_bonus f | None => 0 end in
  let atk := atk animal + match food with Some f => atk_bonus f | None => 0 end in
  let defense := defense animal + match food with Some f => def_bonus f | None => 0 end in
  (hp, atk, defense).

Definition first_alive (hp_map : PerSlot Z) : option Slot :=
  find (fun slot => (0 <? sget hp_map slot)%Z) SLOTS.

(** The body of [attack_phase] over the remaining slots of the attacker;
    [defender_hp] is the dict the loop updates. *)
Fixpoint attack_loop (slots : list Slot) (attacker_hp : PerSlot Z)
    (attacker_stats : PerSlot Stats) (defender_hp : PerSlot Z)
    (defender_stats : PerSlot Stats) : PerSlot Z :=
  match slots with
  | [] => defender_hp
  | slot :: rest =>
      if (sget attacker_hp slot <=? 0)%Z then
        attack_loop rest attacker_hp attacker_stats defender_hp defender_stats
      else
        match first_alive defender_hp with
        | None => defender_hp
        | Some target_slot =>
            let def_value :=
              fold_left
                (fun total '(s, hp) =>
                   if (0 <? hp)%Z then total + stat_def (sget defender_stats s) else total)
                (items defender_hp) 0 in
            let dmg := Z.max 1 (stat_atk (sget attacker_stats slot) - def_value) in
            attack_loop rest attacker_hp attacker_stats
              (sset defender_hp target_slot
                    (Z.max 0 (sget defender_hp target_slot - dmg)))
              defender_stats
        end
  end.

Definition attack_phase (attacker_hp : PerSlot Z) (attacker_stats : PerSlot Stats)
    (defender_hp : PerSlot Z) (defender_stats : PerSlot Stats) : PerSlot Z :=
  attack_loop SLOTS attacker_hp attacker_stats defender_hp defender_stats.

Definition is_alive (hp_map : PerSlot Z) : bool :=
  match first_alive hp_map with Some _ => true | None => false end.

Section Rounds.
Variables player_stats enemy_stats : PerSlot Stats.

(** The [while] loop of the battle; [fuel] bounds the iterations left. *)
Fixpoint round_loop (fuel : nat) (rounds : Z) (player_hp enemy_hp : PerSlot Z)
  : Z * PerSlot Z * PerSlot Z :=
  match fuel with
  | O => (rounds, player_hp, enemy_hp)
  | S fuel' =>
      if (is_alive player_hp && is_alive enemy_hp && (rounds <? 100)%Z)%bool then
        let rounds := rounds + 1 in
        let enemy_hp := attack_phase player_hp player_stats enemy_hp enemy_stats in
        if negb (is_alive enemy_hp) then (rounds, player_hp, enemy_hp)
        else
          let player_hp := attack_phase enemy_hp enemy_stats player_hp player_stats in
          round_loop fuel' rounds player_hp enemy_hp
      else (rounds, player_hp, enemy_hp)
  end.

Record CombatResult := mkResult {
  final_player_hp : PerSlot Z;
  final_enemy_hp : PerSlot Z;
  rounds_fought : Z;
  cap_reached : bool;
  player_win : bool
}.

Definition hp_total (hp_map : PerSlot Z) : Z :=
  fold_left (fun total hp => total + Z.max 0 hp) (values hp_map) 0.

Definition judge (rounds : Z) (player_hp enemy_hp : PerSlot Z) : CombatResult :=
  let player_alive := is_alive player_hp in
  let enemy_alive := is_alive enemy_hp in
  let cap_reached := ((100 <=? rounds)%Z && player_alive && enemy_alive)%bool in
  let player_win :=
    if cap_reached then
      let player_hp_total := hp_total player_hp in
      let enemy_hp_total := hp_total enemy_hp in
      (enemy_hp_total <? player_hp_total)%Z
    else (player_alive && negb enemy_alive)%bool in
  mkResult player_hp enemy_hp rounds cap_reached player_win.

(** The combat part of [battle], from the stats of the two teams. *)
Definition resolve_combat : CombatResult :=
  let player_hp := mkPerSlot (stat_hp (at1 player_stats)) (stat_hp (at2 player_stats))
                             (stat_hp (at3 player_stats)) in
  let enemy_hp := mkPerSlot (stat_hp (at1 enemy_stats)) (stat_hp (at2 enemy_stats))
                            (stat_hp (at3 enemy_stats)) in
  let '(rounds, player_hp, enemy_hp) := round_loop 100 0 player_hp enemy_hp in
  judge rounds player_hp enemy_hp.

(** The loop needs no more than [100 - rounds] iterations: extra fuel
    changes nothing. *)
Lemma round_loop_fuel_enough fuel :
  forall rounds player_hp enemy_hp extra,
    100 - rounds <= Z.of_nat fuel ->
    round_loop (fuel + extra) rounds player_hp enemy_hp
    = round_loop fuel rounds player_hp enemy_hp.
Proof.
  induction fuel as [|fuel IH]; intros rounds php ehp extra Hf.
  - cbn [Nat.add]. destruct extra as [|extra]; [reflexivity|].
    cbn [round_loop].
    replace (rounds <? 100)%Z with false by (symmetry; apply Z.ltb_ge; lia).
    rewrite andb_false_r. reflexivity.
  - cbn [Nat.add round_loop].
    destruct (is_alive php && is_alive ehp && (rounds <? 100)%Z)%bool; [|reflexivity].
    destruct (negb _); [reflexivity|].
    apply IH. lia.
Qed.

Lemma round_loop_rounds_le fuel :
  forall rounds player_hp enemy_hp,
    rounds <= 100 ->
    fst (fst (round_loop fuel rounds player_hp enemy_hp)) <= 100.
Proof.
  induction fuel as [|fuel IH]; intros rounds php ehp Hr; [exact Hr|].
  cbn [round_loop].
  destruct (is_alive php && is_alive ehp && (rounds <? 100)%Z)%bool eqn:E;
    [|exact Hr].
  apply andb_prop in E as [_ E]. apply Z.ltb_lt in E.
  destruct (negb _); [cbn; lia|]. apply IH. lia.
Qed.

End Rounds.

(** *** One attack pass *)

Definition slot_index (s : Slot) : Z :=
  match s with slot1 => 1 | slot2 => 2 | slot3 => 3 end.

(** Summed defense of the defender's slots that are still alive. *)
Definition living_defense (defender_hp : PerSlot Z) (defender_stats : PerSlot Stats) : Z :=
  (if (0 <? at1 defender_hp)%Z then stat_def (at1 defender_stats) else 0)
  + (if (0 <? at2 defender_hp)%Z then stat_def (at2 defender_stats) else 0)
  + (if (0 <? at3 defender_hp)%Z then stat_def (at3 defender_stats) else 0).

Lemma def_value_living defender_hp defender_stats :
  fold_left
    (fun total '(s, hp) =>
       if (0 <? hp)%Z then total + stat_def (sget defender_stats s) else total)
    (items defender_hp) 0
  = living_defense defender_hp defender_stats.
Proof.
  unfold living_defense, items. cbn [map SLOTS fold_left sget].
  destruct (0 <? at1 defender_hp)%Z, (0 <? at2 defender_hp)%Z,
    (0 <? at3 defender_hp)%Z; lia.
Qed.

Lemma first_alive_Some d t :
  first_alive d = Some t <->
  0 < sget d t /\ forall s, slot_index s < slot_index t -> sget d s <= 0.
Proof.
  destruct d as [h1 h2 h3]. unfold first_alive.
  cbn [find SLOTS sget at1 at2 at3].
  destruct (0 <? h1)%Z eqn:E1; [|destruct (0 <? h2)%Z eqn:E2;
                                   [|destruct (0 <? h3)%Z eqn:E3]];
    rewrite ?Z.ltb_lt, ?Z.ltb_ge in *; split.
  all: try discriminate.
  all: try (intros H; injection H as <-; split;
            [cbn; lia|intros [] Hs; cbn in *; lia]).
  all: intros [Hp Hall]; pose proof (Hall slot1) as A1;
    pose proof (Hall slot2) as A2; destruct t; cbn in *;
    try reflexivity; exfalso; lia.
Qed.

Lemma first_alive_None d :
  first_alive d = None <-> forall s, sget d s <= 0.
Proof.
  unfold first_alive. cbn [find SLOTS sget].
  destruct (0 <? at1 d)%Z eqn:E1; [|destruct (0 <? at2 d)%Z eqn:E2;
                                     [|destruct (0 <? at3 d)%Z eqn:E3]];
    rewrite ?Z.ltb_lt, ?Z.ltb_ge in *; split; try discriminate; try reflexivity.
  - intros H. pose proof (H slot1). cbn in *. lia.
  - intros H. pose proof (H slot2). cbn in *. lia.
  - intros H. pose proof (H slot3). cbn in *. lia.
  - intros _ []; cbn; lia.
Qed.

Lemma attack_loop_no_target slots attacker_hp attacker_stats d defender_stats :
  first_alive d = None ->
  attack_loop slots attacker_hp attacker_stats d defender_stats = d.
Proof.
  intros Hd. induction slots as [|slot rest IH]; [reflexivity|].
  cbn [attack_loop]. rewrite Hd, IH. destruct (_ <=? _)%Z; reflexivity.
Qed.

Lemma attack_loop_cons slot rest attacker_hp attacker_stats d defender_stats :
  attack_loop (slot :: rest) attacker_hp attacker_stats d defender_stats
  = attack_loop rest attacker_hp attacker_stats
      (attack_loop [slot] attacker_hp attacker_stats d defender_stats)
      defender_stats.
Proof.
  cbn [attack_loop].
  destruct (sget attacker_hp slot <=? 0)%Z; [reflexivity|].
  destruct (first_alive d) eqn:E; [reflexivity|].
  symmetry. apply attack_loop_no_target, E.
Qed.

(** C5: the attacker's slots act in the order slot1, slot2, slot3; a slot
    acts only with health above 0 and hits the first living slot of the
    defender in slot order; the damage is max(1, attack - summed defense
    of the defender's living slots) and is taken from the health of the
    target alone, floored at 0. *)
Theorem attack_phase_round_rule
    (attacker_hp : PerSlot Z) (attacker_stats : PerSlot Stats)
    (defender_stats : PerSlot Stats) :
  let act slot d := attack_loop [slot] attacker_hp attacker_stats d defender_stats in
  (forall defender_hp,
      attack_phase attacker_hp attacker_stats defender_hp defender_stats
      = act slot3 (act slot2 (act slot1 defender_hp))) /\
  (forall slot d, sget attacker_hp slot <= 0 -> act slot d = d) /\
  (forall slot d, first_alive d = None -> act slot d = d) /\
  (forall slot d target,
      0 < sget attacker_hp slot ->
      first_alive d = Some target ->
      let dmg := Z.max 1 (stat_atk (sget attacker_stats slot)
                          - living_defense d defender_stats) in
      sget (act slot d) target = Z.max 0 (sget d target - dmg) /\
      forall other, other <> target -> sget (act slot d) other = sget d other) /\
  (forall d target,
      first_alive d = Some target <->
      0 < sget d target /\
      forall s, slot_index s < slot_index target -> sget d s <= 0) /\
  (forall d, first_alive d = None <-> forall s, sget d s <= 0).
Proof.
  intros act.
  split.
  { intros d. unfold attack_phase, SLOTS, act.
    rewrite (attack_loop_cons slot1), (attack_loop_cons slot2). reflexivity. }
  split.
  { intros slot d H. unfold act. cbn [attack_loop].
    apply Z.leb_le in H. now rewrite H. }
  split.
  { intros slot d H. unfold act. now apply attack_loop_no_target. }
  split.
  { intros slot d target Ha Ht dmg. unfold act. cbn [attack_loop].
    destruct (sget attacker_hp slot <=? 0)%Z eqn:E; [apply Z.leb_le in E; lia|].
    rewrite Ht, def_value_living. fold dmg. split.
    - apply sget_sset_same.
    - intros other Hne. apply sget_sset_other. congruence. }
  split; [exact first_alive_Some|exact first_alive_None].
Qed.

Lemma attack_phase_round_rule_witness :
  attack_phase (mkPerSlot 10 0 7) (mkPerSlot (10, 9, 2) (8, 20, 1) (7, 3, 3))
    (mkPerSlot 0 5 12) (mkPerSlot (9, 4, 3) (5, 4, 2) (12, 2, 1))
  = mkPerSlot 0 0 10.
Proof.
  destruct (attack_phase_round_rule (mkPerSlot 10 0 7)
              (mkPerSlot (10, 9, 2) (8, 20, 1) (7, 3, 3))
              (mkPerSlot (9, 4, 3) (5, 4, 2) (12, 2, 1))) as (Horder & _).
  rewrite Horder. reflexivity.
Defined.

(** *** Outcome *)

(** Remaining health of a side, each slot floored at 0. *)
Definition remaining_health (hp_map : PerSlot Z) : Z :=
  Z.max 0 (at1 hp_map) + Z.max 0 (at2 hp_map) + Z.max 0 (at3 hp_map).

Lemma hp_total_remaining hp_map : hp_total hp_map = remaining_health hp_map.
Proof. unfold hp_total, remaining_health. cbn. lia. Qed.

(** C6: when the 100-round cap is reached with a living slot on both
    sides, the player wins exactly when the player's summed remaining
    health is strictly greater than the enemy's; with equal sums the
    player loses. *)
Theorem round_cap_tiebreak (player_stats enemy_stats : PerSlot Stats) :
  let r := resolve_combat player_stats enemy_stats in
  100 <= rounds_fought r ->
  is_alive (final_player_hp r) = true ->
  is_alive (final_enemy_hp r) = true ->
  rounds_fought r = 100 /\
  cap_reached r = true /\
  (remaining_health (final_enemy_hp r) < remaining_health (final_player_hp r) ->
   player_win r = true) /\
  (remaining_health (final_player_hp r) < remaining_health (final_enemy_hp r) ->
   player_win r = false) /\
  (remaining_health (final_player_hp r) = remaining_health (final_enemy_hp r) ->
   player_win r = false).
Proof.
  intros r. unfold r, resolve_combat.
  match goal with |- context [round_loop ?ps ?es ?f ?n ?p ?e] =>
    pose proof (round_loop_rounds_le ps es f n p e ltac:(lia)) as Hle;
    destruct (round_loop ps es f n p e) as [[rounds php] ehp]
  end.
  cbn [fst] in Hle. unfold judge.
  cbn [rounds_fought final_player_hp final_enemy_hp cap_reached player_win].
  intros Hr Hp He.
  rewrite Hp, He, (hp_total_remaining php), (hp_total_remaining ehp).
  assert (Hr' : (100 <=? rounds)%Z = true) by (apply Z.leb_le; exact Hr).
  rewrite Hr'. cbn [andb].
  split; [lia|]. split; [reflexivity|].
  split; [intros H; apply Z.ltb_lt; lia|].
  split; intros H; apply Z.ltb_ge; lia.
Qed.

Definition sturdy : PerSlot Stats := mkPerSlot (1000, 1, 0) (1000, 1, 0) (1000, 1, 0).

Lemma round_cap_tiebreak_witness :
  rounds_fought (resolve_combat sturdy sturdy) = 100 /\
  remaining_health (final_player_hp (resolve_combat sturdy sturdy)) = 2700 /\
  remaining_health (final_enemy_hp (resolve_combat sturdy sturdy)) = 2700 /\
  player_win (resolve_combat sturdy sturdy) = false.
Proof.
  assert (Hr : 100 <= rounds_fought (resolve_combat sturdy sturdy))
    by (vm_compute; discriminate).
  assert (Hp : is_alive (final_player_hp (resolve_combat sturdy sturdy)) = true)
    by (vm_compute; reflexivity).
  assert (He : is_alive (final_enemy_hp (resolve_combat sturdy sturdy)) = true)
    by (vm_compute; reflexivity).
  destruct (round_cap_tiebreak sturdy sturdy Hr Hp He) as (R & _ & _ & _ & T).
  split; [exact R|]. split; [vm_compute; reflexivity|].
  split; [vm_compute; reflexivity|].
  apply T. vm_compute. reflexivity.
Defined.

End Combat.

(** ** Reward calculator *)

Module Rewards.
Import PowerModel.

Definition coins_reward (enemy_multiplier : Q) : Z :=
  let base := 10 in
  let scaled := py_round (inject_Z base * enemy_multiplier) in
  Z.max 5 scaled.

(** [sum(l)] over floats. *)
Definition Qsum (l : list Q) : Q := fold_left Qplus l 0%Q.

Definition Qlen (l : list Q) : Q := inject_Z (Z.of_nat (length l)).

(** The loop of [battle] that adds up the player's power. *)
Definition player_power (player_animals : PerSlot Animal)
    (player_foods : PerSlot (option Food)) (player_mutations : PerSlot Mutation) : Q :=
  fold_left
    (fun total '(slot, animal) =>
       let mutation_multiplier := mutation_multiplier_value (sget player_mutations slot) in
       (total + effective_power animal (sget player_foods slot) mutation_multiplier)%Q)
    (items player_animals) 0%Q.

Record Reward := mkReward { energy_gain : Z; base_coins : Z; coin_gain : Z }.

(** The reward computation of [battle]. *)
Definition battle_reward (player_animals : PerSlot Animal)
    (player_foods : PerSlot (option Food)) (player_mutations : PerSlot Mutation)
    (enemy_final_power : Q) (player_win : bool) : Reward :=
  let player_final_power := player_power player_animals player_foods player_mutations in
  let enemy_multiplier :=
    if Qltb 0 player_final_power then (enemy_final_power / player_final_power)%Q
    else 1%Q in
  let energy_gain := if player_win then 1 else 0 in
  let base_coins := coins_reward enemy_multiplier in
  let coin_gain :=
    if player_win then
      let '(rarity_weights, mutation_food_factors) :=
        fold_left
          (fun '(rarity_weights, mutation_food_factors) slot =>
             let animal := sget player_animals slot in
             let mutation_mult := mutation_multiplier_value (sget player_mutations slot) in
             let food_bonus_factor :=
               match sget player_foods slot with Some _ => (21 # 20)%Q | None => 1%Q end in
             let slot_factor :=
               (1 + ((mutation_mult - 1) * (7 # 20))
                + ((food_bonus_factor - 1) * (1 # 2)))%Q in
             ((rarity_weights ++ [RARITY_COIN_WEIGHT (rarity animal)])%list,
              (mutation_food_factors ++ [slot_factor])%list))
          SLOTS (@nil Q, @nil Q) in
      let team_rarity_multiplier :=
        match rarity_weights with
        | [] => 1%Q
        | _ => (Qsum rarity_weights / Qlen rarity_weights)%Q
        end in
      let team_mutation_food_factor :=
        match mutation_food_factors with
        | [] => 1%Q
        | _ => (Qsum mutation_food_factors / Qlen mutation_food_factors)%Q
        end in
      let team_mutation_food_factor := Qmin team_mutation_food_factor (8 # 5) in
      Z.max 5 (py_round (inject_Z base_coins * team_rarity_multiplier
                         * team_mutation_food_factor))
    else 0 in
  mkReward energy_gain base_coins coin_gain.




Definition catalog_team (animals : PerSlot Animal) (foods : PerSlot (option Food)) : Prop :=
  forall s, In (sget animals s) ANIMALS /\
            forall f, sget foods s = Some f -> In f FOODS.

Lemma catalog_power_pos a : In a ANIMALS -> (0 < power a)%Q.
Proof.
  assert (H : Forall (fun a => (0 < power a)%Q) ANIMALS)
    by (repeat constructor).
  rewrite Forall_forall in H. intros Ha. apply H.
  apply list_elem_of_In. exact Ha.
Qed.

Lemma catalog_food_power_nonneg f : In f FOODS -> (0 <= food_power (Some f))%Q.
Proof.
  assert (H : Forall (fun f => (0 <= food_power (Some f))%Q) FOODS)
    by (repeat constructor; discriminate).
  rewrite Forall_forall in H. intros Hf. apply H.
  apply list_elem_of_In. exact Hf.
Qed.

Lemma multiplier_pos m : (0 < mutation_multiplier_value m)%Q.
Proof. destruct m; reflexivity. Qed.

Lemma catalog_effective_power_pos a f m :
  In a ANIMALS -> (forall x, f = Some x -> In x FOODS) ->
  (0 < effective_power a f (mutation_multiplier_value m))%Q.
Proof.
  intros Ha Hf. unfold effective_power.
  apply Qmult_lt_0_compat; [|apply multiplier_pos].
  pose proof (catalog_power_pos a Ha).
  assert (0 <= food_power f)%Q.
  { destruct f as [x|]; [apply catalog_food_power_nonneg, Hf; reflexivity|].
    cbn. discriminate. }
  apply Qlt_le_trans with (power a + 0)%Q.
  - rewrite Qplus_0_r. assumption.
  - apply Qplus_le_r. assumption.
Qed.

Lemma catalog_player_power_pos animals foods mutations :
  catalog_team animals foods ->
  (0 < player_power animals foods mutations)%Q.
Proof.
  intros H. unfold player_power, items. cbn [map SLOTS fold_left].
  pose proof (catalog_effective_power_pos (sget animals slot1) (sget foods slot1)
                (sget mutations slot1) (proj1 (H slot1)) (proj2 (H slot1))).
  pose proof (catalog_effective_power_pos (sget animals slot2) (sget foods slot2)
                (sget mutations slot2) (proj1 (H slot2)) (proj2 (H slot2))).
  pose proof (catalog_effective_power_pos (sget animals slot3) (sget foods slot3)
                (sget mutations slot3) (proj1 (H slot3)) (proj2 (H slot3))).
  rewrite Qplus_0_l.
  apply Qlt_trans with (effective_power (sget animals slot1) (sget foods slot1)
                          (mutation_multiplier_value (sget mutations slot1))).
  - assumption.
  - apply Qlt_le_trans with
      (effective_power (sget animals slot1) (sget foods slot1)
         (mutation_multiplier_value (sget mutations slot1))
       + effective_power (sget animals slot2) (sget foods slot2)
           (mutation_multiplier_value (sget mutations slot2)) + 0)%Q.
    + rewrite Qplus_0_r. rewrite <- (Qplus_0_r (effective_power _ _ _)) at 1.
      apply Qplus_lt_r. assumption.
    + apply Qplus_le_r. apply Qlt_le_weak. assumption.
Qed.

Lemma player_power_team_power animals foods mutations :
  player_power animals foods mutations = calculate_team_power animals foods mutations.
Proof. reflexivity. Qed.


Definition barnyard : PerSlot Animal :=
  mkPerSlot (add_animal_def COMMON TANK "pig" "🐖" 10 3 3 ["pig"])
            (add_animal_def COMMON ATTACK "mouse" "🐁" 7 6 1 ["mouse"; "m"])
            (add_animal_def COMMON SUPPORT "bug" "🐛" 7 3 3 ["bug"]).

Lemma barnyard_catalog : catalog_team barnyard (mkPerSlot None None None).
Proof.
  intros s. split.
  - destruct s; cbn; tauto.
  - intros f. destruct s; discriminate.
Defined.


End Rewards.

(** ** Opponent synthesizer *)

Module Synth.
Import PowerModel.

Record Team := mkTeam {
  animals : PerSlot Animal;
  foods : PerSlot (option Food);
  mutations : PerSlot Mutation
}.

Definition team_power (t : Team) : Q :=
  calculate_team_power (animals t) (foods t) (mutations t).

Definition random_animal_by_rarity_and_role (allowed_indices : list Z) (r : Role)
  : Rand Animal :=
  let candidates :=
    List.filter
      (fun a => (bool_decide (role a = r)
                 && existsb (Z.eqb (rarity_index a)) allowed_indices)%bool)
      ANIMALS in
  choice candidates.

Definition random_enemy_food (animal : Animal) : Rand (option Food) :=
  do u <- random;
  if Qleb (7 # 20) u then ret None
  else
    let animal_idx := RARITY_INDEX (rarity animal) in
    let candidates :=
      List.filter
        (fun food => (Z.abs (RARITY_INDEX (food_rarity food) - animal_idx) <=? 1)%Z)
        FOODS in
    let candidates := match candidates with [] => FOODS | _ => candidates end in
    do food <- choice candidates;
    ret (Some food).

Definition random_enemy_mutation : Rand Mutation :=
  do roll <- random;
  if Qltb roll (11 # 20) then ret none
  else if Qltb roll (3 # 4) then ret golden
  else if Qltb roll (9 # 10) then ret diamond
  else if Qltb roll (97 # 100) then ret emerald
  else ret rainbow.

(** [sorted(l, key=key)] and [sorted(l, key=key, reverse=True)]; both are
    stable: equal keys keep their order in [l]. *)
Fixpoint insert_sorted {A} (before : Q -> Q -> bool) (key : A -> Q) (x : A)
    (l : list A) : list A :=
  match l with
  | [] => [x]
  | y :: r =>
      if before (key x) (key y) then x :: y :: r
      else y :: insert_sorted before key x r
  end.

Definition sorted {A} (key : A -> Q) (l : list A) : list A :=
  fold_left (fun acc x => insert_sorted Qltb key x acc) l [].

Definition sorted_reverse {A} (key : A -> Q) (l : list A) : list A :=
  fold_left (fun acc x => insert_sorted (fun a b => Qltb b a) key x acc) l [].

Definition MUTATION_STRENGTH_ORDER : list Mutation :=
  Eval cbv in sorted mutation_multiplier_value MUTATIONS.

Lemma MUTATION_STRENGTH_ORDER_sorted :
  MUTATION_STRENGTH_ORDER = sorted mutation_multiplier_value MUTATIONS.
Proof. reflexivity. Qed.

(** [MUTATION_STRENGTH_ORDER.index(m)] *)
Fixpoint index_in (m : Mutation) (l : list Mutation) : nat :=
  match l with
  | [] => O
  | x :: r => if decide (x = m) then O else S (index_in m r)
  end.

Definition order_at (i : nat) : Mutation := nth i MUTATION_STRENGTH_ORDER none.

Definition sorted_slots_of (reverse : bool) (mutations : PerSlot Mutation)
  : list (Slot * Q) :=
  let pairs := map (fun '(slot, mutation) => (slot, mutation_multiplier_value mutation))
                   (items mutations) in
  if reverse then sorted_reverse snd pairs else sorted snd pairs.

Fixpoint downgrade_scan (sorted_slots : list (Slot * Q)) (mutations : PerSlot Mutation)
  : bool * PerSlot Mutation :=
  match sorted_slots with
  | [] => (false, mutations)
  | (slot, current_multiplier) :: rest =>
      let order_idx := index_in (sget mutations slot) MUTATION_STRENGTH_ORDER in
      if ((0 <? order_idx)%nat && Qltb 1 current_multiplier)%bool then
        (true, sset mutations slot (order_at (order_idx - 1)))
      else downgrade_scan rest mutations
  end.

Definition _downgrade_mutation (mutations : PerSlot Mutation) : bool * PerSlot Mutation :=
  downgrade_scan (sorted_slots_of true mutations) mutations.

Fixpoint upgrade_scan (sorted_slots : list (Slot * Q)) (mutations : PerSlot Mutation)
  : bool * PerSlot Mutation :=
  match sorted_slots with
  | [] => (false, mutations)
  | (slot, _mult) :: rest =>
      let order_idx := index_in (sget mutations slot) MUTATION_STRENGTH_ORDER in
      if (order_idx <? length MUTATION_STRENGTH_ORDER - 1)%nat then
        (true, sset mutations slot (order_at (order_idx + 1)))
      else upgrade_scan rest mutations
  end.

Definition _upgrade_mutation (mutations : PerSlot Mutation) : bool * PerSlot Mutation :=
  upgrade_scan (sorted_slots_of false mutations) mutations.

Definition _remove_highest_food (foods : PerSlot (option Food))
  : bool * PerSlot (option Food) :=
  let '(slot_to_remove, _) :=
    fold_left
      (fun '(slot_to_remove, highest) '(slot, food) =>
         let fp := food_power food in
         match food with
         | Some _ => if Qltb highest fp then (Some slot, fp) else (slot_to_remove, highest)
         | None => (slot_to_remove, highest)
         end)
      (items foods) (None, (-1)%Q) in
  match slot_to_remove with
  | Some slot => (true, sset foods slot None)
  | None => (false, foods)
  end.

Definition _add_missing_food (animals : PerSlot Animal) (foods : PerSlot (option Food))
  : Rand (bool * PerSlot (option Food)) :=
  let empty_slots :=
    map fst (List.filter (fun '(_, food) => match food with None => true | _ => false end)
                         (items foods)) in
  match empty_slots with
  | [] => ret (false, foods)
  | _ =>
      do slot <- choice empty_slots;
      do food <- random_enemy_food (sget animals slot);
      let foods := sset foods slot food in
      ret (match sget foods slot with Some _ => true | None => false end, foods)
  end.

Definition in_window (target_min target_max current_power : Q) : bool :=
  (Qleb target_min current_power && Qleb current_power target_max)%bool.

Inductive Step :=
| Done (current_power : Q)
| Next (t : Team).

(** The re-roll of one slot that ends an iteration of the first loop;
    [above] is [current_power > target_max]. *)
Definition reroll (allowed_indices : list Z) (above : bool) (t : Team) : Rand Step :=
  do slot <- choice (map fst (items (animals t)));
  do animal <- random_animal_by_rarity_and_role allowed_indices
                 (role (sget (animals t) slot));
  do food <- (if above then ret None else random_enemy_food animal);
  do mutation <- (if above then ret none else random_enemy_mutation);
  ret (Next (mkTeam (sset (animals t) slot animal) (sset (foods t) slot food)
                    (sset (mutations t) slot mutation))).

(** One iteration of the first loop of [adjust_enemy_team]. *)
Definition repair_iteration (allowed_indices : list Z) (target_min target_max : Q)
    (t : Team) : Rand Step :=
  let current_power := team_power t in
  if in_window target_min target_max current_power then ret (Done current_power)
  else if Qltb target_max current_power then
    let '(removed, foods') := _remove_highest_food (foods t) in
    if removed then ret (Next (mkTeam (animals t) foods' (mutations t)))
    else
      let '(downgraded, mutations') := _downgrade_mutation (mutations t) in
      if downgraded then ret (Next (mkTeam (animals t) foods' mutations'))
      else reroll allowed_indices true (mkTeam (animals t) foods' mutations')
  else
    do added <- _add_missing_food (animals t) (foods t);
    let '(ok, foods') := added in
    if ok then ret (Next (mkTeam (animals t) foods' (mutations t)))
    else
      let '(upgraded, mutations') := _upgrade_mutation (mutations t) in
      if upgraded then ret (Next (mkTeam (animals t) foods' mutations'))
      else reroll allowed_indices false (mkTeam (animals t) foods' mutations').

(** [max(FOODS.values(), key=food_power)]: the first food of greatest
    power; [min] and [max] of a list of ints.  [None] is the [ValueError]
    on an empty sequence. *)
Definition max_by_power (l : list Food) : option Food :=
  fold_left
    (fun best f =>
       match best with
       | None => Some f
       | Some b => if Qltb (food_power (Some b)) (food_power (Some f)) then Some f else best
       end)
    l None.

Definition list_min (l : list Z) : option Z :=
  match l with [] => None | x :: r => Some (fold_left Z.min r x) end.

Definition list_max (l : list Z) : option Z :=
  match l with [] => None | x :: r => Some (fold_left Z.max r x) end.

(** One iteration of the final loop of [adjust_enemy_team]. *)
Definition enforce_iteration (strongest_food : Food) (weakest_index strongest_index : Z)
    (target_min target_max : Q) (t : Team) : Rand Step :=
  let current_power := team_power t in
  if in_window target_min target_max current_power then ret (Done current_power)
  else if Qltb target_max current_power then
    let '(removed, foods') := _remove_highest_food (foods t) in
    if removed then ret (Next (mkTeam (animals t) foods' (mutations t)))
    else
      let '(downgraded, mutations') := _downgrade_mutation (mutations t) in
      if downgraded then ret (Next (mkTeam (animals t) foods' mutations'))
      else
        do slot <- choice (map fst (items (animals t)));
        do animal <- random_animal_by_rarity_and_role [weakest_index]
                       (role (sget (animals t) slot));
        ret (Next (mkTeam (sset (animals t) slot animal) (sset foods' slot None)
                          (sset mutations' slot none)))
  else
    do added <- _add_missing_food (animals t) (foods t);
    let '(ok, foods') := added in
    if ok then ret (Next (mkTeam (animals t) foods' (mutations t)))
    else
      let '(upgraded, mutations') := _upgrade_mutation (mutations t) in
      if upgraded then ret (Next (mkTeam (animals t) foods' mutations'))
      else
        do slot <- choice (map fst (items (animals t)));
        do animal <- random_animal_by_rarity_and_role [strongest_index]
                       (role (sget (animals t) slot));
        ret (Next (mkTeam (sset (animals t) slot animal)
                          (sset foods' slot (Some strongest_food))
                          (sset mutations' slot
                                (order_at (length MUTATION_STRENGTH_ORDER - 1))))).

(** [for _ in range(n)] around a loop body: the power found in range by a
    check (if any) and the team at that moment. *)
Fixpoint iterate (n : nat) (body : Team -> Rand Step) (t : Team)
  : Rand (option Q * Team) :=
  match n with
  | O => ret (None, t)
  | S n' =>
      do s <- body t;
      match s with
      | Done current_power => ret (Some current_power, t)
      | Next t' => iterate n' body t'
      end
  end.

(** [adjust_enemy_team]: the returned power and the three dicts as the
    call leaves them. *)
Definition adjust_enemy_team (t : Team) (allowed_indices : list Z)
    (target_min target_max : Q) : Rand (Q * Team) :=
  do r <- iterate 350 (repair_iteration allowed_indices target_min target_max) t;
  match r with
  | (Some current_power, t) => ret (current_power, t)
  | (None, t) =>
      do strongest_food <- lift (max_by_power FOODS);
      do weakest_index <- lift (list_min allowed_indices);
      do strongest_index <- lift (list_max allowed_indices);
      do r <- iterate 200
                (enforce_iteration strongest_food weakest_index strongest_index
                   target_min target_max) t;
      ret (team_power (snd r), snd r)
  end.

(** [enemy_signature] with the mutations given. *)
Definition enemy_signature (t : Team) : string :=
  String.concat "|"
    (map (fun slot =>
            animal_id (sget (animals t) slot) +:+ ":"
            +:+ mutation_name (sget (mutations t) slot))
         SLOTS).

Record Candidate := mkCandidate {
  cand_team : Team;
  cand_power : Q;
  cand_signature : string
}.

Record Search := mkSearch {
  best_candidate : option Candidate;
  best_delta : option Q;              (* [None] is [float("inf")] *)
  best_in_range : option Candidate;
  best_in_range_not_same : option Candidate
}.

Definition draw_candidate (allowed_indices : list Z) : Rand Candidate :=
  do a1 <- random_animal_by_rarity_and_role allowed_indices TANK;
  do a2 <- random_animal_by_rarity_and_role allowed_indices ATTACK;
  do a3 <- random_animal_by_rarity_and_role allowed_indices SUPPORT;
  do f1 <- random_enemy_food a1;
  do f2 <- random_enemy_food a2;
  do f3 <- random_enemy_food a3;
  do m1 <- random_enemy_mutation;
  do m2 <- random_enemy_mutation;
  do m3 <- random_enemy_mutation;
  let t := mkTeam (mkPerSlot a1 a2 a3) (mkPerSlot f1 f2 f3) (mkPerSlot m1 m2 m3) in
  ret (mkCandidate t (team_power t) (enemy_signature t)).

(** The sampling loop of [battle] ([for _attempt in range(300)]). *)
Fixpoint sample_loop (n : nat) (allowed_indices : list Z) (target_min target_max : Q)
    (last_signature : option string) (st : Search) : Rand Search :=
  match n with
  | O => ret st
  | S n' =>
      do candidate <- draw_candidate allowed_indices;
      let enemy_power := cand_power candidate in
      let delta :=
        if Qltb enemy_power target_min then (target_min - enemy_power)%Q
        else if Qltb target_max enemy_power then (enemy_power - target_max)%Q
        else 0%Q in
      if (in_window target_min target_max enemy_power
          && negb (bool_decide (Some (cand_signature candidate) = last_signature)))%bool
      then
        ret (mkSearch (best_candidate st) (best_delta st) (best_in_range st)
                      (Some candidate))
      else
        let st :=
          if in_window target_min target_max enemy_power then
            match best_in_range st with
            | None => mkSearch (best_candidate st) (best_delta st) (Some candidate)
                               (best_in_range_not_same st)
            | Some _ => st
            end
          else st in
        let st :=
          if match best_delta st with
             | None => true
             | Some d => Qltb delta d
             end
          then mkSearch (Some candidate) (Some delta) (best_in_range st)
                        (best_in_range_not_same st)
          else st in
        sample_loop n' allowed_indices target_min target_max last_signature st
  end.

Inductive SetupOutcome :=
| SetupFailed
| Opponent (t : Team) (enemy_final_power : Q) (last_enemy_signature : string).

Definition first_some {A} (a b : option A) : option A :=
  match a with Some _ => a | None => b end.

(** Candidate selection and re-adjustment in [battle]. *)
Definition synthesize (allowed_indices : list Z) (target_min target_max : Q)
    (last_signature : option string) : Rand SetupOutcome :=
  do st <- sample_loop 300 allowed_indices target_min target_max last_signature
             (mkSearch None None None None);
  let final_choice :=
    first_some (best_in_range_not_same st)
               (first_some (best_in_range st) (best_candidate st)) in
  match final_choice with
  | None => ret SetupFailed
  | Some chosen =>
      do adjusted <- adjust_enemy_team (cand_team chosen) allowed_indices
                       target_min target_max;
      let '(_, t) := adjusted in
      let signature := enemy_signature t in
      let enemy_final_power := team_power t in
      do t <- (if (Qltb enemy_final_power target_min
                   || Qltb target_max enemy_final_power)%bool
               then do again <- adjust_enemy_team t allowed_indices target_min target_max;
                    ret (snd again)
               else ret t);
      ret (Opponent t (team_power t) signature)
  end.

(** [allowed_indices] of [battle]. *)
Definition allowed_indices_of (player_animals : PerSlot Animal) : list Z :=
  let avg_index :=
    py_round (inject_Z (fold_left Z.add (map rarity_index (values player_animals)) 0) / 3) in
  List.filter (fun idx => (0 <=? idx)%Z && (idx <=? 6)%Z)%bool
              [avg_index - 1; avg_index; avg_index + 1].

(** The opponent of a player team: window, sampling and repair. *)
Definition battle_opponent (player_animals : PerSlot Animal)
    (player_foods : PerSlot (option Food)) (player_mutations : PerSlot Mutation)
    (last_signature : option string) : Rand SetupOutcome :=
  let allowed_indices := allowed_indices_of player_animals in
  let player_final_power :=
    Rewards.player_power player_animals player_foods player_mutations in
  let '(target_min, target_max) :=
    Window.difficulty_window player_final_power player_foods player_mutations in
  synthesize allowed_indices target_min target_max last_signature.

(** *** What one repair step does *)

Definition lower_tier (m : Mutation) : Mutation :=
  match m with
  | none => none | golden => none | diamond => golden
  | emerald => diamond | rainbow => emerald
  end.

Definition higher_tier (m : Mutation) : Mutation :=
  match m with
  | none => golden | golden => diamond | diamond => emerald
  | emerald => rainbow | rainbow => rainbow
  end.

Definition catalog_foods (fs : PerSlot (option Food)) : Prop :=
  forall slot f, sget fs slot = Some f -> In f FOODS.





Definition rerolls (allowed_indices : list Z) (above : bool) (t t' : Team) : Prop :=
  exists slot animal food mutation,
    In animal ANIMALS /\
    role animal = role (sget (animals t) slot) /\
    In (rarity_index animal) allowed_indices /\
    (forall f, food = Some f -> In f FOODS) /\
    (above = true -> food = None /\ mutation = none) /\
    t' = mkTeam (sset (animals t) slot animal) (sset (foods t) slot food)
           (sset (mutations t) slot mutation).

Lemma catalog_food_above_floor f : In f FOODS -> (-1 < food_power (Some f))%Q.
Proof.
  intros H. apply Rewards.catalog_food_power_nonneg in H. lra.
Qed.

Lemma remove_highest_food_spec fs :
  catalog_foods fs ->
  match _remove_highest_food fs with
  | (true, fs') =>
      exists slot f,
        sget fs slot = Some f /\
        (forall s' g, sget fs s' = Some g ->
                      (food_power (Some g) <= food_power (Some f))%Q) /\
        fs' = sset fs slot None
  | (false, fs') => fs' = fs /\ forall slot, sget fs slot = None
  end.
Proof.
  intros Hc.
  assert (Hfloor : forall slot f, sget fs slot = Some f -> (-1 < food_power (Some f))%Q).
  { intros slot f H. apply catalog_food_above_floor, (Hc slot f H). }
  destruct fs as [f1 f2 f3]. unfold _remove_highest_food, items.
  cbn [map SLOTS fold_left sget at1 at2 at3].
  pose proof (Hfloor slot1) as H1. pose proof (Hfloor slot2) as H2.
  pose proof (Hfloor slot3) as H3. cbn [sget at1 at2 at3] in H1, H2, H3.
  destruct f1 as [f1|], f2 as [f2|], f3 as [f3|];
    repeat match goal with
           | H : forall f, Some ?x = Some f -> _ |- _ =>
               specialize (H x eq_refl)
           | H : forall f, None = Some f -> _ |- _ => clear H
           end;
    repeat match goal with
           | |- context [Qltb ?a ?b] =>
               let E := fresh "E" in
               destruct (Qltb a b) eqn:E;
               [apply Qltb_lt in E
               |assert (b <= a)%Q
                 by (apply Qnot_lt_le; intros X; apply Qltb_lt in X; congruence);
                clear E]
           end;
    try lra;
    cbv iota beta;
    try (split; [reflexivity|intros []; reflexivity]);
    first [ exists slot3; eexists; split; [reflexivity|];
            split; [|reflexivity];
            intros [] g Hg; cbn [sget at1 at2 at3] in Hg; inversion Hg; subst; lra
          | exists slot2; eexists; split; [reflexivity|];
            split; [|reflexivity];
            intros [] g Hg; cbn [sget at1 at2 at3] in Hg; inversion Hg; subst; lra
          | exists slot1; eexists; split; [reflexivity|];
            split; [|reflexivity];
            intros [] g Hg; cbn [sget at1 at2 at3] in Hg; inversion Hg; subst; lra ].
Qed.

Ltac pick_slot tac :=
  first [ exists slot1; tac | exists slot2; tac | exists slot3; tac ].

Ltac multiplier_bound :=
  let s := fresh "s" in
  intros s; destruct s; cbv; discriminate.

Lemma downgrade_mutation_spec ms :
  match _downgrade_mutation ms with
  | (true, ms') =>
      exists slot,
        sget ms slot <> none /\
        (forall s', (mutation_multiplier_value (sget ms s')
                     <= mutation_multiplier_value (sget ms slot))%Q) /\
        ms' = sset ms slot (lower_tier (sget ms slot))
  | (false, ms') => ms' = ms /\ forall slot, sget ms slot = none
  end.
Proof.
  destruct ms as [[] [] []]; vm_compute;
    first [ split; [reflexivity|intros []; reflexivity]
          | pick_slot ltac:(split; [discriminate|];
                            split; [multiplier_bound|reflexivity]) ].
Qed.

Lemma upgrade_mutation_spec ms :
  match _upgrade_mutation ms with
  | (true, ms') =>
      exists slot,
        sget ms slot <> rainbow /\
        (forall s', (mutation_multiplier_value (sget ms slot)
                     <= mutation_multiplier_value (sget ms s'))%Q) /\
        ms' = sset ms slot (higher_tier (sget ms slot))
  | (false, ms') => ms' = ms /\ forall slot, sget ms slot = rainbow
  end.
Proof.
  destruct ms as [[] [] []]; vm_compute;
    first [ split; [reflexivity|intros []; reflexivity]
          | pick_slot ltac:(split; [discriminate|];
                            split; [multiplier_bound|reflexivity]) ].
Qed.

Lemma sset_sget_id {A} (d : PerSlot A) s : sset d s (sget d s) = d.
Proof. destruct d, s; reflexivity. Qed.

Lemma bind_Ok {A B} (m : Rand A) (k : A -> Rand B) src n b n' :
  bind m k src n = Ok (b, n') ->
  exists a n1, m src n = Ok (a, n1) /\ k a src n1 = Ok (b, n').
Proof.
  unfold bind. destruct (m src n) as [[a n1]|e]; [|discriminate].
  intros H. exists a, n1. split; [reflexivity|exact H].
Qed.

Lemma ret_Ok {A} (a b : A) src n n' : ret a src n = Ok (b, n') -> b = a /\ n' = n.
Proof. unfold ret. intros H. inversion H. split; reflexivity. Qed.

Lemma random_animal_spec allowed_indices r src n a n' :
  random_animal_by_rarity_and_role allowed_indices r src n = Ok (a, n') ->
  In a ANIMALS /\ role a = r /\ In (rarity_index a) allowed_indices.
Proof.
  unfold random_animal_by_rarity_and_role. intros H.
  apply choice_In in H as [H _]. apply filter_In in H as [Ha Hb].
  apply andb_prop in Hb as [Hr Hi].
  split; [exact Ha|]. split.
  - apply bool_decide_eq_true in Hr. exact Hr.
  - apply existsb_exists in Hi as (x & Hx & E). apply Z.eqb_eq in E. now subst.
Qed.

Lemma random_enemy_food_spec animal src n food n' :
  random_enemy_food animal src n = Ok (food, n') ->
  forall f, food = Some f -> In f FOODS.
Proof.
  unfold random_enemy_food. intros H f ->.
  apply bind_Ok in H as (u & n1 & _ & H).
  destruct (Qleb (7 # 20) u); [apply ret_Ok in H as [H _]; discriminate|].
  apply bind_Ok in H as (x & n2 & Hx & H).
  apply ret_Ok in H as [H _]. injection H as ->.
  apply choice_In in Hx as [Hx _].
  destruct (List.filter _ FOODS) eqn:E; [exact Hx|].
  rewrite <- E in Hx. apply filter_In in Hx. tauto.
Qed.

Lemma add_missing_food_spec as_ fs src n ok fs' n' :
  _add_missing_food as_ fs src n = Ok ((ok, fs'), n') ->
  (ok = true ->
   exists slot f, sget fs slot = None /\ In f FOODS /\ fs' = sset fs slot (Some f)) /\
  (ok = false -> fs' = fs).
Proof.
  unfold _add_missing_food.
  destruct (map fst (List.filter _ (items fs))) as [|s0 rest] eqn:E.
  - intros H. apply ret_Ok in H as [H _]. injection H as -> ->.
    split; [discriminate|reflexivity].
  - rewrite <- E. clear E. intros H.
    apply bind_Ok in H as (slot & n1 & Hs & H).
    apply bind_Ok in H as (food & n2 & Hf & H).
    apply ret_Ok in H as [H _]. injection H as Hok ->.
    apply choice_In in Hs as [Hs _].
    apply in_map_iff in Hs as ([s' v] & Es & Hin). cbn in Es. subst s'.
    apply filter_In in Hin as [Hin Hv].
    assert (Hnone : sget fs slot = None).
    { unfold items in Hin. apply in_map_iff in Hin as (s2 & E2 & _).
      injection E2 as -> <-. destruct (sget fs slot); [discriminate|reflexivity]. }
    rewrite sget_sset_same in Hok.
    destruct food as [f|]; subst ok; (split; [|try discriminate]).
    + intros _. exists slot, f. split; [exact Hnone|].
      split; [|reflexivity]. eapply random_enemy_food_spec; eauto.
    + discriminate.
    + intros _. rewrite <- Hnone. apply sset_sget_id.
Qed.

Lemma reroll_spec allowed_indices above t src n s n' :
  reroll allowed_indices above t src n = Ok (s, n') ->
  exists t', s = Next t' /\ rerolls allowed_indices above t t'.
Proof.
  unfold reroll. intros H.
  apply bind_Ok in H as (slot & n1 & _ & H).
  apply bind_Ok in H as (animal & n2 & Ha & H).
  apply bind_Ok in H as (food & n3 & Hf & H).
  apply bind_Ok in H as (mutation & n4 & Hm & H).
  apply ret_Ok in H as [-> _].
  eexists. split; [reflexivity|].
  exists slot, animal, food, mutation.
  apply random_animal_spec in Ha as (A1 & A2 & A3).
  split; [exact A1|]. split; [exact A2|]. split; [exact A3|].
  split; [|split; [|reflexivity]].
  - destruct above.
    + apply ret_Ok in Hf as [-> _]. discriminate.
    + eapply random_enemy_food_spec; eauto.
  - intros ->. apply ret_Ok in Hf as [-> _]. apply ret_Ok in Hm as [-> _].
    split; reflexivity.
Qed.


(** The two loops of [adjust_enemy_team]. *)
Inductive Pass :=
| FirstPass (allowed_indices : list Z)
| FinalPass (strongest_food : Food) (weakest_index strongest_index : Z).

Definition pass_iteration (pass : Pass) (target_min target_max : Q) (t : Team)
  : Rand Step :=
  match pass with
  | FirstPass allowed_indices =>
      repair_iteration allowed_indices target_min target_max t
  | FinalPass strongest_food weakest_index strongest_index =>
      enforce_iteration strongest_food weakest_index strongest_index
        target_min target_max t
  end.

(** The re-roll of the final loop: the unit is of the weakest (above the
    maximum) or strongest (below the minimum) allowed rarity; above, item
    and mutation are cleared; below, the strongest food and the top tier
    are forced. *)
Definition pinned_rerolls (strongest_food : Food) (weakest_index strongest_index : Z)
    (above : bool) (t t' : Team) : Prop :=
  exists slot animal,
    In animal ANIMALS /\
    role animal = role (sget (animals t) slot) /\
    rarity_index animal = (if above then weakest_index else strongest_index) /\
    t' = mkTeam (sset (animals t) slot animal)
           (sset (foods t) slot (if above then None else Some strongest_food))
           (sset (mutations t) slot (if above then none else rainbow)).


Lemma pinned_reroll_spec strongest_food weakest_index strongest_index
    (above : bool) t src n s n' :
  (do slot <- choice (map fst (items (animals t)));
   do animal <- random_animal_by_rarity_and_role
                  [if above then weakest_index else strongest_index]
                  (role (sget (animals t) slot));
   ret (Next (mkTeam (sset (animals t) slot animal)
                     (sset (foods t) slot (if above then None else Some strongest_food))
                     (sset (mutations t) slot
                           (if above then none
                            else order_at (length MUTATION_STRENGTH_ORDER - 1))))))
    src n = Ok (s, n') ->
  exists t', s = Next t' /\
             pinned_rerolls strongest_food weakest_index strongest_index above t t'.
Proof.
  intros H.
  apply bind_Ok in H as (slot & n1 & _ & H).
  apply bind_Ok in H as (animal & n2 & Ha & H).
  apply ret_Ok in H as [-> _].
  apply random_animal_spec in Ha as (A1 & A2 & [A3|[]]).
  eexists. split; [reflexivity|]. exists slot, animal.
  split; [exact A1|]. split; [exact A2|]. split; [now symmetry|].
  destruct above; reflexivity.
Qed.



(** *** Two teams on which the first loop re-rolls

    [fed_rainbow_team] can be drawn against a requester of power 1068 with
    three mutated slots, three items and a rainbow (allowed rarities 0 and
    1, window 667.5 to 1468.5); [bare_team] against a requester of power
    56.5 without items or mutations (allowed rarities 1 to 3, window 45.2
    to 84.75). *)

Definition turtle : Animal := add_animal_def UNCOMMON TANK "turtle" "🐢" 14 2 5 ["turtle"].
Definition snake : Animal := add_animal_def UNCOMMON ATTACK "snake" "🐍" 8 8 2 ["snake"].
Definition tropicalfish : Animal :=
  add_animal_def UNCOMMON SUPPORT "tropicalfish" "🐠" 8 4 4 ["tropicalfish"; "tfish"].
Definition hippo : Animal := add_animal_def EPIC TANK "hippo" "🦛" 19 4 8 ["hippo"].
Definition wolf : Animal := add_animal_def RARE ATTACK "wolf" "🐺" 9 9 3 ["wolf"].
Definition swan_epic : Animal := add_animal_def EPIC SUPPORT "swan_epic" "🦢" 11 4 7 ["swan"].
Definition sushi : Food := mkFood "sushi" "🍣" RARE 80 3 4 2 ["sushi"].
Definition dragons_feast : Food :=
  mkFood "dragons_feast" "🍖" HIDDEN 1500 16 16 12 ["dragonfeast"; "dfeast"].

Definition fed_rainbow_team : Team :=
  mkTeam (mkPerSlot turtle snake tropicalfish)
         (mkPerSlot (Some sushi) (Some sushi) (Some sushi))
         (mkPerSlot rainbow rainbow rainbow).

Definition bare_team : Team :=
  mkTeam (mkPerSlot hippo wolf swan_epic)
         (mkPerSlot None None None)
         (mkPerSlot none none none).

Lemma fed_rainbow_team_catalog : catalog_foods (foods fed_rainbow_team).
Proof.
  intros slot f H. destruct slot; injection H as <-;
    cbn; repeat (first [left; reflexivity|right]).
Defined.




(** The two re-rolls in figures.  Below the minimum, with every draw at
    0.1: slot1 becomes a plain pig (rarity 0, the highest allowed being 1)
    holding an apple.  Above the maximum, with every draw at 0.9: slot3
    becomes a flamingo (rarity 3, the lowest allowed being 1). *)
Example first_pass_reroll_below :
  exists t', repair_iteration [0; 1] (1335 # 2) (2937 # 2) fed_rainbow_team
               (fun _ => 1 # 10) 0%nat
             = Ok (Next t', 5%nat) /\
             (team_power fed_rainbow_team == 492)%Q /\
             animal_id (sget (animals t') slot1) = "pig" /\
             rarity_index (sget (animals t') slot1) = 0 /\
             option_map food_id (sget (foods t') slot1) = Some "apple" /\
             sget (mutations t') slot1 = none /\
             list_max [0; 1] = Some 1 /\
             option_map food_id (max_by_power FOODS) = Some "dragons_feast".
Proof.
  eexists. split; [vm_compute; reflexivity|]. repeat split; reflexivity.
Qed.

Example first_pass_reroll_above :
  exists t', repair_iteration [1; 2; 3] (226 # 5) (339 # 4) bare_team
               (fun _ => 9 # 10) 0%nat
             = Ok (Next t', 2%nat) /\
             (team_power bare_team == 861 # 10)%Q /\
             animal_id (sget (animals t') slot3) = "flamingo" /\
             rarity_index (sget (animals t') slot3) = 3 /\
             sget (foods t') slot3 = None /\
             sget (mutations t') slot3 = none /\
             list_min [1; 2; 3] = Some 1.
Proof.
  eexists. split; [vm_compute; reflexivity|]. repeat split; reflexivity.
Qed.

(** *** What the synthesizer returns *)







Definition final_choice (st : Search) : option Candidate :=
  first_some (best_in_range_not_same st)
             (first_some (best_in_range st) (best_candidate st)).

Definition delta_has_candidate (st : Search) : Prop :=
  best_delta st <> None -> best_candidate st <> None.

Definition has_candidate (st : Search) : Prop :=
  best_in_range_not_same st <> None \/ best_candidate st <> None.

Lemma sample_loop_has_candidate allowed_indices target_min target_max last_signature k :
  forall st src n st' n',
    delta_has_candidate st ->
    has_candidate st \/ k <> O ->
    sample_loop k allowed_indices target_min target_max last_signature st src n
    = Ok (st', n') ->
    has_candidate st'.
Proof.
  induction k as [|k IH]; intros st src n st' n' Hd Hk H; cbn [sample_loop] in H.
  - apply ret_Ok in H as [-> _]. destruct Hk as [Hk|Hk]; [exact Hk|congruence].
  - apply bind_Ok in H as (c & n1 & _ & H).
    destruct (in_window target_min target_max (cand_power c)
              && negb (bool_decide (Some (cand_signature c) = last_signature)))%bool.
    + apply ret_Ok in H as [-> _]. left. cbn. discriminate.
    + revert H.
      set (st1 := if in_window target_min target_max (cand_power c) then _ else st).
      assert (Hd1 : delta_has_candidate st1).
      { unfold st1. destruct (in_window _ _ _); [|exact Hd].
        destruct (best_in_range st); exact Hd. }
      assert (Hb1 : best_delta st1 = None \/ best_candidate st1 <> None).
      { destruct (best_delta st1) eqn:E; [right; apply Hd1; congruence|left; reflexivity]. }
      clearbody st1. intros H. eapply IH; [| |exact H].
      * destruct (best_delta st1) as [d|]; [destruct (Qltb _ d)|];
          try exact Hd1; intros _; cbn; discriminate.
      * left. right.
        destruct (best_delta st1) as [d|] eqn:E; [destruct (Qltb _ d)|];
          cbn; try discriminate.
        destruct Hb1 as [Hb1|Hb1]; [discriminate|exact Hb1].
Qed.

Lemma final_choice_Some st : has_candidate st -> final_choice st <> None.
Proof.
  unfold has_candidate, final_choice, first_some.
  destruct (best_in_range_not_same st), (best_in_range st), (best_candidate st);
    intros [H|H]; congruence.
Qed.

Lemma outside_window target_min target_max p :
  (Qltb p target_min || Qltb target_max p)%bool = negb (in_window target_min target_max p).
Proof.
  unfold in_window, Qltb, Qleb.
  destruct (Qle_bool target_min p), (Qle_bool p target_max); reflexivity.
Qed.

Lemma synthesize_unfold allowed_indices target_min target_max last_signature :
  synthesize allowed_indices target_min target_max last_signature
  = (do st <- sample_loop 300 allowed_indices target_min target_max last_signature
                (mkSearch None None None None);
     match final_choice st with
     | None => ret SetupFailed
     | Some chosen =>
         do adjusted <- adjust_enemy_team (cand_team chosen) allowed_indices
                          target_min target_max;
         let '(_, t) := adjusted in
         let signature := enemy_signature t in
         let enemy_final_power := team_power t in
         do t <- (if (Qltb enemy_final_power target_min
                      || Qltb target_max enemy_final_power)%bool
                  then do again <- adjust_enemy_team t allowed_indices
                                     target_min target_max;
                       ret (snd again)
                  else ret t);
         ret (Opponent t (team_power t) signature)
     end).
Proof. reflexivity. Qed.

Lemma readjust_Ok allowed_indices target_min target_max t1 src n2 t2 n3 :
  (if negb (in_window target_min target_max (team_power t1))
   then do again <- adjust_enemy_team t1 allowed_indices target_min target_max;
        ret (snd again)
   else ret t1) src n2 = Ok (t2, n3) ->
  (in_window target_min target_max (team_power t1) = true -> t2 = t1 /\ n3 = n2) /\
  (in_window target_min target_max (team_power t1) = false ->
   exists p2,
     adjust_enemy_team t1 allowed_indices target_min target_max src n2
     = Ok ((p2, t2), n3)).
Proof.
  destruct (in_window target_min target_max (team_power t1)); cbn [negb]; intros H.
  - apply ret_Ok in H. split; [intros _; exact H|discriminate].
  - apply bind_Ok in H as ([p2 t2'] & n4 & Hagain & H).
    apply ret_Ok in H as [-> ->]. split; [discriminate|].
    intros _. exists p2. exact Hagain.
Qed.

Lemma synthesize_steps allowed_indices target_min target_max last_signature
    src n out n' :
  synthesize allowed_indices target_min target_max last_signature src n = Ok (out, n') ->
  exists st n1 chosen p1 t1 n2,
    sample_loop 300 allowed_indices target_min target_max last_signature
      (mkSearch None None None None) src n = Ok (st, n1) /\
    final_choice st = Some chosen /\
    adjust_enemy_team (cand_team chosen) allowed_indices target_min target_max src n1
    = Ok ((p1, t1), n2) /\
    (in_window target_min target_max (team_power t1) = true ->
     out = Opponent t1 (team_power t1) (enemy_signature t1) /\ n' = n2) /\
    (in_window target_min target_max (team_power t1) = false ->
     exists p2 t2,
       adjust_enemy_team t1 allowed_indices target_min target_max src n2
       = Ok ((p2, t2), n') /\
       out = Opponent t2 (team_power t2) (enemy_signature t1)).
Proof.
  intros H. rewrite synthesize_unfold in H.
  apply bind_Ok in H as (st & n1 & Hs & H).
  assert (Hcand : has_candidate st).
  { eapply (sample_loop_has_candidate allowed_indices target_min target_max
              last_signature 300 (mkSearch None None None None) src n st n1).
    - intros X. exfalso. apply X. reflexivity.
    - right. discriminate.
    - exact Hs. }
  apply final_choice_Some in Hcand.
  destruct (final_choice st) as [chosen|] eqn:Ef; [|congruence].
  apply bind_Ok in H as ([p1 t1] & n2 & Hadj & H).
  apply bind_Ok in H as (t2 & n3 & Ht & H).
  apply ret_Ok in H as [-> ->].
  rewrite outside_window in Ht.
  apply readjust_Ok in Ht as [Hin Hout].
  exists st, n1, chosen, p1, t1, n2.
  split; [exact Hs|]. split; [exact Ef|]. split; [exact Hadj|]. split.
  - intros Ew. destruct (Hin Ew) as [-> ->]. split; reflexivity.
  - intros Ew. destruct (Hout Ew) as [p2 Hagain]. exists p2, t2.
    split; [exact Hagain|reflexivity].
Qed.



(** *** A synthesis that ends below the window *)

Definition pig : Animal := add_animal_def COMMON TANK "pig" "🐖" 10 3 3 ["pig"].
Definition mouse : Animal := add_animal_def COMMON ATTACK "mouse" "🐁" 7 6 1 ["mouse"; "m"].
Definition bug : Animal := add_animal_def COMMON SUPPORT "bug" "🐛" 7 3 3 ["bug"].

Definition feasting_animals : PerSlot Animal := mkPerSlot pig mouse bug.
Definition feasting_foods : PerSlot (option Food) :=
  mkPerSlot (Some dragons_feast) (Some dragons_feast) (Some dragons_feast).
Definition feasting_mutations : PerSlot Mutation := mkPerSlot rainbow rainbow rainbow.




(** The run in figures: a requester of power 1068 has the window
    [667.5, 1468.5]; the opponent handed over has power 593. *)
Definition stranded_team : Team :=
  mkTeam (mkPerSlot turtle snake tropicalfish)
         (mkPerSlot None None (Some dragons_feast))
         (mkPerSlot rainbow rainbow rainbow).

Example synthesis_exhaustion_run :
  match battle_opponent feasting_animals feasting_foods feasting_mutations None
          (fun _ => 99 # 100) 0%nat with
  | Ok (out, _) =>
      out = Opponent stranded_team (team_power stranded_team)
              "turtle:rainbow|snake:rainbow|tropicalfish:rainbow"
  | Raise _ => False
  end /\
  (Rewards.player_power feasting_animals feasting_foods feasting_mutations == 1068)%Q /\
  (fst (Window.difficulty_window 1068 feasting_foods feasting_mutations) == 1335 # 2)%Q /\
  (team_power stranded_team == 593)%Q.
Proof.
  split; [vm_compute; reflexivity|].
  repeat split; vm_compute; reflexivity.
Qed.

End Synth.

(** ** Splitting text blocks into messages *)

Module Chunks.

Local Open Scope list_scope.

Section Text.

(** A Python [str] is a sequence of code points; the splitter only takes
    lengths and joins, so the alphabet is left open. *)
Context {char : Type}.

Definition text : Type := list char.

(** [len(s)] *)
Definition len (s : text) : Z := Z.of_nat (length s).

(** [separator.join(parts)] *)
Fixpoint join (separator : text) (parts : list text) : text :=
  match parts with
  | [] => []
  | p :: rest =>
      match rest with
      | [] => p
      | _ => p ++ separator ++ join separator rest
      end
  end.

Record ChunkState := mkChunkState {
  chunks : list text;
  current : list text;
  current_length : Z
}.

(** A list is true when it is not empty. *)
Definition truthy {A} (l : list A) : bool :=
  match l with [] => false | _ => true end.

(** The body of the loop of [chunk_text_blocks]. *)
Definition chunk_step (limit : Z) (separator : text) (st : ChunkState) (block : text)
  : ChunkState :=
  let block_length := len block in
  let sep_length := if truthy (current st) then len separator else 0 in
  if (truthy (current st)
      && (limit <? current_length st + sep_length + block_length)%Z)%bool
  then mkChunkState (chunks st ++ [join separator (current st)]) [block] block_length
  else mkChunkState (chunks st) (current st ++ [block])
                    (current_length st + (sep_length + block_length)).

Definition chunk_text_blocks (blocks : list text) (limit : Z) (separator : text)
  : list text :=
  let st := fold_left (chunk_step limit separator) blocks (mkChunkState [] [] 0) in
  if truthy (current st) then chunks st ++ [join separator (current st)]
  else chunks st.

(** The field splitter of [IndexView._build_page]; [nl] is the newline
    character, the fields are the values passed to [embed.add_field]. *)
Definition index_step (nl : char) (st : ChunkState) (block : text) : ChunkState :=
  let block_length := len block in
  let separator_length := if truthy (current st) then 2 else 0 in
  if (truthy (current st)
      && (1024 <? current_length st + separator_length + block_length)%Z)%bool
  then mkChunkState (chunks st ++ [join [nl; nl] (current st)]) [block] block_length
  else
    let chunk_length :=
      if truthy (current st) then current_length st + separator_length
      else current_length st in
    mkChunkState (chunks st) (current st ++ [block]) (chunk_length + block_length).

Definition index_fields (nl : char) (display_blocks : list text) : list text :=
  let st := fold_left (index_step nl) display_blocks (mkChunkState [] [] 0) in
  if truthy (current st) then chunks st ++ [join [nl; nl] (current st)]
  else chunks st.

(** The pager of the [zoo] command: [messages] and [current_block]. *)
Definition zoo_step (nl : char) (st : list text * text) (block : text)
  : list text * text :=
  let '(messages, current_block) := st in
  let candidate :=
    if truthy current_block then current_block ++ [nl; nl] ++ block else block in
  if (1900 <? len candidate)%Z then (messages ++ [current_block], block)
  else (messages, candidate).

Definition zoo_messages (nl : char) (blocks : list text) : list text :=
  let '(messages, current_block) := fold_left (zoo_step nl) blocks ([], []) in
  if truthy current_block then messages ++ [current_block] else messages.

(** *** Joining *)

Lemma join_snoc separator parts block :
  parts <> [] ->
  join separator (parts ++ [block]) = join separator parts ++ separator ++ block.
Proof.
  induction parts as [|p rest IH]; [congruence|]. intros _.
  destruct rest as [|q rest].
  - reflexivity.
  - change (join separator ((p :: q :: rest) ++ [block]))
      with (p ++ separator ++ join separator ((q :: rest) ++ [block])).
    rewrite IH by discriminate.
    change (join separator (p :: q :: rest))
      with (p ++ separator ++ join separator (q :: rest)).
    now rewrite <- !app_assoc.
Qed.

Lemma join_last separator parts x y :
  join separator (parts ++ [x ++ y]) = join separator (parts ++ [x]) ++ y.
Proof.
  destruct parts as [|p rest].
  - reflexivity.
  - rewrite !join_snoc by discriminate. now rewrite <- !app_assoc.
Qed.

Lemma len_app (a b : text) : len (a ++ b) = len a + len b.
Proof. unfold len. rewrite length_app. lia. Qed.

Lemma truthy_false {A} (l : list A) : truthy l = false <-> l = [].
Proof. destruct l; split; intros H; try reflexivity; discriminate. Qed.

Lemma truthy_true {A} (l : list A) : truthy l = true <-> l <> [].
Proof. destruct l; split; intros H; try reflexivity; try discriminate; congruence. Qed.

(** What a state stands for: the chunks it would return now. *)
Definition flush (separator : text) (st : ChunkState) : list text :=
  if truthy (current st) then chunks st ++ [join separator (current st)]
  else chunks st.

Lemma flush_step_joined limit separator st block sofar :
  join separator (flush separator st) = join separator sofar ->
  (flush separator st = [] <-> sofar = []) ->
  join separator (flush separator (chunk_step limit separator st block))
  = join separator (sofar ++ [block]) /\
  (flush separator (chunk_step limit separator st block) = []
   <-> sofar ++ [block] = []).
Proof.
  intros Hj He. split.
  2:{ split; intros H; exfalso.
      - revert H. unfold chunk_step, flush.
        destruct (truthy (current st) && _)%bool; cbn [current chunks truthy].
        + destruct (chunks st ++ [join separator (current st)]); discriminate.
        + destruct (current st); cbn; destruct (chunks st); discriminate.
      - destruct sofar; discriminate. }
  unfold chunk_step.
  destruct (truthy (current st)) eqn:Et; cbn [andb].
  - assert (Hne : flush separator st <> []).
    { unfold flush. rewrite Et. destruct (chunks st); discriminate. }
    assert (Hs : sofar <> []) by (intros X; apply Hne, He, X).
    rewrite (join_snoc separator sofar block Hs), <- Hj.
    destruct (limit <? _)%Z.
    + unfold flush at 1. cbn [current chunks truthy].
      unfold flush in Hne |- *. rewrite Et in *.
      rewrite (join_snoc separator _ (join separator [block]));
        [reflexivity|destruct (chunks st); discriminate].
    + unfold flush. cbn [current chunks]. rewrite Et.
      assert (Hc : current st <> []) by (apply truthy_true, Et).
      assert (Ht : truthy (current st ++ [block]) = true)
        by (destruct (current st); reflexivity).
      rewrite Ht, (join_snoc separator (current st) block Hc).
      apply join_last.
  - apply truthy_false in Et. unfold flush in *. cbn [current chunks].
    rewrite Et in *. cbn [truthy app] in *. cbn [join].
    destruct (chunks st) as [|c cs] eqn:Ec.
    + assert (sofar = []) by (apply He; reflexivity). subst sofar. reflexivity.
    + assert (Hs : sofar <> []) by (intros X; apply He in X; discriminate).
      rewrite !join_snoc by (try discriminate; exact Hs). now rewrite Hj.
Qed.

Lemma fold_joined limit separator blocks :
  forall st sofar,
    join separator (flush separator st) = join separator sofar ->
    (flush separator st = [] <-> sofar = []) ->
    join separator (flush separator (fold_left (chunk_step limit separator) blocks st))
    = join separator (sofar ++ blocks).
Proof.
  induction blocks as [|b blocks IH]; intros st sofar Hj He.
  - cbn [fold_left]. now rewrite app_nil_r.
  - cbn [fold_left].
    destruct (flush_step_joined limit separator st b sofar Hj He) as [Hj' He'].
    rewrite (IH _ (sofar ++ [b]) Hj' He'). now rewrite <- app_assoc.
Qed.

(** *** Lengths *)

Lemma len_join_snoc separator parts block :
  parts <> [] ->
  len (join separator (parts ++ [block]))
  = len (join separator parts) + len separator + len block.
Proof.
  intros H. rewrite (join_snoc separator parts block H), !len_app. lia.
Qed.

(** The state kept by the loop when no block is longer than the limit. *)
Definition within (limit : Z) (separator : text) (st : ChunkState) : Prop :=
  current_length st = len (join separator (current st)) /\
  current_length st <= Z.max 0 limit /\
  Forall (fun c => len c <= limit) (chunks st) /\
  (current st <> [] -> current_length st <= limit).

Lemma within_step limit separator st block :
  within limit separator st -> len block <= limit ->
  within limit separator (chunk_step limit separator st block).
Proof.
  intros (Hl & Hm & Hc & Hn) Hb. unfold chunk_step, within.
  destruct (truthy (current st)) eqn:Et; cbn [andb].
  - assert (Hcur : current st <> []) by (apply truthy_true, Et).
    destruct (limit <? current_length st + len separator + len block)%Z eqn:E.
    + split; [reflexivity|]. cbn [current current_length chunks].
      split; [lia|]. split; [|intros _; exact Hb].
      apply Forall_app. split; [exact Hc|].
      constructor; [|constructor]. rewrite <- Hl. apply Hn, Hcur.
    + apply Z.ltb_ge in E. cbn [current current_length chunks].
      split; [rewrite (len_join_snoc separator _ block Hcur); lia|].
      split; [lia|]. split; [exact Hc|]. intros _. lia.
  - apply truthy_false in Et. cbn [current current_length chunks].
    rewrite Et in *. cbn [app join] in *.
    change (len []) with 0 in Hl.
    split; [lia|]. split; [lia|]. split; [exact Hc|]. intros _. lia.
Qed.

Lemma within_fold limit separator blocks :
  forall st,
    within limit separator st ->
    Forall (fun b => len b <= limit) blocks ->
    within limit separator (fold_left (chunk_step limit separator) blocks st).
Proof.
  induction blocks as [|b blocks IH]; intros st Hst Hb; [exact Hst|].
  cbn [fold_left]. inversion Hb; subst.
  apply IH; [apply within_step; assumption|assumption].
Qed.

(** X1: joining the chunks with the separator gives back the blocks joined
    with the separator: the splitter loses, adds and reorders nothing, for
    every limit (even a negative one) and every separator. *)
Theorem chunk_text_blocks_round_trip (blocks : list text) (limit : Z) (separator : text) :
  join separator (chunk_text_blocks blocks limit separator) = join separator blocks.
Proof.
  unfold chunk_text_blocks.
  change (join separator
            (flush separator
               (fold_left (chunk_step limit separator) blocks (mkChunkState [] [] 0)))
          = join separator ([] ++ blocks)).
  apply fold_joined; [reflexivity|]. split; reflexivity.
Qed.

(** X2: when no block is longer than the limit, no chunk is. *)
Theorem chunk_text_blocks_within_limit (blocks : list text) (limit : Z) (separator : text) :
  Forall (fun b => len b <= limit) blocks ->
  Forall (fun c => len c <= limit) (chunk_text_blocks blocks limit separator).
Proof.
  intros Hb. unfold chunk_text_blocks.
  destruct (within_fold limit separator blocks (mkChunkState [] [] 0))
    as (Hl & _ & Hc & Hn); [|exact Hb|].
  { split; [reflexivity|]. split; [cbn; lia|]. split; [constructor|].
    intros H. now contradiction H. }
  destruct (truthy _) eqn:Et; [|exact Hc].
  apply Forall_app. split; [exact Hc|]. constructor; [|constructor].
  rewrite <- Hl. apply Hn, truthy_true, Et.
Qed.

Lemma index_step_chunk_step nl st block :
  index_step nl st block = chunk_step 1024 [nl; nl] st block.
Proof.
  unfold index_step, chunk_step. change (len [nl; nl]) with 2.
  destruct (truthy (current st)); cbn [andb]; [|f_equal; lia].
  destruct (1024 <? _)%Z; [reflexivity|]. f_equal. lia.
Qed.

(** X3: the field splitter written out in the index page computes the
    same fields as [chunk_text_blocks] with limit 1024 and a blank line as
    separator. *)
Theorem index_fields_are_chunks (nl : char) (display_blocks : list text) :
  index_fields nl display_blocks = chunk_text_blocks display_blocks 1024 [nl; nl].
Proof.
  unfold index_fields, chunk_text_blocks.
  assert (H : forall st,
             fold_left (index_step nl) display_blocks st
             = fold_left (chunk_step 1024 [nl; nl]) display_blocks st).
  { induction display_blocks as [|b bs IH]; intros st; [reflexivity|].
    cbn [fold_left]. rewrite index_step_chunk_step. apply IH. }
  now rewrite H.
Qed.

(** *** The zoo pager *)

Definition zoo_out (st : list text * text) : list text :=
  if truthy (snd st) then fst st ++ [snd st] else fst st.

Definition fits (c : text) : Prop := c <> [] /\ len c <= 1900.

(** The state of the pager while every block is non-empty and fits. *)
Definition zoo_inv (nl : char) (st : list text * text) (sofar : list text) : Prop :=
  Forall fits (fst st) /\
  (snd st = [] -> fst st = [] /\ sofar = []) /\
  (snd st <> [] -> len (snd st) <= 1900 /\ sofar <> []) /\
  join [nl; nl] (zoo_out st) = join [nl; nl] sofar.

Lemma zoo_step_inv nl st block sofar :
  zoo_inv nl st sofar -> fits block ->
  zoo_inv nl (zoo_step nl st block) (sofar ++ [block]).
Proof.
  destruct st as [messages cur]. unfold zoo_inv, zoo_out. cbn [fst snd].
  intros (Hm & He & Hn & Hj) [Hb Hl]. unfold zoo_step.
  destruct (truthy cur) eqn:Et.
  - assert (Hc : cur <> []) by (apply truthy_true, Et).
    destruct (Hn Hc) as [Hlc Hs].
    destruct (1900 <? len (cur ++ [nl; nl] ++ block))%Z eqn:E; cbn [fst snd].
    + split; [apply Forall_app; split; [exact Hm|repeat constructor; assumption]|].
      split; [intros X; contradiction|].
      split; [intros _; split; [exact Hl|destruct sofar; discriminate]|].
      assert (Htb : truthy block = true) by (apply truthy_true, Hb).
      rewrite Htb, (join_snoc [nl; nl] (messages ++ [cur]) block), Hj,
        (join_snoc [nl; nl] sofar block Hs);
        [reflexivity|destruct messages; discriminate].
    + apply Z.ltb_ge in E.
      assert (Hne : cur ++ [nl; nl] ++ block <> []) by (destruct cur; [congruence|discriminate]).
      split; [exact Hm|]. split; [intros X; contradiction|].
      split; [intros _; split; [exact E|destruct sofar; discriminate]|].
      assert (Htc : truthy (cur ++ [nl; nl] ++ block) = true)
        by (apply truthy_true, Hne).
      rewrite Htc, join_last.
      etransitivity; [exact (f_equal (fun z => z ++ [nl; nl] ++ block) Hj)|].
      symmetry. apply join_snoc, Hs.
  - apply truthy_false in Et. subst cur.
    destruct (He eq_refl) as [-> ->].
    destruct (1900 <? len block)%Z eqn:E; [apply Z.ltb_lt in E; lia|].
    cbn [fst snd app]. split; [constructor|].
    split; [intros X; contradiction|].
    split; [intros _; split; [exact Hl|discriminate]|].
    assert (Htb : truthy block = true) by (apply truthy_true, Hb).
    now rewrite Htb.
Qed.

Lemma zoo_fold_inv nl blocks :
  forall st sofar,
    zoo_inv nl st sofar -> Forall fits blocks ->
    zoo_inv nl (fold_left (zoo_step nl) blocks st) (sofar ++ blocks).
Proof.
  induction blocks as [|b blocks IH]; intros st sofar Hst Hb.
  - cbn [fold_left]. now rewrite app_nil_r.
  - cbn [fold_left]. inversion Hb; subst.
    replace (sofar ++ b :: blocks) with ((sofar ++ [b]) ++ blocks)
      by now rewrite <- app_assoc.
    apply IH; [apply zoo_step_inv; assumption|assumption].
Qed.

(** X4: when every block of the zoo listing is non-empty and at most 1900
    characters long, every message sent is non-empty and at most 1900
    characters long, and the messages joined by blank lines are the blocks
    joined by blank lines. *)
Theorem zoo_messages_fit (nl : char) (blocks : list text) :
  Forall (fun b => b <> [] /\ len b <= 1900) blocks ->
  Forall (fun m => m <> [] /\ len m <= 1900) (zoo_messages nl blocks) /\
  join [nl; nl] (zoo_messages nl blocks) = join [nl; nl] blocks.
Proof.
  intros Hb. unfold zoo_messages.
  destruct (zoo_fold_inv nl blocks ([], []) [] ) as (Hm & He & Hn & Hj);
    [|exact Hb|].
  { split; [constructor|]. split; [intros _; split; reflexivity|].
    split; [intros X; now contradiction X|reflexivity]. }
  unfold zoo_out in Hj. cbn [app] in Hj.
  destruct (fold_left (zoo_step nl) blocks ([], [])) as [messages cur].
  cbn [fst snd] in *. split; [|exact Hj].
  destruct (truthy cur) eqn:Et; [|exact Hm].
  apply truthy_true in Et. apply Forall_app. split; [exact Hm|].
  repeat constructor; [exact Et|apply Hn, Et].
Qed.

Lemma zoo_fold_messages nl blocks :
  forall messages cur,
    exists more,
      fst (fold_left (zoo_step nl) blocks (messages, cur)) = messages ++ more.
Proof.
  induction blocks as [|b blocks IH]; intros messages cur.
  - exists []. cbn. now rewrite app_nil_r.
  - cbn [fold_left]. unfold zoo_step at 2.
    destruct (1900 <? _)%Z.
    + destruct (IH (messages ++ [cur]) b) as [more H].
      exists (cur :: more). rewrite H. now rewrite <- app_assoc.
    + apply IH.
Qed.

(** X5: when the first block of the zoo listing is longer than 1900
    characters, the first message of the pager is the empty string. *)
Theorem zoo_first_message_empty (nl : char) (block : text) (rest : list text) :
  1900 < len block ->
  exists more, zoo_messages nl (block :: rest) = [] :: more.
Proof.
  intros H. unfold zoo_messages. cbn [fold_left]. unfold zoo_step at 2.
  cbn [truthy]. apply Z.ltb_lt in H. rewrite H. cbn [app].
  match goal with
  | |- context [let '(_, _) := ?x in _] =>
      assert (Hm : exists more, fst x = [[]] ++ more)
        by exact (zoo_fold_messages nl rest [[]] block);
      destruct x as [messages cur]
  end.
  destruct Hm as [more Hm]. cbn [fst] in Hm. subst messages.
  destruct (truthy cur); eexists; reflexivity.
Qed.

End Text.

Lemma zoo_messages_fit_witness :
  Forall (fun m : list nat => m <> [] /\ len m <= 1900)
         (zoo_messages 0%nat [[1; 2]; [3]]%nat) /\
  join [0; 0]%nat (zoo_messages 0%nat [[1; 2]; [3]]%nat)
  = join [0; 0]%nat [[1; 2]; [3]]%nat.
Proof.
  apply zoo_messages_fit.
  repeat constructor; try discriminate; vm_compute; discriminate.
Defined.

Lemma zoo_first_message_empty_witness :
  exists more, zoo_messages 0%nat [repeat 7%nat 1901] = [] :: more.
Proof.
  apply zoo_first_message_empty. vm_compute. reflexivity.
Defined.

Lemma chunk_text_blocks_within_limit_witness :
  Forall (fun c => len c <= 5)
         (chunk_text_blocks [[1; 2; 3]; [4]; [5; 6]]%nat 5 [0]%nat).
Proof.
  apply chunk_text_blocks_within_limit.
  repeat constructor; vm_compute; discriminate.
Defined.

End Chunks.

(** ** Player level *)

Module Levels.

(** The [while] loop of [compute_level]; [fuel] bounds the iterations
    left and [None] is a loop cut short. *)
Fixpoint level_loop (fuel : nat) (wins level threshold : Z) : option Z :=
  match fuel with
  | O => None
  | S fuel' =>
      if (threshold <=? wins)%Z then level_loop fuel' wins (level + 1) (threshold * 2)
      else Some level
  end.

Definition compute_level (fuel : nat) (battles_won : Z) : option Z :=
  let wins := Z.max 0 battles_won in
  let level := 1 in
  let threshold := 1 in
  level_loop fuel wins level threshold.

(** [next_threshold] of the profile command. *)
Definition next_threshold (level : Z) : Z := 2 ^ (level - 1).

Lemma level_loop_spec k :
  forall fuel wins level threshold,
    1 <= level -> threshold = 2 ^ (level - 1) ->
    wins < threshold * 2 ^ Z.of_nat k ->
    (k < fuel)%nat ->
    exists level',
      level_loop fuel wins level threshold = Some level' /\
      level <= level' /\ wins < 2 ^ (level' - 1) /\
      (level < level' -> 2 ^ (level' - 2) <= wins).
Proof.
  induction k as [|k IH]; intros fuel wins level threshold Hl Ht Hw Hf.
  - destruct fuel as [|fuel]; [lia|]. cbn [level_loop].
    change (2 ^ Z.of_nat 0) with 1 in Hw.
    destruct (threshold <=? wins)%Z eqn:E; [apply Z.leb_le in E; lia|].
    exists level. split; [reflexivity|]. split; [lia|]. split; [lia|lia].
  - destruct fuel as [|fuel]; [lia|]. cbn [level_loop].
    destruct (threshold <=? wins)%Z eqn:E.
    + apply Z.leb_le in E.
      destruct (IH fuel wins (level + 1) (threshold * 2)) as (l' & Hr & Hle & Hlt & Hge).
      * lia.
      * subst threshold. replace (level + 1 - 1) with (Z.succ (level - 1)) by lia.
        rewrite Z.pow_succ_r by lia. lia.
      * rewrite Nat2Z.inj_succ, Z.pow_succ_r in Hw by lia. lia.
      * lia.
      * exists l'. split; [exact Hr|]. split; [lia|]. split; [exact Hlt|].
        intros _. destruct (Z.eq_dec l' (level + 1)) as [->|Hne].
        -- replace (level + 1 - 2) with (level - 1) by lia. lia.
        -- apply Hge. lia.
    + apply Z.leb_gt in E. exists level.
      split; [reflexivity|]. split; [lia|]. split; [lia|lia].
Qed.

(** X6: the loop of [compute_level] ends (at most wins + 1 iterations)
    and the level it returns is 1 without a win and otherwise the level L
    with 2^(L-2) <= wins < 2^(L-1): one level per doubling of the wins.  The
    "next level" figure 2^(L-1) of the profile page is therefore above the
    current wins, and reaching it gives level L + 1. *)
Theorem compute_level_thresholds (battles_won : Z) :
  exists level,
    (forall fuel, (Z.to_nat (Z.max 0 battles_won) < fuel)%nat ->
                  compute_level fuel battles_won = Some level) /\
    (battles_won <= 0 -> level = 1) /\
    (1 <= battles_won ->
     2 <= level /\ 2 ^ (level - 2) <= battles_won < 2 ^ (level - 1)) /\
    Z.max 0 battles_won < next_threshold level /\
    (forall fuel, (Z.to_nat (next_threshold level) < fuel)%nat ->
                  compute_level fuel (next_threshold level) = Some (level + 1)).
Proof.
  set (wins := Z.max 0 battles_won).
  assert (Hw : wins < 1 * 2 ^ Z.of_nat (Z.to_nat wins)).
  { rewrite Z2Nat.id by lia. pose proof (Z.pow_gt_lin_r 2 wins). lia. }
  destruct (level_loop_spec (Z.to_nat wins) (S (Z.to_nat wins)) wins 1 1)
    as (level & Hr & Hle & Hlt & Hge); [lia|reflexivity|exact Hw|lia|].
  exists level.
  assert (Hfuel : forall fuel, (Z.to_nat wins < fuel)%nat ->
                               compute_level fuel battles_won = Some level).
  { intros fuel Hf. unfold compute_level. fold wins.
    destruct (level_loop_spec (Z.to_nat wins) fuel wins 1 1)
      as (l2 & Hr2 & Hle2 & Hlt2 & Hge2); [lia|reflexivity|exact Hw|exact Hf|].
    rewrite Hr2. f_equal.
    destruct (Z.eq_dec l2 level) as [|Hne]; [assumption|exfalso].
    destruct (Z.lt_ge_cases l2 level).
    - assert (2 ^ (l2 - 1) <= 2 ^ (level - 2)) by (apply Z.pow_le_mono_r; lia).
      pose proof (Hge ltac:(lia)). lia.
    - assert (2 ^ (level - 1) <= 2 ^ (l2 - 2)) by (apply Z.pow_le_mono_r; lia).
      pose proof (Hge2 ltac:(lia)). lia. }
  split; [exact Hfuel|].
  assert (Hone : battles_won <= 0 -> level = 1).
  { intros Hb. destruct (Z.eq_dec level 1) as [|Hne]; [assumption|exfalso].
    pose proof (Hge ltac:(lia)) as H.
    assert (0 < 2 ^ (level - 2)) by (apply Z.pow_pos_nonneg; lia). lia. }
  split; [exact Hone|]. split.
  { intros Hb. assert (Hl : 2 <= level).
    { destruct (Z.eq_dec level 1) as [->|]; [|lia].
      change (2 ^ (1 - 1)) with 1 in Hlt. lia. }
    split; [exact Hl|]. pose proof (Hge ltac:(lia)). lia. }
  split; [exact Hlt|].
  intros fuel Hf. unfold compute_level, next_threshold in *.
  assert (Hp : 0 < 2 ^ (level - 1)) by (apply Z.pow_pos_nonneg; lia).
  rewrite Z.max_r by lia.
  set (w2 := 2 ^ (level - 1)) in *.
  assert (Hw2 : w2 < 1 * 2 ^ Z.of_nat (Z.to_nat w2)).
  { rewrite Z2Nat.id by lia. pose proof (Z.pow_gt_lin_r 2 w2). lia. }
  destruct (level_loop_spec (Z.to_nat w2) fuel w2 1 1)
    as (l2 & Hr2 & Hle2 & Hlt2 & Hge2); [lia|reflexivity|exact Hw2|exact Hf|].
  rewrite Hr2. f_equal.
  assert (Hl2 : 1 < l2).
  { destruct (Z.eq_dec l2 1) as [->|]; [|lia].
    change (2 ^ (1 - 1)) with 1 in Hlt2. lia. }
  pose proof (Hge2 ltac:(lia)) as Hge2'.
  unfold w2 in *.
  assert (level - 1 < l2 - 1) by (apply (Z.pow_lt_mono_r_iff 2); lia).
  assert (l2 - 2 <= level - 1) by (apply (Z.pow_le_mono_r_iff 2); lia).
  lia.
Qed.

End Levels.

(** ** Laws of the inventory *)

Module InventoryLaws.
Import Inventory FuseCommand.

(** [well_formed] profiles are the ones [load_profile] hands to the
    commands: every zoo entry is read as a bucket of the five canonical
    keys with non-negative counts. *)

Lemma counts_view_entry p p' id f :
  zoo p' !! id = zoo p !! id -> counts_view p id f -> counts_view p' id f.
Proof.
  intros Hz (Hf & Hget & Hb). split; [exact Hf|]. split.
  - intros m. rewrite get_owned_count_canonical, Hz, <- get_owned_count_canonical.
    apply Hget.
  - now rewrite Hz.
Qed.

Lemma get_owned_count_key p id mutation :
  get_owned_count p id mutation
  = match normalize_mutation_key mutation with
    | Some m => get_owned_count p id (mutation_name m)
    | None => None
    end.
Proof.
  unfold get_owned_count.
  destruct (normalize_mutation_key mutation) as [m|]; [|reflexivity].
  now rewrite normalize_canonical.
Qed.

Lemma add_animal_key p id mutation m qty :
  normalize_mutation_key mutation = Some m ->
  add_animal p id mutation qty = add_animal p id (mutation_name m) qty.
Proof. intros H. unfold add_animal. now rewrite H, normalize_canonical. Qed.

Lemma remove_animal_key p id mutation m qty :
  normalize_mutation_key mutation = Some m ->
  remove_animal p id mutation qty = remove_animal p id (mutation_name m) qty.
Proof. intros H. unfold remove_animal. now rewrite H, normalize_canonical. Qed.

Lemma well_formed_insert p id g :
  well_formed p -> (forall m, 0 <= g m) ->
  well_formed (mkProfile (<[id := ZDict (bucket_of g)]> (zoo p)) (team p)).
Proof.
  intros Hp Hg id'. destruct (decide (id' = id)) as [->|Hne].
  - exists g. now apply counts_view_insert.
  - destruct (Hp id') as [f Hf]. exists f.
    eapply counts_view_entry; [|exact Hf].
    cbn [zoo]. now apply lookup_insert_ne.
Qed.

Lemma counts_view_unique p id f g :
  counts_view p id f -> counts_view p id g -> forall m, f m = g m.
Proof.
  intros (_ & Hf & _) (_ & Hg & _) m.
  specialize (Hf m). rewrite Hg in Hf. congruence.
Qed.

(** X7: on a loaded profile, adding [qty > 0] units of a tier raises the
    owned count of that animal and tier by exactly [qty] and changes no
    other count, no other animal and no team slot. *)
Theorem add_animal_credits
    (profile : Profile) (id mutation : string) (m : Mutation) (qty : Z) :
  well_formed profile ->
  normalize_mutation_key mutation = Some m ->
  0 < qty ->
  exists profile' owned,
    add_animal profile id mutation qty = Some profile' /\
    well_formed profile' /\
    (forall m', get_owned_count profile id (mutation_name m') = Some (owned m')) /\
    (forall m', get_owned_count profile' id (mutation_name m')
                = Some (if decide (m' = m) then owned m' + qty else owned m')) /\
    (forall id', id' <> id -> zoo profile' !! id' = zoo profile !! id') /\
    team profile' = team profile.
Proof.
  intros Hp Hm Hq. destruct (Hp id) as [f Hf].
  rewrite (add_animal_key _ _ _ _ _ Hm), (add_animal_view profile id f m qty Hf Hq).
  assert (Hg : forall m', 0 <= fupd f m (f m + qty) m').
  { intros m'. unfold fupd. pose proof (proj1 Hf m). pose proof (proj1 Hf m').
    destruct (decide (m' = m)); lia. }
  eexists _, f. split; [reflexivity|].
  split; [now apply well_formed_insert|].
  split; [apply Hf|]. split.
  - intros m'. destruct (counts_view_insert (zoo profile) (team profile) id _ Hg)
      as (_ & Hget & _).
    rewrite Hget. unfold fupd. destruct (decide (m' = m)); congruence.
  - split; [|reflexivity]. intros id' Hne. cbn [zoo]. now apply lookup_insert_ne.
Qed.

(** X8: on a loaded profile, removing [qty > 0] units of a tier takes
    min(owned, qty) units, returns that number and leaves owned minus that
    number: never more than asked for, never more than owned, never a
    negative count; other tiers, other animals and the team are untouched. *)
Theorem remove_animal_capped
    (profile : Profile) (id mutation : string) (m : Mutation) (qty : Z) :
  well_formed profile ->
  normalize_mutation_key mutation = Some m ->
  0 < qty ->
  exists profile' owned,
    remove_animal profile id mutation qty = Some (Z.min (owned m) qty, profile') /\
    well_formed profile' /\
    (forall m', get_owned_count profile id (mutation_name m') = Some (owned m')) /\
    (forall m', get_owned_count profile' id (mutation_name m')
                = Some (if decide (m' = m) then owned m - Z.min (owned m) qty
                        else owned m')) /\
    0 <= Z.min (owned m) qty /\
    0 <= owned m - Z.min (owned m) qty /\
    (forall id', id' <> id -> zoo profile' !! id' = zoo profile !! id') /\
    team profile' = team profile.
Proof.
  intros Hp Hm Hq. destruct (Hp id) as [f Hf].
  rewrite (remove_animal_key _ _ _ _ _ Hm),
    (remove_animal_view profile id f m qty Hf Hq).
  pose proof (proj1 Hf m) as Hfm.
  assert (Hg : forall m', 0 <= fupd f m (Z.max 0 (f m - Z.min (f m) qty)) m').
  { intros m'. unfold fupd. pose proof (proj1 Hf m').
    destruct (decide (m' = m)); lia. }
  eexists _, f. split; [reflexivity|].
  split; [now apply well_formed_insert|].
  split; [apply Hf|]. split.
  - intros m'. destruct (counts_view_insert (zoo profile) (team profile) id _ Hg)
      as (_ & Hget & _).
    rewrite Hget. unfold fupd. destruct (decide (m' = m)); f_equal; lia.
  - split; [lia|]. split; [lia|]. split; [|reflexivity].
    intros id' Hne. cbn [zoo]. now apply lookup_insert_ne.
Qed.

(** X9: on a loaded profile, adding [qty > 0] units and then removing
    [qty] units of the same animal and tier removes exactly [qty] and
    restores every owned count of the profile. *)
Theorem add_then_remove_restores
    (profile : Profile) (id mutation : string) (m : Mutation) (qty : Z) :
  well_formed profile ->
  normalize_mutation_key mutation = Some m ->
  0 < qty ->
  exists added restored,
    add_animal profile id mutation qty = Some added /\
    remove_animal added id mutation qty = Some (qty, restored) /\
    (forall id' mutation',
        get_owned_count restored id' mutation' = get_owned_count profile id' mutation') /\
    team restored = team profile.
Proof.
  intros Hp Hm Hq. destruct (Hp id) as [f Hf].
  pose proof (proj1 Hf) as Hnn.
  rewrite (add_animal_key _ _ _ _ _ Hm), (add_animal_view profile id f m qty Hf Hq).
  set (g := fupd f m (f m + qty)).
  assert (Hg : forall m', 0 <= g m').
  { intros m'. unfold g, fupd. pose proof (Hnn m). pose proof (Hnn m').
    destruct (decide (m' = m)); lia. }
  pose proof (counts_view_insert (zoo profile) (team profile) id g Hg) as Hadded.
  eexists _, _. split; [reflexivity|].
  rewrite (remove_animal_key _ _ _ _ _ Hm),
    (remove_animal_view _ id g m qty Hadded Hq).
  assert (Hgm : g m = f m + qty) by (unfold g; apply fupd_same).
  pose proof (Hnn m).
  rewrite Hgm, (Z.min_r (f m + qty) qty) by lia.
  split; [reflexivity|]. split; [|reflexivity].
  intros id' mutation'. rewrite !(get_owned_count_key _ id' mutation').
  destruct (normalize_mutation_key mutation') as [m'|]; [|reflexivity].
  destruct (decide (id' = id)) as [->|Hne].
  - assert (Hh : forall x, 0 <= fupd g m (Z.max 0 (f m + qty - qty)) x).
    { intros x. unfold fupd. pose proof (Hg x). destruct (decide (x = m)); lia. }
    destruct (counts_view_insert
                (<[id := ZDict (bucket_of g)]> (zoo profile)) (team profile) id _ Hh)
      as (_ & Hget & _).
    cbn [zoo team] in *. rewrite Hget, (proj1 (proj2 Hf) m').
    f_equal. unfold fupd, g, fupd.
    destruct (decide (m' = m)); [subst; lia|reflexivity].
  - rewrite !get_owned_count_canonical. cbn [zoo].
    now rewrite !lookup_insert_ne by congruence.
Qed.

(** *** Migration *)

Lemma migrate_slot_backed normalized_zoo raw_value :
  migrate_slot normalized_zoo raw_value = SlotNone \/
  exists id m bucket,
    migrate_slot normalized_zoo raw_value
    = SlotDict [("animal_id", id); ("mutation", mutation_name m)] /\
    normalized_zoo !! id = Some bucket /\
    0 < default 0 (dict_get bucket (mutation_name m)).
Proof.
  unfold migrate_slot.
  set (sv := match raw_value with
             | SlotStr s => _ | SlotDict [] => _ | SlotDict (_ :: _) => _
             | SlotNone => _ end).
  destruct sv as [[[id|] mutation]|]; try (left; reflexivity).
  destruct (normalized_zoo !! id) as [bucket|] eqn:Ez; [|left; reflexivity].
  destruct (default 0 (dict_get bucket (mutation_name mutation)) <=? 0)%Z eqn:E.
  - destruct (find _ MUTATIONS) as [mut|] eqn:Ef; [|left; reflexivity].
    right. exists id, mut, bucket. split; [reflexivity|]. split; [exact Ez|].
    apply find_some in Ef as [_ Ef]. now apply Z.ltb_lt in Ef.
  - right. exists id, mutation, bucket. split; [reflexivity|]. split; [exact Ez|].
    apply Z.leb_gt in E. exact E.
Qed.

Lemma migrated_slot raw slot :
  sget (team (_migrate_profile raw)) slot
  = migrate_slot (_normalize_zoo_entry <$> zoo raw) (sget (team raw) slot).
Proof. destruct slot; reflexivity. Qed.

Lemma migrated_zoo raw id :
  zoo (_migrate_profile raw) !! id
  = ZDict <$> (_normalize_zoo_entry <$> zoo raw) !! id.
Proof. unfold _migrate_profile. cbn [zoo]. now rewrite lookup_fmap. Qed.

Lemma migrated_team_backed raw slot :
  sget (team (_migrate_profile raw)) slot = SlotNone \/
  exists id m owned,
    sget (team (_migrate_profile raw)) slot
    = SlotDict [("animal_id", id); ("mutation", mutation_name m)] /\
    get_owned_count (_migrate_profile raw) id (mutation_name m) = Some owned /\
    1 <= owned.
Proof.
  rewrite migrated_slot.
  destruct (migrate_slot_backed (_normalize_zoo_entry <$> zoo raw) (sget (team raw) slot))
    as [H|(id & m & bucket & H & Hz & Hpos)]; [left; exact H|right].
  exists id, m, (default 0 (dict_get bucket (mutation_name m))).
  split; [exact H|]. split; [|lia].
  rewrite get_owned_count_canonical, migrated_zoo, Hz. cbn.
  destruct (dict_get bucket (mutation_name m)); cbn in *; f_equal; lia.
Qed.

(** X10: after the migration done by every load, a team slot is either
    empty or names an animal and a canonical tier of which the profile
    owns at least one unit. *)
Theorem migrated_team_is_owned (raw : Profile) (slot : Slot) :
  let profile := _migrate_profile raw in
  sget (team profile) slot = SlotNone \/
  exists id m owned,
    sget (team profile) slot
    = SlotDict [("animal_id", id); ("mutation", mutation_name m)] /\
    get_owned_count profile id (mutation_name m) = Some owned /\
    1 <= owned.
Proof. exact (migrated_team_backed raw slot). Qed.

Lemma migrated_entry raw id f :
  counts_view (_migrate_profile raw) id f ->
  zoo (_migrate_profile (_migrate_profile raw)) !! id
  = match zoo (_migrate_profile raw) !! id with
    | Some _ => Some (ZDict (bucket_of f))
    | None => None
    end.
Proof.
  intros (_ & _ & Hb). rewrite (migrated_zoo (_migrate_profile raw)).
  rewrite lookup_fmap. revert Hb. rewrite migrated_zoo.
  destruct ((_normalize_zoo_entry <$> zoo raw) !! id) as [b|]; [|reflexivity].
  cbn [fmap option_fmap option_map current_dict _normalize_zoo_entry].
  intros ->. reflexivity.
Qed.

Lemma migrated_counts_stable raw id m :
  get_owned_count (_migrate_profile (_migrate_profile raw)) id (mutation_name m)
  = get_owned_count (_migrate_profile raw) id (mutation_name m).
Proof.
  destruct (migrate_profile_well_formed raw id) as [f Hf].
  rewrite (proj1 (proj2 Hf) m).
  rewrite get_owned_count_canonical, (migrated_entry raw id f Hf).
  pose proof (proj1 (proj2 Hf) m) as Hget.
  rewrite get_owned_count_canonical in Hget.
  destruct (zoo (_migrate_profile raw) !! id) as [e|].
  - rewrite dict_get_bucket_of. f_equal. apply Z.max_r, Hf.
  - exact Hget.
Qed.

(** X11: a second migration changes nothing that the commands read: the
    owned count of every animal and key and the three team slots are the
    same after migrating a migrated profile. *)
Theorem migration_is_stable (raw : Profile) :
  let profile := _migrate_profile raw in
  team (_migrate_profile profile) = team profile /\
  forall id mutation,
    get_owned_count (_migrate_profile profile) id mutation
    = get_owned_count profile id mutation.
Proof.
  cbv zeta. split.
  - assert (H : forall slot,
               sget (team (_migrate_profile (_migrate_profile raw))) slot
               = sget (team (_migrate_profile raw)) slot).
    { intros slot. rewrite (migrated_slot (_migrate_profile raw)).
      destruct (migrated_team_backed raw slot) as [H|(aid & m & owned & H & Ho & H1)];
        rewrite H; [reflexivity|].
      unfold migrate_slot.
      change (dict_get [("animal_id", aid); ("mutation", mutation_name m)] "mutation")
        with (Some (mutation_name m)).
      change (dict_get [("animal_id", aid); ("mutation", mutation_name m)] "animal_id")
        with (Some aid).
      cbn [from_option id]. rewrite normalize_canonical.
      cbn [from_option id].
      destruct (migrate_profile_well_formed raw aid) as [f Hf].
      pose proof (proj1 (proj2 Hf) m) as Hget. rewrite Ho in Hget.
      injection Hget as Hfm.
      assert (Hz : (_normalize_zoo_entry <$> zoo (_migrate_profile raw)) !! aid
                   = Some (bucket_of f)).
      { pose proof (migrated_entry raw aid f Hf) as He.
        rewrite (migrated_zoo (_migrate_profile raw)) in He.
        rewrite get_owned_count_canonical in Ho.
        destruct (zoo (_migrate_profile raw) !! aid) as [e|] eqn:Ee;
          [|injection Ho as Ho; lia].
        destruct ((_normalize_zoo_entry <$> zoo (_migrate_profile raw)) !! aid);
          cbn [fmap option_fmap option_map] in He; congruence. }
      rewrite Hz, dict_get_bucket_of. cbn [from_option id].
      destruct (f m <=? 0)%Z eqn:E; [apply Z.leb_le in E; lia|reflexivity]. }
    destruct (team (_migrate_profile (_migrate_profile raw))) as [a1 a2 a3] eqn:E1.
    destruct (team (_migrate_profile raw)) as [b1 b2 b3] eqn:E2.
    pose proof (H slot1) as H1. pose proof (H slot2) as H2. pose proof (H slot3) as H3.
    cbn in H1, H2, H3. congruence.
  - intros id mutation. rewrite !(get_owned_count_key _ id mutation).
    destruct (normalize_mutation_key mutation) as [m|]; [|reflexivity].
    apply migrated_counts_stable.
Qed.

Definition two_pigs : Profile :=
  _migrate_profile (mkProfile {[ "pig" := ZInt 2 ]} (mkPerSlot SlotNone SlotNone SlotNone)).

Lemma add_animal_credits_witness :
  exists profile' owned,
    add_animal two_pigs "pig" "Gold" 3 = Some profile' /\
    well_formed profile' /\
    (forall m', get_owned_count two_pigs "pig" (mutation_name m') = Some (owned m')) /\
    (forall m', get_owned_count profile' "pig" (mutation_name m')
                = Some (if decide (m' = golden) then owned m' + 3 else owned m')) /\
    (forall id', id' <> "pig" -> zoo profile' !! id' = zoo two_pigs !! id') /\
    team profile' = team two_pigs.
Proof.
  apply add_animal_credits;
    [apply migrate_profile_well_formed|reflexivity|lia].
Defined.

Lemma remove_animal_capped_witness :
  exists profile' owned,
    remove_animal two_pigs "pig" "none" 5 = Some (Z.min (owned none) 5, profile') /\
    well_formed profile' /\
    (forall m', get_owned_count two_pigs "pig" (mutation_name m') = Some (owned m')) /\
    (forall m', get_owned_count profile' "pig" (mutation_name m')
                = Some (if decide (m' = none) then owned none - Z.min (owned none) 5
                        else owned m')) /\
    0 <= Z.min (owned none) 5 /\
    0 <= owned none - Z.min (owned none) 5 /\
    (forall id', id' <> "pig" -> zoo profile' !! id' = zoo two_pigs !! id') /\
    team profile' = team two_pigs.
Proof.
  apply remove_animal_capped;
    [apply migrate_profile_well_formed|reflexivity|lia].
Defined.

Lemma add_then_remove_restores_witness :
  exists added restored,
    add_animal two_pigs "pig" "rb" 2 = Some added /\
    remove_animal added "pig" "rb" 2 = Some (2, restored) /\
    (forall id' mutation',
        get_owned_count restored id' mutation' = get_owned_count two_pigs id' mutation') /\
    team restored = team two_pigs.
Proof.
  apply (add_then_remove_restores two_pigs "pig" "rb" rainbow 2);
    [apply migrate_profile_well_formed|reflexivity|lia].
Defined.

End InventoryLaws.

(** ** Selling and reserving animals *)

Module Sale.
Import Inventory FuseCommand.


(** [mutation_bucket]: the loop over a dict entry is the loop of
    [add_animal] ([rebuild_bucket]); counts are ints, so [int(qty)] does
    not raise. *)
Definition mutation_bucket (profile : Profile) (animal_id : string) : list (string * Z) :=
  match default (ZDict default_mutation_counts) (zoo profile !! animal_id) with
  | ZDict d => rebuild_bucket d
  | ZInt n => dict_set default_mutation_counts "none" (Z.max 0 n)
  end.

Definition total_owned_species (profile : Profile) (animal_id : string) : Z :=
  let bucket := mutation_bucket profile animal_id in
  fold_left (fun total kv => total + Z.max 0 (snd kv)) bucket 0.

(** [None] is the [ValueError] of [normalize_mutation_key]. *)
Definition reserved_species_count (team : PerSlot SlotValue) (animal_id : string)
  : option Z :=
  fold_left
    (fun total mutation =>
       match total, reserved_count team animal_id (mutation_name mutation) with
       | Some total, Some reserved => Some (total + reserved)
       | _, _ => None
       end)
    MUTATIONS (Some 0).

Definition sellable_species_amount (profile : Profile) (animal_id : string) : option Z :=
  let owned := total_owned_species profile animal_id in
  match reserved_species_count (team profile) animal_id with
  | Some reserved => Some (Z.max 0 (owned - reserved))
  | None => None
  end.

(** The loop of [allocate_sale] over the tiers left; [None] is a
    [ValueError]. *)
Fixpoint allocate_loop (profile : Profile) (animal_id : string) (tiers : list Mutation)
    (remaining : Z) (allocations : list (Mutation * Z))
  : option (Z * list (Mutation * Z)) :=
  match tiers with
  | [] => Some (remaining, allocations)
  | mutation :: rest =>
      match sellable_amount profile animal_id (mutation_name mutation) with
      | None => None
      | Some available =>
          if (available <=? 0)%Z then
            allocate_loop profile animal_id rest remaining allocations
          else
            let portion := Z.min available remaining in
            let '(remaining, allocations) :=
              if (0 <? portion)%Z
              then (remaining - portion, (allocations ++ [(mutation, portion)])%list)
              else (remaining, allocations) in
            if (remaining <=? 0)%Z then Some (remaining, allocations)
            else allocate_loop profile animal_id rest remaining allocations
      end
  end.

Inductive Allocation :=
| Allocations (allocations : list (Mutation * Z))
| InsufficientInventory          (* the RuntimeError *)
| UnknownKey.                    (* a ValueError *)

Definition allocate_sale (profile : Profile) (animal_obj : Animal) (qty : Z) : Allocation :=
  match allocate_loop profile (animal_id animal_obj) MUTATIONS qty [] with
  | None => UnknownKey
  | Some (remaining, allocations) =>
      if (0 <? remaining)%Z then InsufficientInventory else Allocations allocations
  end.






(** *** The team add command *)

Inductive TeamReply :=
| InvalidSlot
| UnknownAnimal
| InvalidPlacement
| NotOwnedYet
| FullyReserved
| TeamUpdated (slot : Slot) (a : Animal) (chosen_mutation : Mutation).

Definition slot_of_pos (pos : Z) : option Slot :=
  if (pos =? 1)%Z then Some slot1
  else if (pos =? 2)%Z then Some slot2
  else if (pos =? 3)%Z then Some slot3
  else None.

Definition role_requirement (slot : Slot) : Role :=
  match slot with slot1 => TANK | slot2 => ATTACK | slot3 => SUPPORT end.

(** The [for mutation in MUTATIONS] search of the command. *)
Fixpoint choose_mutation (profile : Profile) (animal_id : string) (tiers : list Mutation)
  : option (option Mutation) :=
  match tiers with
  | [] => Some None
  | mutation :: rest =>
      match sellable_amount profile animal_id (mutation_name mutation) with
      | None => None
      | Some sellable =>
          if (0 <? sellable)%Z then Some (Some mutation)
          else choose_mutation profile animal_id rest
      end
  end.

(** [team add]: the reply and the store; [None] is a [ValueError]. *)
Definition team_add (st : Store) (user_id animal : string) (pos : Z)
  : option (TeamReply * Store) :=
  match slot_of_pos pos with
  | None => Some (InvalidSlot, st)
  | Some slot =>
      match resolve_animal animal with
      | None => Some (UnknownAnimal, st)
      | Some a =>
          if decide (role a = role_requirement slot) then
            let '(profile, st) := load_profile st user_id in
            match sellable_species_amount profile (animal_id a) with
            | None => None
            | Some available_total =>
                if (available_total <=? 0)%Z then Some (NotOwnedYet, st)
                else
                  match choose_mutation profile (animal_id a) MUTATIONS with
                  | None => None
                  | Some None => Some (FullyReserved, st)
                  | Some (Some chosen_mutation) =>
                      let profile :=
                        mkProfile (zoo profile)
                          (sset (team profile) slot
                             (SlotDict [("animal_id", animal_id a);
                                        ("mutation", mutation_name chosen_mutation)])) in
                      Some (TeamUpdated slot a chosen_mutation,
                            save_profile st user_id profile)
                  end
            end
          else Some (InvalidPlacement, st)
      end
  end.

(** *** Owned, reserved and sellable totals *)

Definition tier_sum (g : Mutation -> Z) (tiers : list Mutation) : Z :=
  fold_right Z.add 0 (map g tiers).

Definition sellable_of (f r : Mutation -> Z) (m : Mutation) : Z := Z.max 0 (f m - r m).

Lemma bucket_of_inj f g : bucket_of f = bucket_of g -> forall m, f m = g m.
Proof.
  intros H m. pose proof (dict_get_bucket_of f m) as Hf.
  rewrite H, dict_get_bucket_of in Hf. congruence.
Qed.

Lemma mutation_bucket_view profile id f :
  counts_view profile id f -> mutation_bucket profile id = bucket_of f.
Proof.
  intros (Hf & _ & Hb). unfold mutation_bucket.
  destruct (zoo profile !! id) as [[d|n]|]; cbn [default from_option current_dict] in *.
  - exact Hb.
  - rewrite <- Hb. unfold rebuild_bucket. cbn [fold_left fst snd].
    change (normalize_mutation_key "none") with (Some none). cbv iota beta.
    change (mutation_name none) with "none". now rewrite Z.max_r by lia.
  - change (rebuild_bucket (bucket_of (fun _ => 0)) = bucket_of f).
    rewrite rebuild_bucket_of by (intros; lia). exact Hb.
Qed.

Lemma total_owned_species_view profile id f :
  counts_view profile id f ->
  total_owned_species profile id = tier_sum f MUTATIONS.
Proof.
  intros Hv. unfold total_owned_species. rewrite (mutation_bucket_view _ _ _ Hv).
  pose proof (proj1 Hv) as Hf. unfold tier_sum, bucket_of.
  cbn [MUTATIONS MUTATION_ORDER map fold_left fold_right snd].
  pose proof (Hf none). pose proof (Hf golden). pose proof (Hf diamond).
  pose proof (Hf emerald). pose proof (Hf rainbow). lia.
Qed.

Lemma reserved_species_count_view team id :
  reserved_species_count team id = Some (tier_sum (reserved_total team id) MUTATIONS).
Proof.
  unfold reserved_species_count, tier_sum.
  cbn [MUTATIONS MUTATION_ORDER map fold_left fold_right].
  rewrite !reserved_count_canonical. f_equal. lia.
Qed.

Lemma sellable_species_amount_view profile id f :
  counts_view profile id f ->
  sellable_species_amount profile id
  = Some (Z.max 0 (tier_sum f MUTATIONS
                   - tier_sum (reserved_total (team profile) id) MUTATIONS)).
Proof.
  intros Hv. unfold sellable_species_amount.
  now rewrite reserved_species_count_view, (total_owned_species_view _ _ _ Hv).
Qed.

Lemma tier_sum_sellable f r tiers :
  tier_sum f tiers - tier_sum r tiers <= tier_sum (sellable_of f r) tiers.
Proof.
  unfold tier_sum, sellable_of. induction tiers as [|m tiers IH]; cbn; lia.
Qed.

Definition portions (allocations : list (Mutation * Z)) : Z :=
  fold_right Z.add 0 (map snd allocations).

Lemma portions_app a b : portions (a ++ b) = portions a + portions b.
Proof.
  unfold portions. induction a as [|[m q] a IH]; cbn in *; lia.
Qed.

Lemma allocate_loop_spec profile id (a : Mutation -> Z) tiers :
  (forall m, 0 <= a m) ->
  (forall m, sellable_amount profile id (mutation_name m) = Some (a m)) ->
  List.NoDup tiers ->
  forall remaining allocations,
    0 < remaining ->
    exists new,
      allocate_loop profile id tiers remaining allocations
      = Some (Z.max 0 (remaining - tier_sum a tiers), (allocations ++ new)%list) /\
      portions new = remaining - Z.max 0 (remaining - tier_sum a tiers) /\
      List.NoDup (map fst new) /\
      forall mutation portion,
        In (mutation, portion) new -> In mutation tiers /\ 0 < portion <= a mutation.
Proof.
  intros Ha Hs. induction tiers as [|m tiers IH]; intros Hnd remaining allocations Hr.
  - exists []. cbn [allocate_loop]. unfold tier_sum. cbn.
    rewrite app_nil_r, Z.max_r by lia.
    split; [do 2 f_equal; lia|]. split; [lia|]. split; [constructor|].
    intros ? ? [].
  - inversion Hnd as [|? ? Hnot Hnd']; subst. cbn [allocate_loop]. rewrite Hs.
    assert (Hsum : tier_sum a (m :: tiers) = a m + tier_sum a tiers) by reflexivity.
    pose proof (Ha m) as Ham.
    destruct (a m <=? 0)%Z eqn:E0.
    + apply Z.leb_le in E0.
      destruct (IH Hnd' remaining allocations Hr) as (new & Hrun & Hp & Hn & Hin).
      exists new. rewrite Hrun, Hsum. replace (a m) with 0 by lia.
      split; [reflexivity|]. split; [rewrite Hp; f_equal|].
      split; [exact Hn|]. intros mu q Hq. destruct (Hin mu q Hq). split; [now right|lia].
    + apply Z.leb_gt in E0.
      assert (Hpos : (0 <? Z.min (a m) remaining)%Z = true) by (apply Z.ltb_lt; lia).
      rewrite Hpos.
      destruct (remaining - Z.min (a m) remaining <=? 0)%Z eqn:E1.
      * apply Z.leb_le in E1. exists [(m, Z.min (a m) remaining)].
        assert (0 <= tier_sum a tiers).
        { unfold tier_sum. clear -Ha. induction tiers as [|x l IH]; cbn; [lia|].
          pose proof (Ha x). lia. }
        rewrite Hsum.
        split; [do 2 f_equal; lia|]. split; [unfold portions; cbn; lia|].
        split; [constructor; [intros []|constructor]|].
        intros mu q [Hq|[]]. injection Hq as <- <-. split; [now left|lia].
      * apply Z.leb_gt in E1.
        destruct (IH Hnd' (remaining - Z.min (a m) remaining)
                    (allocations ++ [(m, Z.min (a m) remaining)])%list ltac:(lia))
          as (new & Hrun & Hp & Hn & Hin).
        exists ((m, Z.min (a m) remaining) :: new).
        rewrite Hrun, Hsum, <- app_assoc. cbn [app].
        rewrite (Z.min_l (a m) remaining) in * by lia.
        split; [do 2 f_equal; lia|].
        split; [unfold portions in *; cbn [map snd fold_right]; lia|].
        split.
        { cbn [map fst]. constructor; [|exact Hn].
          intros Hx. apply in_map_iff in Hx as ([mu q] & Emu & Hq).
          cbn in Emu. subst mu. apply Hnot. apply (Hin m q Hq). }
        intros mu q [Hq|Hq].
        -- injection Hq as <- <-. split; [now left|lia].
        -- destruct (Hin mu q Hq). split; [now right|lia].
Qed.

Lemma MUTATIONS_NoDup : List.NoDup MUTATIONS.
Proof. repeat constructor; cbn; intuition discriminate. Qed.

(** X12: on a loaded profile, when the quantity asked for is positive
    and at most [sellable_species_amount] (the guard of the sell command),
    [allocate_sale] does not raise: it returns portions that add up to the
    quantity, at most one per tier, each positive and at most the
    [sellable_amount] of its tier. *)
Theorem allocate_sale_covers
    (profile : Profile) (animal_obj : Animal) (qty available : Z) :
  well_formed profile ->
  sellable_species_amount profile (animal_id animal_obj) = Some available ->
  0 < qty <= available ->
  exists allocations,
    allocate_sale profile animal_obj qty = Allocations allocations /\
    fold_right Z.add 0 (map snd allocations) = qty /\
    List.NoDup (map fst allocations) /\
    forall mutation portion,
      In (mutation, portion) allocations ->
      exists sellable,
        sellable_amount profile (animal_id animal_obj) (mutation_name mutation)
        = Some sellable /\
        0 < portion <= sellable.
Proof.
  intros Hp Hav Hq. destruct (Hp (animal_id animal_obj)) as [f Hf].
  set (id := animal_id animal_obj) in *.
  set (r := reserved_total (team profile) id).
  rewrite (sellable_species_amount_view _ _ _ Hf) in Hav. injection Hav as Hav.
  fold r in Hav.
  pose proof (tier_sum_sellable f r MUTATIONS) as Hsum.
  assert (Hs : forall m, sellable_amount profile id (mutation_name m)
                         = Some (sellable_of f r m)).
  { intros m. apply (sellable_amount_view _ _ _ _ Hf). }
  destruct (allocate_loop_spec profile id (sellable_of f r) MUTATIONS
              ltac:(intros; unfold sellable_of; lia) Hs MUTATIONS_NoDup qty []
              ltac:(lia)) as (new & Hrun & Hport & Hnd & Hin).
  exists new. unfold allocate_sale. fold id. rewrite Hrun. cbn [app].
  rewrite Z.max_l in * by lia.
  split; [reflexivity|]. split; [unfold portions in Hport; lia|].
  split; [exact Hnd|].
  intros mu q Hmu. exists (sellable_of f r mu). split; [apply Hs|apply (Hin mu q Hmu)].
Qed.

(** *** Carrying out a plan *)






Lemma choose_mutation_spec profile id (a : Mutation -> Z) tiers :
  (forall m, sellable_amount profile id (mutation_name m) = Some (a m)) ->
  (exists chosen,
      choose_mutation profile id tiers = Some (Some chosen) /\
      In chosen tiers /\ 0 < a chosen /\
      forall before after, tiers = (before ++ chosen :: after)%list ->
                           ~ In chosen before ->
                           forall m, In m before -> a m <= 0) \/
  (choose_mutation profile id tiers = Some None /\ forall m, In m tiers -> a m <= 0).
Proof.
  intros Hs. induction tiers as [|m tiers IH]; cbn [choose_mutation].
  - right. split; [reflexivity|]. intros ? [].
  - rewrite Hs. destruct (0 <? a m)%Z eqn:E.
    + apply Z.ltb_lt in E. left. exists m. split; [reflexivity|].
      split; [now left|]. split; [exact E|].
      intros before after Heq Hnot x Hx. destruct before as [|b before].
      * destruct Hx.
      * injection Heq as <- _. exfalso. apply Hnot. now left.
    + apply Z.ltb_ge in E. destruct IH as [(c & Hc & Hin & Hpos & Hfirst)|[Hc Hall]].
      * left. exists c. split; [exact Hc|]. split; [now right|]. split; [exact Hpos|].
        intros before after Heq Hnot x Hx. destruct before as [|b before].
        -- destruct Hx.
        -- injection Heq as <- Heq. destruct Hx as [<-|Hx]; [exact E|].
           apply (Hfirst before after Heq); [|exact Hx].
           intros X. apply Hnot. now right.
      * right. split; [exact Hc|]. intros x [<-|Hx]; [exact E|now apply Hall].
Qed.

(** X14: [team add] never raises and never sends the "fully reserved"
    reply: when the species has a unit to spare, some tier has one.  A
    successful add puts into the slot the animal, whose role is the role of
    the slot, with the first tier in [MUTATIONS] order that has a unit not
    reserved on the team; the zoo is the loaded one. *)
Theorem team_add_reserves_spare_unit (st : Store) (user_id animal : string) (pos : Z) :
  exists reply st',
    team_add st user_id animal pos = Some (reply, st') /\
    reply <> FullyReserved /\
    forall slot a chosen,
      reply = TeamUpdated slot a chosen ->
      let loaded := fst (load_profile st user_id) in
      slot_of_pos pos = Some slot /\
      resolve_animal animal = Some a /\
      role a = role_requirement slot /\
      (exists sellable,
          sellable_amount loaded (animal_id a) (mutation_name chosen) = Some sellable /\
          0 < sellable) /\
      (forall lower, (tier lower < tier chosen)%nat ->
                     sellable_amount loaded (animal_id a) (mutation_name lower) = Some 0) /\
      users st' !! user_id
      = Some (mkProfile (zoo loaded)
                (sset (team loaded) slot
                   (SlotDict [("animal_id", animal_id a);
                              ("mutation", mutation_name chosen)]))).
Proof.
  unfold team_add.
  destruct (slot_of_pos pos) as [slot|];
    [|eexists _, _; split; [reflexivity|split; [discriminate|discriminate]]].
  destruct (resolve_animal animal) as [a|];
    [|eexists _, _; split; [reflexivity|split; [discriminate|discriminate]]].
  destruct (decide (role a = role_requirement slot)) as [Hrole|];
    [|eexists _, _; split; [reflexivity|split; [discriminate|discriminate]]].
  pose proof (load_profile_well_formed st user_id) as Hwf.
  destruct (load_profile st user_id) as [profile st0] eqn:El. cbn [fst] in *.
  destruct (Hwf (animal_id a)) as [f Hf].
  set (r := reserved_total (team profile) (animal_id a)).
  rewrite (sellable_species_amount_view _ _ _ Hf). fold r.
  assert (Hs : forall m, sellable_amount profile (animal_id a) (mutation_name m)
                         = Some (sellable_of f r m)).
  { intros m. apply (sellable_amount_view _ _ _ _ Hf). }
  destruct (Z.max 0 (tier_sum f MUTATIONS - tier_sum r MUTATIONS) <=? 0)%Z eqn:E;
    [eexists _, _; split; [reflexivity|split; [discriminate|discriminate]]|].
  apply Z.leb_gt in E.
  pose proof (tier_sum_sellable f r MUTATIONS) as Hsum.
  destruct (choose_mutation_spec profile (animal_id a) (sellable_of f r) MUTATIONS Hs)
    as [(c & Hc & _ & Hpos & Hfirst)|[_ Hall]].
  - rewrite Hc. eexists _, _. split; [reflexivity|]. split; [discriminate|].
    intros slot' a' chosen' Heq. injection Heq as <- <- <-.
    split; [reflexivity|]. split; [reflexivity|]. split; [exact Hrole|].
    split; [exists (sellable_of f r c); split; [apply Hs|exact Hpos]|].
    split.
    + intros lower Hlt. rewrite Hs. f_equal.
      assert (sellable_of f r lower <= 0); [|unfold sellable_of in *; lia].
      destruct c, lower; cbn in Hlt; try lia;
        match goal with
        | |- sellable_of _ _ ?l <= 0 =>
            first
              [ apply (Hfirst [none] [diamond; emerald; rainbow] eq_refl)
              | apply (Hfirst [none; golden] [emerald; rainbow] eq_refl)
              | apply (Hfirst [none; golden; diamond] [rainbow] eq_refl)
              | apply (Hfirst [none; golden; diamond; emerald] [] eq_refl) ];
            cbn; intuition discriminate
        end.
    + cbn [save_profile users]. apply lookup_insert_eq.
  - exfalso.
    assert (tier_sum (sellable_of f r) MUTATIONS <= 0); [|lia].
    unfold tier_sum. cbn [MUTATIONS MUTATION_ORDER map fold_right].
    pose proof (Hall none). pose proof (Hall golden). pose proof (Hall diamond).
    pose proof (Hall emerald). pose proof (Hall rainbow).
    cbn [MUTATIONS MUTATION_ORDER In] in *. intuition lia.
Qed.

Definition spare_pigs : Profile :=
  _migrate_profile
    (mkProfile {[ "pig" := ZDict [("none", 2); ("golden", 3)] ]}
       (mkPerSlot (SlotDict [("animal_id", "pig"); ("mutation", "none")])
                  SlotNone SlotNone)).

Lemma allocate_sale_covers_witness :
  exists allocations,
    allocate_sale spare_pigs (add_animal_def COMMON TANK "pig" "🐖" 10 3 3 ["pig"]) 3
    = Allocations allocations /\
    fold_right Z.add 0 (map snd allocations) = 3 /\
    List.NoDup (map fst allocations) /\
    forall mutation portion,
      In (mutation, portion) allocations ->
      exists sellable,
        sellable_amount spare_pigs "pig" (mutation_name mutation) = Some sellable /\
        0 < portion <= sellable.
Proof.
  apply (allocate_sale_covers spare_pigs
           (add_animal_def COMMON TANK "pig" "🐖" 10 3 3 ["pig"]) 3 4);
    [apply migrate_profile_well_formed|vm_compute; reflexivity|lia].
Defined.


End Sale.

(** ** Laws of the combat resolver *)

Module CombatLaws.
Import Combat.

(** Health that an attack pass may leave: a slot at or below 0 is
    unchanged, a living slot keeps a health between 0 and what it had. *)
Definition wounded (before after : PerSlot Z) : Prop :=
  forall s,
    (sget before s <= 0 -> sget after s = sget before s) /\
    (0 < sget before s -> 0 <= sget after s <= sget before s).

Lemma wounded_refl d : wounded d d.
Proof. intros s. split; intros; lia. Qed.

Lemma wounded_trans a b c : wounded a b -> wounded b c -> wounded a c.
Proof.
  intros Hab Hbc s. destruct (Hab s) as [A1 A2], (Hbc s) as [B1 B2]. split.
  - intros H. rewrite B1; [now apply A1|]. rewrite A1; lia.
  - intros H. specialize (A2 H).
    destruct (Z.le_gt_cases (sget b s) 0) as [Hb|Hb].
    + rewrite (B1 Hb). lia.
    + specialize (B2 Hb). lia.
Qed.

Lemma wounded_total before after : wounded before after -> hp_total after <= hp_total before.
Proof.
  intros H. rewrite (hp_total_remaining before), (hp_total_remaining after).
  unfold remaining_health.
  destruct (H slot1) as [A1 A2], (H slot2) as [B1 B2], (H slot3) as [C1 C2].
  cbn [sget] in *. lia.
Qed.

Lemma hit_wounds d target dmg :
  0 < sget d target -> 1 <= dmg ->
  wounded d (sset d target (Z.max 0 (sget d target - dmg))) /\
  hp_total (sset d target (Z.max 0 (sget d target - dmg))) < hp_total d.
Proof.
  intros Ht Hd. split.
  - intros s. destruct (decide (target = s)) as [<-|Hne].
    + rewrite sget_sset_same. split; intros; lia.
    + rewrite (sget_sset_other d target s _ Hne). split; intros; lia.
  - rewrite (hp_total_remaining d), (hp_total_remaining (sset d target _)).
    unfold remaining_health.
    destruct d as [h1 h2 h3], target; cbn [sget sset at1 at2 at3] in *; lia.
Qed.

Lemma attack_loop_wounds slots attacker_hp attacker_stats defender_stats :
  forall d, wounded d (attack_loop slots attacker_hp attacker_stats d defender_stats).
Proof.
  induction slots as [|slot rest IH]; intros d; cbn [attack_loop].
  - apply wounded_refl.
  - destruct (sget attacker_hp slot <=? 0)%Z; [apply IH|].
    destruct (first_alive d) as [t|] eqn:Et; [|apply wounded_refl].
    apply first_alive_Some in Et as [Ht _].
    eapply wounded_trans; [|apply IH].
    apply hit_wounds; [exact Ht|lia].
Qed.

Lemma attack_loop_progress slots attacker_hp attacker_stats defender_stats :
  forall d,
    (exists s, In s slots /\ 0 < sget attacker_hp s) ->
    first_alive d <> None ->
    hp_total (attack_loop slots attacker_hp attacker_stats d defender_stats)
    < hp_total d.
Proof.
  induction slots as [|slot rest IH]; intros d (s & Hin & Hs) Hd; [destruct Hin|].
  cbn [attack_loop]. destruct (sget attacker_hp slot <=? 0)%Z eqn:E.
  - apply Z.leb_le in E. apply IH; [|exact Hd].
    exists s. split; [|exact Hs]. destruct Hin as [->|Hin]; [lia|exact Hin].
  - destruct (first_alive d) as [t|] eqn:Et; [|congruence].
    apply first_alive_Some in Et as [Ht _].
    set (dmg := Z.max 1 _).
    destruct (hit_wounds d t dmg Ht ltac:(lia)) as [_ Hlt].
    pose proof (wounded_total _ _
                  (attack_loop_wounds rest attacker_hp attacker_stats defender_stats
                     (sset d t (Z.max 0 (sget d t - dmg))))).
    lia.
Qed.

Lemma is_alive_true d : is_alive d = true <-> exists s, 0 < sget d s.
Proof.
  unfold is_alive. destruct (first_alive d) as [t|] eqn:E; split.
  - intros _. exists t. now apply first_alive_Some in E.
  - reflexivity.
  - discriminate.
  - intros [s Hs]. rewrite first_alive_None in E. specialize (E s). lia.
Qed.

Lemma is_alive_first d : is_alive d = true <-> first_alive d <> None.
Proof. unfold is_alive. destruct (first_alive d); split; congruence. Qed.

Lemma attack_phase_progress attacker_hp attacker_stats defender_hp defender_stats :
  is_alive attacker_hp = true -> is_alive defender_hp = true ->
  hp_total (attack_phase attacker_hp attacker_stats defender_hp defender_stats)
  < hp_total defender_hp.
Proof.
  intros Ha Hd. apply attack_loop_progress.
  - apply is_alive_true in Ha as [s Hs]. exists s. split; [|exact Hs].
    destruct s; cbn; auto.
  - now apply is_alive_first.
Qed.

(** X15: an attack pass only wounds: a defender slot at or below 0 keeps
    its health, a living slot ends between 0 and the health it had; and
    when both sides have a living slot the pass takes at least 1 from the
    defender's summed health. *)
Theorem attack_phase_only_wounds
    (attacker_hp : PerSlot Z) (attacker_stats : PerSlot Stats)
    (defender_hp : PerSlot Z) (defender_stats : PerSlot Stats) :
  let after := attack_phase attacker_hp attacker_stats defender_hp defender_stats in
  (forall s,
      (sget defender_hp s <= 0 -> sget after s = sget defender_hp s) /\
      (0 < sget defender_hp s -> 0 <= sget after s <= sget defender_hp s)) /\
  (is_alive attacker_hp = true -> is_alive defender_hp = true ->
   hp_total after + 1 <= hp_total defender_hp).
Proof.
  cbv zeta. split.
  - apply attack_loop_wounds.
  - intros Ha Hd.
    pose proof (attack_phase_progress attacker_hp attacker_stats defender_hp
                  defender_stats Ha Hd). lia.
Qed.

Lemma attack_phase_only_wounds_witness :
  hp_total (attack_phase (mkPerSlot 10 0 7) (mkPerSlot (10, 9, 2) (8, 20, 1) (7, 3, 3))
              (mkPerSlot 0 5 12) (mkPerSlot (9, 4, 3) (5, 4, 2) (12, 2, 1))) + 1
  <= hp_total (mkPerSlot 0 5 12).
Proof.
  apply (proj2 (attack_phase_only_wounds (mkPerSlot 10 0 7)
                  (mkPerSlot (10, 9, 2) (8, 20, 1) (7, 3, 3))
                  (mkPerSlot 0 5 12) (mkPerSlot (9, 4, 3) (5, 4, 2) (12, 2, 1))));
    reflexivity.
Defined.

(** *** The round loop *)

Section Fight.
Variables player_stats enemy_stats : PerSlot Stats.

Lemma round_loop_outcome fuel :
  forall rounds player_hp enemy_hp,
    0 <= rounds <= 100 ->
    100 - rounds <= Z.of_nat fuel ->
    is_alive player_hp = true \/ is_alive enemy_hp = true ->
    let '(rounds', player_hp', enemy_hp') :=
      round_loop player_stats enemy_stats fuel rounds player_hp enemy_hp in
    rounds <= rounds' <= 100 /\
    (is_alive player_hp = true -> is_alive enemy_hp = true -> rounds < 100 ->
     rounds < rounds') /\
    (is_alive player_hp' = true \/ is_alive enemy_hp' = true) /\
    (is_alive player_hp' = true -> is_alive enemy_hp' = true ->
     rounds' = 100 /\
     hp_total enemy_hp' + (100 - rounds) <= hp_total enemy_hp /\
     hp_total player_hp' + (100 - rounds) <= hp_total player_hp).
Proof.
  induction fuel as [|fuel IH]; intros rounds php ehp Hr Hf Hinv.
  - cbn [round_loop]. split; [lia|]. split; [lia|]. split; [exact Hinv|].
    intros _ _. lia.
  - cbn [round_loop].
    destruct (is_alive php) eqn:Ep; cbn [andb];
      [|rewrite ?Ep; split; [lia|]; split; [discriminate|]; split; [exact Hinv|];
        discriminate].
    destruct (is_alive ehp) eqn:Ee; cbn [andb];
      [|rewrite ?Ep, ?Ee; split; [lia|]; split; [discriminate|];
        split; [exact Hinv|]; intros _; discriminate].
    destruct (rounds <? 100)%Z eqn:Er;
      [apply Z.ltb_lt in Er
      |apply Z.ltb_ge in Er; rewrite ?Ep, ?Ee; split; [lia|]; split; [lia|];
       split; [exact Hinv|]; intros _ _; lia].
    pose proof (attack_phase_progress php player_stats ehp enemy_stats Ep Ee) as He1.
    set (ehp1 := attack_phase php player_stats ehp enemy_stats) in *.
    destruct (is_alive ehp1) eqn:Ee1; cbn [negb].
    + pose proof (attack_phase_progress ehp1 enemy_stats php player_stats Ee1 Ep) as Hp1.
      set (php1 := attack_phase ehp1 enemy_stats php player_stats) in *.
      specialize (IH (rounds + 1) php1 ehp1 ltac:(lia) ltac:(lia) ltac:(now right)).
      destruct (round_loop player_stats enemy_stats fuel (rounds + 1) php1 ehp1)
        as [[rounds' php'] ehp'].
      destruct IH as (I1 & _ & I3 & I4).
      split; [lia|]. split; [intros _ _ _; lia|]. split; [exact I3|].
      intros Hp He. destruct (I4 Hp He) as (-> & J1 & J2). split; [reflexivity|lia].
    + split; [lia|]. split; [intros _ _ _; lia|]. split; [now left|].
      intros _ X. rewrite Ee1 in X. discriminate.
Qed.

Lemma round_loop_dead fuel rounds player_hp enemy_hp :
  is_alive player_hp = false ->
  round_loop player_stats enemy_stats (S fuel) rounds player_hp enemy_hp
  = (rounds, player_hp, enemy_hp).
Proof. intros H. cbn [round_loop]. now rewrite H. Qed.

End Fight.

(** The health the two sides start with. *)
Definition starting_hp (stats : PerSlot Stats) : PerSlot Z :=
  mkPerSlot (stat_hp (at1 stats)) (stat_hp (at2 stats)) (stat_hp (at3 stats)).

Lemma resolve_combat_loop player_stats enemy_stats :
  resolve_combat player_stats enemy_stats
  = let '(rounds, player_hp, enemy_hp) :=
      round_loop player_stats enemy_stats 100 0
        (starting_hp player_stats) (starting_hp enemy_stats) in
    judge rounds player_hp enemy_hp.
Proof. reflexivity. Qed.

(** X16: a fight between two sides that each start with a living slot
    lasts between 1 and 100 rounds and ends in exactly one of three ways:
    the enemy has no living slot, the player has one and wins; the player
    has no living slot, the enemy has one and the player loses; or the cap
    of 100 rounds is reached with a living slot on both sides.  It never
    ends with both sides wiped out. *)
Theorem combat_ends_decided (player_stats enemy_stats : PerSlot Stats) :
  is_alive (starting_hp player_stats) = true ->
  is_alive (starting_hp enemy_stats) = true ->
  let r := resolve_combat player_stats enemy_stats in
  1 <= rounds_fought r <= 100 /\
  ((cap_reached r = false /\ is_alive (final_enemy_hp r) = false /\
    is_alive (final_player_hp r) = true /\ player_win r = true) \/
   (cap_reached r = false /\ is_alive (final_player_hp r) = false /\
    is_alive (final_enemy_hp r) = true /\ player_win r = false) \/
   (cap_reached r = true /\ rounds_fought r = 100 /\
    is_alive (final_player_hp r) = true /\ is_alive (final_enemy_hp r) = true)).
Proof.
  intros Hp He. cbv zeta. rewrite resolve_combat_loop.
  pose proof (round_loop_outcome player_stats enemy_stats 100 0
                (starting_hp player_stats) (starting_hp enemy_stats)
                ltac:(lia) ltac:(lia) ltac:(now left)) as H.
  destruct (round_loop player_stats enemy_stats 100 0 (starting_hp player_stats)
              (starting_hp enemy_stats)) as [[rounds php] ehp].
  destruct H as (H1 & H2 & H3 & H4). specialize (H2 Hp He ltac:(lia)).
  unfold judge.
  cbn [rounds_fought cap_reached player_win final_player_hp final_enemy_hp].
  split; [lia|].
  destruct (is_alive php) eqn:Ep, (is_alive ehp) eqn:Ee.
  - destruct (H4 eq_refl eq_refl) as (-> & _). right. right.
    cbn. repeat split; reflexivity.
  - left. rewrite andb_false_r. repeat split; reflexivity.
  - right. left. rewrite andb_false_r. cbn. repeat split; reflexivity.
  - destruct H3; discriminate.
Qed.

Lemma combat_ends_decided_witness :
  1 <= rounds_fought (resolve_combat sturdy sturdy) <= 100.
Proof.
  assert (H : is_alive (starting_hp sturdy) = true) by reflexivity.
  exact (proj1 (combat_ends_decided sturdy sturdy H H)).
Defined.

(** X17: when the cap of 100 rounds is reached, each side has lost at
    least 100 of its summed health: the cap is out of reach for a side
    that starts with a summed health of 100 or less. *)
Theorem round_cap_costs_health (player_stats enemy_stats : PerSlot Stats) :
  let r := resolve_combat player_stats enemy_stats in
  cap_reached r = true ->
  hp_total (final_player_hp r) + 100 <= hp_total (starting_hp player_stats) /\
  hp_total (final_enemy_hp r) + 100 <= hp_total (starting_hp enemy_stats) /\
  100 < hp_total (starting_hp player_stats) /\
  100 < hp_total (starting_hp enemy_stats).
Proof.
  cbv zeta. rewrite resolve_combat_loop.
  destruct (is_alive (starting_hp player_stats)) eqn:Ep0;
    [|change 100%nat with (S 99);
      rewrite (round_loop_dead player_stats enemy_stats 99 0 _ _ Ep0);
      unfold judge; cbn [cap_reached]; rewrite Ep0; discriminate].
  pose proof (round_loop_outcome player_stats enemy_stats 100 0
                (starting_hp player_stats) (starting_hp enemy_stats)
                ltac:(lia) ltac:(lia) ltac:(now left)) as H.
  destruct (round_loop player_stats enemy_stats 100 0 (starting_hp player_stats)
              (starting_hp enemy_stats)) as [[rounds php] ehp].
  destruct H as (_ & _ & _ & H4).
  unfold judge.
  cbn [rounds_fought cap_reached player_win final_player_hp final_enemy_hp].
  intros Hc. apply andb_prop in Hc as [Hc He]. apply andb_prop in Hc as [_ Hp].
  destruct (H4 Hp He) as (_ & J1 & J2).
  assert (0 < hp_total php).
  { apply is_alive_true in Hp as [s Hs]. rewrite hp_total_remaining.
    unfold remaining_health. destruct s; cbn [sget] in Hs; lia. }
  assert (0 < hp_total ehp).
  { apply is_alive_true in He as [s Hs]. rewrite hp_total_remaining.
    unfold remaining_health. destruct s; cbn [sget] in Hs; lia. }
  lia.
Qed.

Lemma round_cap_costs_health_witness :
  100 < hp_total (starting_hp sturdy).
Proof.
  assert (H : cap_reached (resolve_combat sturdy sturdy) = true)
    by (vm_compute; reflexivity).
  exact (proj1 (proj2 (proj2 (round_cap_costs_health sturdy sturdy H)))).
Defined.

End CombatLaws.

(** ** Laws of the difficulty window and of the rewards *)

Module WindowLaws.
Import Window.

Lemma window_pct_bounds foods mutations :
  (125 # 2 <= fst (window_pct foods mutations))%Q /\
  (fst (window_pct foods mutations) <= 80)%Q /\
  (130 <= snd (window_pct foods mutations))%Q /\
  (snd (window_pct foods mutations) <= 150)%Q.
Proof.
  destruct mutations as [[] [] []], foods as [[?|] [?|] [?|]];
    vm_compute; repeat split; discriminate.
Qed.

Lemma difficulty_window_pct power foods mutations :
  difficulty_window power foods mutations
  = ((power * (fst (window_pct foods mutations) / 100))%Q,
     (power * (snd (window_pct foods mutations) / 100))%Q).
Proof.
  unfold difficulty_window. destruct (window_pct foods mutations). reflexivity.
Qed.

(** X18: whatever the items and mutations of the requester, the lower
    percentage of the window lies between 62.5 and 80 and the upper one
    between 130 and 150 (the floors at 0 are never reached); so for a
    requester power that is not negative the window is not empty and holds
    the requester's own power. *)
Theorem window_brackets_requester
    (power : Q) (foods : PerSlot (option Food)) (mutations : PerSlot Mutation) :
  (0 <= power)%Q ->
  let pct := window_pct foods mutations in
  let win := difficulty_window power foods mutations in
  (125 # 2 <= fst pct)%Q /\ (fst pct <= 80)%Q /\
  (130 <= snd pct)%Q /\ (snd pct <= 150)%Q /\
  (fst win <= power)%Q /\ (power <= snd win)%Q.
Proof.
  intros Hp. cbv zeta. rewrite difficulty_window_pct. cbn [fst snd].
  destruct (window_pct_bounds foods mutations) as (H1 & H2 & H3 & H4).
  split; [exact H1|]. split; [exact H2|]. split; [exact H3|]. split; [exact H4|].
  set (lo := fst (window_pct foods mutations)) in *.
  set (hi := snd (window_pct foods mutations)) in *.
  assert (0 <= power * (100 - lo))%Q by (apply Qmult_le_0_compat; lra).
  assert (0 <= power * (hi - 100))%Q by (apply Qmult_le_0_compat; lra).
  unfold Qdiv. change (/ 100)%Q with (1 # 100)%Q. split; lra.
Qed.

Lemma window_brackets_requester_witness :
  (fst (difficulty_window 1068 (mkPerSlot None None None)
          (mkPerSlot rainbow none golden)) <= 1068)%Q /\
  (1068 <= snd (difficulty_window 1068 (mkPerSlot None None None)
                  (mkPerSlot rainbow none golden)))%Q.
Proof.
  assert (H : (0 <= 1068)%Q) by discriminate.
  exact (proj2 (proj2 (proj2 (proj2
           (window_brackets_requester 1068 (mkPerSlot None None None)
              (mkPerSlot rainbow none golden) H))))).
Defined.

End WindowLaws.

Module RewardLaws.
Import PowerModel Rewards.

Lemma py_round_mono x y : (x <= y)%Q -> py_round x <= py_round y.
Proof.
  intros Hxy. unfold py_round.
  pose proof (Qfloor_resp_le x y Hxy) as Hf.
  pose proof (Qfloor_le x) as Hx1. pose proof (Qlt_floor x) as Hx2.
  pose proof (Qfloor_le y) as Hy1. pose proof (Qlt_floor y) as Hy2.
  destruct (Z.eq_dec (Qfloor x) (Qfloor y)) as [E|E].
  - rewrite <- E in *.
    destruct (x - inject_Z (Qfloor x) ?= 1 # 2)%Q eqn:Ex;
      destruct (y - inject_Z (Qfloor x) ?= 1 # 2)%Q eqn:Ey;
      try (destruct (Z.even (Qfloor x))); try lia; exfalso;
      repeat match goal with
             | H : (_ ?= _)%Q = Eq |- _ => apply Qeq_alt in H
             | H : (_ ?= _)%Q = Lt |- _ => apply Qlt_alt in H
             | H : (_ ?= _)%Q = Gt |- _ => apply Qgt_alt in H
             end;
      lra.
  - destruct (x - inject_Z (Qfloor x) ?= 1 # 2)%Q;
      destruct (y - inject_Z (Qfloor y) ?= 1 # 2)%Q;
      try (destruct (Z.even (Qfloor x))); try (destruct (Z.even (Qfloor y))); lia.
Qed.

Lemma Qmult_le_nonneg_l x y z : (x <= y)%Q -> (0 <= z)%Q -> (z * x <= z * y)%Q.
Proof.
  intros H Hz. rewrite (Qmult_comm z x), (Qmult_comm z y).
  now apply Qmult_le_compat_r.
Qed.

Lemma coins_reward_mono x y : (x <= y)%Q -> coins_reward x <= coins_reward y.
Proof.
  intros H. unfold coins_reward.
  assert (py_round (inject_Z 10 * x) <= py_round (inject_Z 10 * y)); [|lia].
  apply py_round_mono. apply Qmult_le_nonneg_l; [exact H|discriminate].
Qed.

Lemma weight_pos r : (0 < RARITY_COIN_WEIGHT r)%Q.
Proof. destruct r; reflexivity. Qed.

Lemma multiplier_ge_1 m : (1 <= mutation_multiplier_value m)%Q.
Proof. destruct m; discriminate. Qed.

(** The factor that scales the base reward on a win. *)
Definition win_factor (player_animals : PerSlot Animal)
    (player_foods : PerSlot (option Food)) (player_mutations : PerSlot Mutation) : Q :=
  let w s := RARITY_COIN_WEIGHT (rarity (sget player_animals s)) in
  let f s :=
    (1 + (mutation_multiplier_value (sget player_mutations s) - 1) * (7 # 20)
     + ((match sget player_foods s with Some _ => 21 # 20 | None => 1 end) - 1) * (1 # 2))%Q in
  (((0 + w slot1 + w slot2 + w slot3) / 3)
   * Qmin ((0 + f slot1 + f slot2 + f slot3) / 3) (8 # 5))%Q.

Lemma win_factor_nonneg animals foods mutations :
  (0 <= win_factor animals foods mutations)%Q.
Proof.
  unfold win_factor.
  pose proof (weight_pos (rarity (sget animals slot1))).
  pose proof (weight_pos (rarity (sget animals slot2))).
  pose proof (weight_pos (rarity (sget animals slot3))).
  pose proof (multiplier_ge_1 (sget mutations slot1)).
  pose proof (multiplier_ge_1 (sget mutations slot2)).
  pose proof (multiplier_ge_1 (sget mutations slot3)).
  apply Qmult_le_0_compat.
  - unfold Qdiv. apply Qmult_le_0_compat; [lra|discriminate].
  - apply Q.min_glb; [|discriminate].
    unfold Qdiv. apply Qmult_le_0_compat; [|discriminate].
    destruct (sget foods slot1), (sget foods slot2), (sget foods slot3); lra.
Qed.

Lemma coin_gain_win animals foods mutations enemy_power :
  coin_gain (battle_reward animals foods mutations enemy_power true)
  = Z.max 5 (py_round
               (inject_Z (base_coins (battle_reward animals foods mutations
                                        enemy_power true))
                * win_factor animals foods mutations)).
Proof.
  unfold battle_reward. cbn [coin_gain base_coins fold_left SLOTS app].
  f_equal. apply py_round_proper.
  unfold win_factor, Qsum, Qlen. cbn [fold_left length].
  change (inject_Z (Z.of_nat 3)) with 3%Q.
  rewrite <- Qmult_assoc. reflexivity.
Qed.

(** X19: the rewards never fall when the opponent is stronger: for a
    catalog team, the base coin reward and the coins credited (on a win or
    a loss) for an opponent of power e2 are at least those for an opponent
    of power e1 <= e2; the base reward is never below 5 and a win never
    credits less than 5 coins. *)
Theorem rewards_grow_with_enemy_power
    (animals : PerSlot Animal) (foods : PerSlot (option Food))
    (mutations : PerSlot Mutation) (e1 e2 : Q) (win : bool) :
  catalog_team animals foods ->
  (e1 <= e2)%Q ->
  let r1 := battle_reward animals foods mutations e1 win in
  let r2 := battle_reward animals foods mutations e2 win in
  base_coins r1 <= base_coins r2 /\
  coin_gain r1 <= coin_gain r2 /\
  5 <= base_coins r1 /\
  (win = true -> 5 <= coin_gain r1).
Proof.
  intros Hc He. cbv zeta.
  pose proof (catalog_player_power_pos animals foods mutations Hc) as Hpos.
  assert (Hb : forall e,
             base_coins (battle_reward animals foods mutations e win)
             = coins_reward (e / player_power animals foods mutations)).
  { intros e. unfold battle_reward. cbn [base_coins].
    apply Qltb_lt in Hpos. now rewrite Hpos. }
  assert (Hmono : base_coins (battle_reward animals foods mutations e1 win)
                  <= base_coins (battle_reward animals foods mutations e2 win)).
  { rewrite !Hb. apply coins_reward_mono. unfold Qdiv.
    apply Qmult_le_compat_r; [exact He|].
    apply Qlt_le_weak, Qinv_lt_0_compat, Hpos. }
  split; [exact Hmono|].
  assert (H5 : 5 <= base_coins (battle_reward animals foods mutations e1 win)).
  { rewrite Hb. unfold coins_reward. lia. }
  destruct win.
  - rewrite !coin_gain_win. split; [|split; [exact H5|intros _; lia]].
    assert (py_round (inject_Z (base_coins (battle_reward animals foods mutations
                                              e1 true))
                      * win_factor animals foods mutations)
            <= py_round (inject_Z (base_coins (battle_reward animals foods mutations
                                                 e2 true))
                         * win_factor animals foods mutations)); [|lia].
    apply py_round_mono. apply Qmult_le_compat_r; [|apply win_factor_nonneg].
    rewrite <- Zle_Qle. exact Hmono.
  - split; [reflexivity|]. split; [exact H5|discriminate].
Qed.

Lemma rewards_grow_with_enemy_power_witness :
  base_coins (battle_reward barnyard (mkPerSlot None None None)
                (mkPerSlot none none none) 50 true)
  <= base_coins (battle_reward barnyard (mkPerSlot None None None)
                   (mkPerSlot none none none) 60 true).
Proof.
  assert (H : (50 <= 60)%Q) by discriminate.
  exact (proj1 (rewards_grow_with_enemy_power barnyard (mkPerSlot None None None)
                  (mkPerSlot none none none) 50 60 true barnyard_catalog H)).
Defined.

End RewardLaws.

(** ** Laws of the opponent synthesizer *)

Module SynthLaws.
Import PowerModel Synth.

(** *** Draws that cannot fail *)

Lemma choice_total {A} (seq : list A) src n :
  seq <> [] -> (0 <= src n)%Q -> (src n < 1)%Q ->
  exists x, choice seq src n = Ok (x, S n) /\ In x seq.
Proof.
  intros Hne H0 H1. unfold choice, bind, random.
  set (L := Z.of_nat (length seq)).
  assert (HL : 0 < L) by (unfold L; destruct seq; [congruence|cbn; lia]).
  assert (Hlo : 0 <= Qfloor (src n * inject_Z L)).
  { change 0 with (Qfloor 0). apply Qfloor_resp_le.
    apply Qmult_le_0_compat; [exact H0|]. change 0%Q with (inject_Z 0).
    rewrite <- Zle_Qle. lia. }
  assert (Hhi : Qfloor (src n * inject_Z L) < L).
  { rewrite Zlt_Qlt. eapply Qle_lt_trans; [apply Qfloor_le|].
    assert (HLq : (0 < inject_Z L)%Q)
      by (change 0%Q with (inject_Z 0); rewrite <- Zlt_Qlt; exact HL).
    assert (0 < (1 - src n) * inject_Z L)%Q
      by (apply Qmult_lt_0_compat; [lra|exact HLq]).
    lra. }
  destruct (nth_error seq (Z.to_nat (Qfloor (src n * inject_Z L)))) as [x|] eqn:E.
  - exists x. split; [reflexivity|]. eapply nth_error_In, E.
  - exfalso. apply nth_error_None in E. unfold L in *. lia.
Qed.

(** The candidates of [random_animal_by_rarity_and_role]. *)
Definition candidates_for (allowed_indices : list Z) (r : Role) : list Animal :=
  List.filter
    (fun a => (bool_decide (role a = r)
               && existsb (Z.eqb (rarity_index a)) allowed_indices)%bool)
    ANIMALS.

Lemma random_animal_choice allowed_indices r :
  random_animal_by_rarity_and_role allowed_indices r
  = choice (candidates_for allowed_indices r).
Proof. unfold random_animal_by_rarity_and_role, candidates_for. exact eq_refl. Qed.

Lemma catalog_rarity_index a : In a ANIMALS -> 0 <= rarity_index a <= 6.
Proof.
  assert (H : Forall (fun a => 0 <= rarity_index a <= 6) ANIMALS)
    by (repeat constructor; cbn; lia).
  rewrite Forall_forall in H. intros Ha. apply H, list_elem_of_In, Ha.
Qed.

(** The sets of allowed rarities that a catalog team can give. *)
Definition rarity_bands : list (list Z) :=
  [[0; 1]; [0; 1; 2]; [1; 2; 3]; [2; 3; 4]; [3; 4; 5]; [4; 5; 6]; [5; 6]].

Lemma allowed_indices_band player_animals :
  (forall s, In (sget player_animals s) ANIMALS) ->
  In (allowed_indices_of player_animals) rarity_bands.
Proof.
  intros Hc. unfold allowed_indices_of, values, items.
  cbn [map SLOTS snd fold_left].
  pose proof (catalog_rarity_index _ (Hc slot1)) as H1.
  pose proof (catalog_rarity_index _ (Hc slot2)) as H2.
  pose proof (catalog_rarity_index _ (Hc slot3)) as H3.
  set (total := 0 + rarity_index (sget player_animals slot1)
                + rarity_index (sget player_animals slot2)
                + rarity_index (sget player_animals slot3)).
  assert (H : total = 0 \/ total = 1 \/ total = 2 \/ total = 3 \/ total = 4 \/
              total = 5 \/ total = 6 \/ total = 7 \/ total = 8 \/ total = 9 \/
              total = 10 \/ total = 11 \/ total = 12 \/ total = 13 \/ total = 14 \/
              total = 15 \/ total = 16 \/ total = 17 \/ total = 18)
    by (unfold total; lia).
  clearbody total.
  repeat (destruct H as [H|H]); subst total; vm_compute;
    repeat (first [left; reflexivity|right]).
Qed.

Lemma band_is_served allowed_indices r :
  In allowed_indices rarity_bands -> candidates_for allowed_indices r <> [].
Proof.
  unfold rarity_bands. cbn [In]. intros H.
  repeat (destruct H as [H|H]); try contradiction; subst allowed_indices;
    destruct r; vm_compute; discriminate.
Qed.

Definition valid_stream (src : nat -> Q) : Prop :=
  forall k, (0 <= src k)%Q /\ (src k < 1)%Q.

Definition served (allowed_indices : list Z) : Prop :=
  forall r, candidates_for allowed_indices r <> [].

Section Total.
Variable src : nat -> Q.
Hypothesis Hsrc : valid_stream src.
Variable allowed_indices : list Z.
Hypothesis Hserved : served allowed_indices.

Lemma random_animal_total r n :
  exists a, random_animal_by_rarity_and_role allowed_indices r src n = Ok (a, S n).
Proof.
  rewrite random_animal_choice.
  destruct (choice_total (candidates_for allowed_indices r) src n (Hserved r)
              (proj1 (Hsrc n)) (proj2 (Hsrc n))) as (a & Ha & _).
  now exists a.
Qed.

Lemma random_enemy_food_total animal n :
  exists food n', random_enemy_food animal src n = Ok (food, n').
Proof.
  unfold random_enemy_food, bind at 1, random.
  destruct (Qleb (7 # 20) (src n)); [eexists _, _; reflexivity|].
  set (candidates := match List.filter _ FOODS with [] => FOODS | _ => _ end).
  assert (Hne : candidates <> []).
  { unfold candidates. destruct (List.filter _ FOODS); discriminate. }
  destruct (choice_total candidates src (S n) Hne (proj1 (Hsrc (S n)))
              (proj2 (Hsrc (S n)))) as (f & Hf & _).
  unfold bind. rewrite Hf. eexists _, _. reflexivity.
Qed.

Lemma random_enemy_mutation_total n :
  exists m, random_enemy_mutation src n = Ok (m, S n).
Proof.
  unfold random_enemy_mutation, bind, random.
  repeat match goal with |- context [Qltb ?x ?y] => destruct (Qltb x y) end;
    eexists; reflexivity.
Qed.

Lemma draw_candidate_total n :
  exists c n', draw_candidate allowed_indices src n = Ok (c, n').
Proof.
  unfold draw_candidate.
  destruct (random_animal_total TANK n) as [a1 H1]. unfold bind at 1. rewrite H1.
  destruct (random_animal_total ATTACK (S n)) as [a2 H2]. unfold bind at 1. rewrite H2.
  destruct (random_animal_total SUPPORT (S (S n))) as [a3 H3].
  unfold bind at 1. rewrite H3.
  destruct (random_enemy_food_total a1 (S (S (S n)))) as (f1 & k1 & F1).
  unfold bind at 1. rewrite F1.
  destruct (random_enemy_food_total a2 k1) as (f2 & k2 & F2).
  unfold bind at 1. rewrite F2.
  destruct (random_enemy_food_total a3 k2) as (f3 & k3 & F3).
  unfold bind at 1. rewrite F3.
  destruct (random_enemy_mutation_total k3) as [m1 M1]. unfold bind at 1. rewrite M1.
  destruct (random_enemy_mutation_total (S k3)) as [m2 M2]. unfold bind at 1. rewrite M2.
  destruct (random_enemy_mutation_total (S (S k3))) as [m3 M3].
  unfold bind at 1. rewrite M3.
  eexists _, _. reflexivity.
Qed.

Lemma sample_loop_total k :
  forall target_min target_max last_signature st n,
    exists st' n',
      sample_loop k allowed_indices target_min target_max last_signature st src n
      = Ok (st', n').
Proof.
  induction k as [|k IH]; intros target_min target_max last_signature st n.
  - eexists _, _. reflexivity.
  - cbn [sample_loop]. destruct (draw_candidate_total n) as (c & n1 & Hc).
    unfold bind at 1. rewrite Hc.
    destruct (_ && _)%bool; [eexists _, _; reflexivity|]. apply IH.
Qed.

Lemma slots_choice_total {A} (d : PerSlot A) n :
  exists slot, choice (map fst (items d)) src n = Ok (slot, S n).
Proof.
  destruct (choice_total (map fst (items d)) src n ltac:(discriminate)
              (proj1 (Hsrc n)) (proj2 (Hsrc n))) as (slot & H & _).
  now exists slot.
Qed.

Lemma reroll_total above t n :
  exists s n', reroll allowed_indices above t src n = Ok (s, n').
Proof.
  unfold reroll.
  destruct (slots_choice_total (animals t) n) as [slot Hs]. unfold bind at 1. rewrite Hs.
  destruct (random_animal_total (role (sget (animals t) slot)) (S n)) as [a Ha].
  unfold bind at 1. rewrite Ha.
  destruct above.
  - eexists _, _. reflexivity.
  - destruct (random_enemy_food_total a (S (S n))) as (f & k & Hf).
    unfold bind at 1. rewrite Hf.
    destruct (random_enemy_mutation_total k) as [m Hm]. unfold bind at 1. rewrite Hm.
    eexists _, _. reflexivity.
Qed.

Lemma add_missing_food_total animals foods n :
  exists r n', _add_missing_food animals foods src n = Ok (r, n').
Proof.
  unfold _add_missing_food.
  destruct (map fst (List.filter _ (items foods))) as [|s0 rest] eqn:E;
    [eexists _, _; reflexivity|].
  destruct (choice_total (s0 :: rest) src n ltac:(discriminate)
              (proj1 (Hsrc n)) (proj2 (Hsrc n))) as (slot & Hs & _).
  unfold bind at 1. rewrite Hs.
  destruct (random_enemy_food_total (sget animals slot) (S n)) as (f & k & Hf).
  unfold bind at 1. rewrite Hf. eexists _, _. reflexivity.
Qed.

Lemma repair_iteration_total target_min target_max t n :
  exists s n', repair_iteration allowed_indices target_min target_max t src n = Ok (s, n').
Proof.
  unfold repair_iteration.
  destruct (in_window target_min target_max (team_power t));
    [eexists _, _; reflexivity|].
  destruct (Qltb target_max (team_power t)).
  - destruct (_remove_highest_food (foods t)) as [[|] fs'];
      [eexists _, _; reflexivity|].
    destruct (_downgrade_mutation (mutations t)) as [[|] ms'];
      [eexists _, _; reflexivity|].
    apply reroll_total.
  - destruct (add_missing_food_total (animals t) (foods t) n) as ([ok fs'] & k & Ha).
    unfold bind at 1. rewrite Ha.
    destruct ok; [eexists _, _; reflexivity|].
    destruct (_upgrade_mutation (mutations t)) as [[|] ms'];
      [eexists _, _; reflexivity|].
    apply reroll_total.
Qed.

Lemma first_loop_total target_min target_max k :
  forall t n,
    exists r n',
      iterate k (repair_iteration allowed_indices target_min target_max) t src n
      = Ok (r, n').
Proof.
  induction k as [|k IH]; intros t n; cbn [iterate].
  - eexists _, _. reflexivity.
  - destruct (repair_iteration_total target_min target_max t n) as (s & n1 & Hs).
    unfold bind at 1. rewrite Hs.
    destruct s as [p|t']; [eexists _, _; reflexivity|apply IH].
Qed.

End Total.

(** X20: for a requester team taken from the catalog and random draws
    in [0, 1), no draw of the sampling phase and no iteration of the first
    repair loop raises: every allowed set of rarities has a unit of each
    role, the food pool and the slot lists are never empty. *)
Theorem sampling_and_first_loop_never_raise
    (player_animals : PerSlot Animal) (src : nat -> Q) :
  (forall s, In (sget player_animals s) ANIMALS) ->
  (forall k, (0 <= src k)%Q /\ (src k < 1)%Q) ->
  let allowed_indices := allowed_indices_of player_animals in
  (forall r n,
      exists a, random_animal_by_rarity_and_role allowed_indices r src n = Ok (a, S n)) /\
  (forall k target_min target_max last_signature st n,
      exists st' n',
        sample_loop k allowed_indices target_min target_max last_signature st src n
        = Ok (st', n')) /\
  (forall k target_min target_max t n,
      exists r n',
        iterate k (repair_iteration allowed_indices target_min target_max) t src n
        = Ok (r, n')).
Proof.
  intros Hc Hsrc. cbv zeta.
  assert (Hs : served (allowed_indices_of player_animals)).
  { intros r. apply band_is_served, allowed_indices_band, Hc. }
  split; [intros r n; now apply random_animal_total|].
  split.
  - intros k. now apply sample_loop_total.
  - intros k target_min target_max. now apply first_loop_total.
Qed.

Lemma sampling_and_first_loop_never_raise_witness :
  exists a,
    random_animal_by_rarity_and_role (allowed_indices_of Rewards.barnyard) ATTACK
      (fun _ => 1 # 2) 0%nat
    = Ok (a, 1%nat).
Proof.
  assert (Hc : forall s, In (sget Rewards.barnyard s) ANIMALS).
  { intros s. apply (proj1 (Rewards.barnyard_catalog s)). }
  assert (Hs : forall k : nat, (0 <= 1 # 2)%Q /\ (1 # 2 < 1)%Q).
  { intros _. split; [discriminate|reflexivity]. }
  exact (proj1 (sampling_and_first_loop_never_raise Rewards.barnyard
                  (fun _ => 1 # 2) Hc Hs) ATTACK 0%nat).
Defined.

(** *** The line-up of every opponent *)

(** The role drawn for each slot by the sampling loop of [battle]. *)
Definition slot_role (slot : Slot) : Role :=
  match slot with slot1 => TANK | slot2 => ATTACK | slot3 => SUPPORT end.

Definition lineup (allowed_indices : list Z) (t : Team) : Prop :=
  (forall slot,
      In (sget (animals t) slot) ANIMALS /\
      role (sget (animals t) slot) = slot_role slot /\
      In (rarity_index (sget (animals t) slot)) allowed_indices) /\
  catalog_foods (foods t).

Lemma catalog_foods_sset fs slot food :
  catalog_foods fs -> (forall f, food = Some f -> In f FOODS) ->
  catalog_foods (sset fs slot food).
Proof.
  intros Hc Hf s f H. destruct (decide (slot = s)) as [->|Hne].
  - rewrite sget_sset_same in H. apply Hf, H.
  - rewrite sget_sset_other in H by exact Hne. apply (Hc s f H).
Qed.

Lemma lineup_items allowed_indices t fs ms :
  lineup allowed_indices t -> catalog_foods fs ->
  lineup allowed_indices (mkTeam (animals t) fs ms).
Proof. intros [Ha _] Hf. split; [exact Ha|exact Hf]. Qed.

Lemma lineup_reroll allowed_indices t slot animal fs ms :
  lineup allowed_indices t ->
  In animal ANIMALS -> role animal = role (sget (animals t) slot) ->
  In (rarity_index animal) allowed_indices ->
  catalog_foods fs ->
  lineup allowed_indices (mkTeam (sset (animals t) slot animal) fs ms).
Proof.
  intros [Ha _] H1 H2 H3 Hf. split; [|exact Hf].
  intros s. cbn [animals]. destruct (decide (slot = s)) as [->|Hne].
  - rewrite sget_sset_same. split; [exact H1|]. split; [|exact H3].
    rewrite H2. apply (Ha s).
  - rewrite sget_sset_other by exact Hne. apply (Ha s).
Qed.

(** What a pass may draw from: the rarities of the first loop, the item
    and the two pinned rarities of the final loop. *)
Definition pass_within (allowed_indices : list Z) (pass : Pass) : Prop :=
  match pass with
  | FirstPass indices => indices = allowed_indices
  | FinalPass strongest_food weakest_index strongest_index =>
      In strongest_food FOODS /\ In weakest_index allowed_indices /\
      In strongest_index allowed_indices
  end.

Lemma rerolls_lineup allowed_indices above t t' :
  lineup allowed_indices t -> rerolls allowed_indices above t t' ->
  lineup allowed_indices t'.
Proof.
  intros Hl (slot & animal & food & mutation & H1 & H2 & H3 & Hf & _ & ->).
  apply lineup_reroll; try assumption.
  apply catalog_foods_sset; [apply Hl|exact Hf].
Qed.

Lemma pinned_rerolls_lineup allowed_indices sf wi si above t t' :
  pass_within allowed_indices (FinalPass sf wi si) ->
  lineup allowed_indices t -> pinned_rerolls sf wi si above t t' ->
  lineup allowed_indices t'.
Proof.
  intros (Hsf & Hwi & Hsi) Hl (slot & animal & H1 & H2 & H3 & ->).
  apply lineup_reroll; try assumption.
  - rewrite H3. destruct above; assumption.
  - apply catalog_foods_sset; [apply Hl|].
    destruct above; intros f E; [discriminate|]. injection E as <-. exact Hsf.
Qed.

Lemma pass_iteration_lineup allowed_indices pass target_min target_max t src n t' n' :
  pass_within allowed_indices pass -> lineup allowed_indices t ->
  pass_iteration pass target_min target_max t src n = Ok (Next t', n') ->
  lineup allowed_indices t'.
Proof.
  intros Hp Hl H.
  assert (Hc : catalog_foods (foods t)) by apply Hl.
  destruct pass as [indices|sf wi si]; cbn [pass_iteration] in H;
    [cbn [pass_within] in Hp; subst indices; unfold repair_iteration in H
    |unfold enforce_iteration in H].
  all: destruct (in_window target_min target_max (team_power t));
    [apply ret_Ok in H as [H _]; discriminate|].
  all: destruct (Qltb target_max (team_power t)).
  1, 3: (* above the maximum *)
    pose proof (remove_highest_food_spec (foods t) Hc) as Hrem;
    destruct (_remove_highest_food (foods t)) as [[|] fs'];
    [ destruct Hrem as (slot & f & _ & _ & ->);
      apply ret_Ok in H as [H _]; injection H as ->;
      apply lineup_items; [exact Hl|];
      apply catalog_foods_sset; [exact Hc|discriminate]
    | destruct Hrem as [-> _];
      destruct (_downgrade_mutation (mutations t)) as [[|] ms'];
      [ apply ret_Ok in H as [H _]; injection H as ->;
        apply lineup_items; assumption
      | ] ].
  - apply reroll_spec in H as (t1 & E & Hr). injection E as <-.
    eapply rerolls_lineup; [|exact Hr]. apply lineup_items; assumption.
  - destruct (pinned_reroll_spec sf wi si true
                (mkTeam (animals t) (foods t) ms') src n (Next t') n' H)
      as (t1 & E & Hr).
    injection E as <-.
    eapply pinned_rerolls_lineup; [exact Hp| |exact Hr].
    apply lineup_items; assumption.
  - (* first loop, below the minimum *)
    apply bind_Ok in H as ([ok fs'] & n1 & Hadd & H).
    apply add_missing_food_spec in Hadd as [Hyes Hno].
    destruct ok.
    + apply ret_Ok in H as [H _]. injection H as ->.
      destruct (Hyes eq_refl) as (slot & f & _ & Hf & ->).
      apply lineup_items; [exact Hl|].
      apply catalog_foods_sset; [exact Hc|]. intros g E. injection E as <-. exact Hf.
    + rewrite (Hno eq_refl) in H.
      destruct (_upgrade_mutation (mutations t)) as [[|] ms'].
      * apply ret_Ok in H as [H _]. injection H as ->.
        apply lineup_items; assumption.
      * apply reroll_spec in H as (t1 & E & Hr). injection E as <-.
        eapply rerolls_lineup; [|exact Hr]. apply lineup_items; assumption.
  - (* final loop, below the minimum *)
    apply bind_Ok in H as ([ok fs'] & n1 & Hadd & H).
    apply add_missing_food_spec in Hadd as [Hyes Hno].
    destruct ok.
    + apply ret_Ok in H as [H _]. injection H as ->.
      destruct (Hyes eq_refl) as (slot & f & _ & Hf & ->).
      apply lineup_items; [exact Hl|].
      apply catalog_foods_sset; [exact Hc|]. intros g E. injection E as <-. exact Hf.
    + rewrite (Hno eq_refl) in H.
      destruct (_upgrade_mutation (mutations t)) as [[|] ms'].
      * apply ret_Ok in H as [H _]. injection H as ->.
        apply lineup_items; assumption.
      * destruct (pinned_reroll_spec sf wi si false
                    (mkTeam (animals t) (foods t) ms') src n1 (Next t') n' H)
          as (t1 & E & Hr).
        injection E as <-.
        eapply pinned_rerolls_lineup; [exact Hp| |exact Hr].
        apply lineup_items; assumption.
Qed.

Lemma iterate_lineup allowed_indices pass target_min target_max k :
  pass_within allowed_indices pass ->
  forall t src n r t' n',
    lineup allowed_indices t ->
    iterate k (pass_iteration pass target_min target_max) t src n = Ok ((r, t'), n') ->
    lineup allowed_indices t'.
Proof.
  intros Hp. induction k as [|k IH]; intros t src n r t' n' Hl H; cbn [iterate] in H.
  - apply ret_Ok in H as [H _]. injection H as _ ->. exact Hl.
  - apply bind_Ok in H as ([q|t1] & n1 & Hb & H).
    + apply ret_Ok in H as [H _]. injection H as _ ->. exact Hl.
    + eapply IH; [|exact H]. eapply pass_iteration_lineup; eauto.
Qed.

Lemma list_min_In l x : list_min l = Some x -> In x l.
Proof.
  destruct l as [|y r]; [discriminate|]. cbn [list_min]. intros H. injection H as <-.
  revert y. induction r as [|z r IH]; intros y; cbn [fold_left]; [left; reflexivity|].
  destruct (IH (Z.min y z)) as [E|Hin].
  - destruct (Z.min_spec y z) as [[_ E']|[_ E']];
      [left|right; left]; congruence.
  - right. right. exact Hin.
Qed.

Lemma list_max_In l x : list_max l = Some x -> In x l.
Proof.
  destruct l as [|y r]; [discriminate|]. cbn [list_max]. intros H. injection H as <-.
  revert y. induction r as [|z r IH]; intros y; cbn [fold_left]; [left; reflexivity|].
  destruct (IH (Z.max y z)) as [E|Hin].
  - destruct (Z.max_spec y z) as [[_ E']|[_ E']];
      [right; left|left]; congruence.
  - right. right. exact Hin.
Qed.

Lemma lift_Ok {A} (o : option A) src n a n' : lift o src n = Ok (a, n') -> o = Some a.
Proof.
  destruct o; cbn [lift]; [|discriminate].
  intros H. apply ret_Ok in H as [-> _]. reflexivity.
Qed.

Lemma strongest_food_catalog f : max_by_power FOODS = Some f -> In f FOODS.
Proof.
  intros H. assert (E : Some f = Some dragons_feast) by (rewrite <- H; reflexivity).
  injection E as ->. cbn. repeat (first [left; reflexivity|right]).
Qed.

Lemma adjust_enemy_team_lineup allowed_indices target_min target_max t src n p t' n' :
  lineup allowed_indices t ->
  adjust_enemy_team t allowed_indices target_min target_max src n = Ok ((p, t'), n') ->
  lineup allowed_indices t'.
Proof.
  intros Hl H. unfold adjust_enemy_team in H.
  apply bind_Ok in H as ([r t1] & n1 & Hi & H).
  assert (Hl1 : lineup allowed_indices t1).
  { eapply (iterate_lineup allowed_indices (FirstPass allowed_indices));
      [reflexivity|exact Hl|exact Hi]. }
  destruct r as [q|].
  - apply ret_Ok in H as [H _]. injection H as _ ->. exact Hl1.
  - apply bind_Ok in H as (sf & n2 & Hsf & H).
    apply bind_Ok in H as (wi & n3 & Hwi & H).
    apply bind_Ok in H as (si & n4 & Hsi & H).
    apply bind_Ok in H as ([r2 t2] & n5 & Hi2 & H).
    apply ret_Ok in H as [H _]. injection H as _ ->. cbn [snd].
    eapply (iterate_lineup allowed_indices (FinalPass sf wi si));
      [|exact Hl1|exact Hi2].
    split; [apply strongest_food_catalog, (lift_Ok _ _ _ _ _ Hsf)|].
    split; [apply list_min_In, (lift_Ok _ _ _ _ _ Hwi)
           |apply list_max_In, (lift_Ok _ _ _ _ _ Hsi)].
Qed.

Lemma draw_candidate_lineup allowed_indices src n c n' :
  draw_candidate allowed_indices src n = Ok (c, n') ->
  lineup allowed_indices (cand_team c).
Proof.
  unfold draw_candidate. intros H.
  apply bind_Ok in H as (a1 & k1 & A1 & H).
  apply bind_Ok in H as (a2 & k2 & A2 & H).
  apply bind_Ok in H as (a3 & k3 & A3 & H).
  apply bind_Ok in H as (f1 & k4 & F1 & H).
  apply bind_Ok in H as (f2 & k5 & F2 & H).
  apply bind_Ok in H as (f3 & k6 & F3 & H).
  apply bind_Ok in H as (m1 & k7 & _ & H).
  apply bind_Ok in H as (m2 & k8 & _ & H).
  apply bind_Ok in H as (m3 & k9 & _ & H).
  apply ret_Ok in H as [-> _]. cbn [cand_team].
  apply random_animal_spec in A1, A2, A3.
  split.
  - intros []; cbn [animals sget at1 at2 at3 slot_role]; assumption.
  - intros [] f E; cbn [foods sget at1 at2 at3] in E;
      [exact (random_enemy_food_spec _ _ _ _ _ F1 f E)
      |exact (random_enemy_food_spec _ _ _ _ _ F2 f E)
      |exact (random_enemy_food_spec _ _ _ _ _ F3 f E)].
Qed.

Definition search_lineup (allowed_indices : list Z) (st : Search) : Prop :=
  forall c,
    best_candidate st = Some c \/ best_in_range st = Some c \/
    best_in_range_not_same st = Some c ->
    lineup allowed_indices (cand_team c).

Lemma sample_loop_lineup allowed_indices target_min target_max last_signature k :
  forall st src n st' n',
    search_lineup allowed_indices st ->
    sample_loop k allowed_indices target_min target_max last_signature st src n
    = Ok (st', n') ->
    search_lineup allowed_indices st'.
Proof.
  induction k as [|k IH]; intros st src n st' n' Hs H; cbn [sample_loop] in H.
  - apply ret_Ok in H as [-> _]. exact Hs.
  - apply bind_Ok in H as (c & n1 & Hc & H).
    apply draw_candidate_lineup in Hc.
    assert (Hext : forall st1,
               (forall x, best_candidate st1 = Some x ->
                          x = c \/ best_candidate st = Some x) ->
               (forall x, best_in_range st1 = Some x ->
                          x = c \/ best_in_range st = Some x) ->
               (forall x, best_in_range_not_same st1 = Some x ->
                          x = c \/ best_in_range_not_same st = Some x) ->
               search_lineup allowed_indices st1).
    { intros st1 H1 H2 H3 x [E|[E|E]];
        [destruct (H1 x E) as [->|E']|destruct (H2 x E) as [->|E']
        |destruct (H3 x E) as [->|E']];
        try exact Hc; apply Hs; tauto. }
    destruct (in_window target_min target_max (cand_power c)) eqn:Ew;
      cbn [andb] in H.
    + destruct (negb (bool_decide (Some (cand_signature c) = last_signature))).
      * apply ret_Ok in H as [-> _]. apply Hext; cbn; intros x E;
          first [right; exact E|left; congruence].
      * eapply IH; [|exact H]. apply Hext;
          destruct (best_in_range st) eqn:Eb;
          repeat match goal with
                 | |- context [match best_delta ?s with _ => _ end] =>
                     destruct (best_delta s) as [d|]
                 | |- context [Qltb ?a ?b] => destruct (Qltb a b)
                 end;
          cbn; intros x E; first [right; congruence|left; congruence].
    + eapply IH; [|exact H]. apply Hext;
        repeat match goal with
               | |- context [match best_delta ?s with _ => _ end] =>
                   destruct (best_delta s) as [d|]
               | |- context [Qltb ?a ?b] => destruct (Qltb a b)
               end;
        cbn; intros x E; first [right; congruence|left; congruence].
Qed.

Lemma synthesize_lineup allowed_indices target_min target_max last_signature
    src n out n' :
  synthesize allowed_indices target_min target_max last_signature src n = Ok (out, n') ->
  exists t signature,
    out = Opponent t (team_power t) signature /\ lineup allowed_indices t.
Proof.
  intros H.
  apply synthesize_steps in H
    as (st & n1 & chosen & p1 & t1 & n2 & Hs & Hf & Hadj & Hin & Hout).
  assert (Hl : lineup allowed_indices (cand_team chosen)).
  { eapply (sample_loop_lineup allowed_indices target_min target_max last_signature
              300 (mkSearch None None None None) src n st n1); [|exact Hs|].
    - intros c [E|[E|E]]; discriminate.
    - unfold final_choice, first_some in Hf.
      destruct (best_in_range_not_same st); [right; right; exact Hf|].
      destruct (best_in_range st); [right; left; exact Hf|left; exact Hf]. }
  assert (Hl1 : lineup allowed_indices t1)
    by (eapply adjust_enemy_team_lineup; [exact Hl|exact Hadj]).
  destruct (in_window target_min target_max (team_power t1)).
  - destruct (Hin eq_refl) as [-> _]. eexists _, _. split; [reflexivity|exact Hl1].
  - destruct (Hout eq_refl) as (p2 & t2 & Hadj2 & ->).
    eexists _, _. split; [reflexivity|].
    eapply adjust_enemy_team_lineup; [exact Hl1|exact Hadj2].
Qed.

(** [avg_index] of [battle]. *)
Definition avg_index (player_animals : PerSlot Animal) : Z :=
  py_round (inject_Z (fold_left Z.add (map rarity_index (values player_animals)) 0) / 3).

Lemma allowed_indices_near_average player_animals i :
  In i (allowed_indices_of player_animals) ->
  avg_index player_animals - 1 <= i <= avg_index player_animals + 1 /\ 0 <= i <= 6.
Proof.
  unfold allowed_indices_of. fold (avg_index player_animals).
  intros H. apply filter_In in H as [Hin Hb].
  apply andb_prop in Hb as [H0 H6]. apply Z.leb_le in H0, H6.
  split; [|lia]. cbn [In] in Hin. lia.
Qed.

(** A requester team of the two upper rarities: allowed rarities 3 to 5. *)
Definition whale : Animal := add_animal_def LEGENDARY TANK "whale" "🐳" 24 4 10 ["whale"].
Definition shark : Animal := add_animal_def LEGENDARY ATTACK "shark" "🦈" 14 11 4 ["shark"].
Definition octopus : Animal :=
  add_animal_def SPECIAL SUPPORT "octopus" "🐙" 12 5 7 ["octopus"].
Definition deep_sea_animals : PerSlot Animal := mkPerSlot whale shark octopus.

(** X21: every opponent that [battle] hands to the combat, whether the
    sampled team was kept or repaired once or twice, has a TANK in slot1,
    an ATTACK unit in slot2 and a SUPPORT unit in slot3, all catalog units
    whose rarity index is between 0 and 6 and within one of the rounded
    average rarity index of the requester's units; its items are catalog
    foods and its reported power is the power of the team. *)
Theorem opponents_keep_the_lineup
    (player_animals : PerSlot Animal) (player_foods : PerSlot (option Food))
    (player_mutations : PerSlot Mutation) (last_signature : option string)
    (src : nat -> Q) (n : nat) (out : SetupOutcome) (n' : nat) :
  battle_opponent player_animals player_foods player_mutations last_signature src n
  = Ok (out, n') ->
  exists t signature,
    out = Opponent t (team_power t) signature /\
    (forall slot,
        In (sget (animals t) slot) ANIMALS /\
        role (sget (animals t) slot) = slot_role slot /\
        avg_index player_animals - 1 <= rarity_index (sget (animals t) slot)
          <= avg_index player_animals + 1 /\
        0 <= rarity_index (sget (animals t) slot) <= 6) /\
    (forall slot f, sget (foods t) slot = Some f -> In f FOODS).
Proof.
  unfold battle_opponent.
  destruct (Window.difficulty_window _ _ _) as [target_min target_max].
  intros H. apply synthesize_lineup in H as (t & signature & -> & Ha & Hf).
  exists t, signature. split; [reflexivity|]. split; [|exact Hf].
  intros slot. destruct (Ha slot) as (H1 & H2 & H3).
  split; [exact H1|]. split; [exact H2|].
  apply allowed_indices_near_average, H3.
Qed.

Lemma opponents_keep_the_lineup_witness :
  exists t signature n',
    battle_opponent deep_sea_animals (mkPerSlot None None None)
      (mkPerSlot none none none) None (fun _ => 1 # 2) 0%nat
    = Ok (Opponent t (team_power t) signature, n') /\
    role (sget (animals t) slot2) = ATTACK.
Proof.
  destruct (battle_opponent deep_sea_animals (mkPerSlot None None None)
              (mkPerSlot none none none) None (fun _ => 1 # 2) 0%nat)
    as [[out n']|e] eqn:E;
    [|exfalso; revert E; vm_compute; discriminate].
  destruct (opponents_keep_the_lineup _ _ _ _ _ _ _ _ E)
    as (t & signature & -> & Ha & _).
  exists t, signature, n'. split; [reflexivity|apply (Ha slot2)].
Defined.

(** *** Where the final loop fails *)

Lemma choice_nil {A} src n : choice (@nil A) src n = Raise IndexError.
Proof.
  unfold choice, bind, random. destruct (Z.to_nat _); reflexivity.
Qed.

(** The pairs of a role and a rarity index in 0..6 without a catalog unit. *)
Definition catalog_gaps : list (Role * Z) :=
  [(ATTACK, 3); (ATTACK, 5); (TANK, 5); (SUPPORT, 4)].

Lemma catalog_gaps_spec r i :
  0 <= i <= 6 -> (candidates_for [i] r = [] <-> In (r, i) catalog_gaps).
Proof.
  intros Hi. split.
  - assert (H : i = 0 \/ i = 1 \/ i = 2 \/ i = 3 \/ i = 4 \/ i = 5 \/ i = 6) by lia.
    destruct H as [->|[->|[->|[->|[->|[->| ->]]]]]]; destruct r;
      intros H; first [discriminate H|cbn; auto 10].
  - cbn [catalog_gaps In].
    intros [H|[H|[H|[H|[]]]]]; injection H as <- <-; reflexivity.
Qed.

Lemma pinned_draw_raises pinned t (k : Slot -> Animal -> Step) src n e :
  valid_stream src ->
  (do slot <- choice (map fst (items (animals t)));
   do animal <- random_animal_by_rarity_and_role [pinned]
                  (role (sget (animals t) slot));
   ret (k slot animal)) src n = Raise e ->
  e = IndexError /\
  exists slot, candidates_for [pinned] (role (sget (animals t) slot)) = [].
Proof.
  intros Hsrc H.
  destruct (slots_choice_total src Hsrc (animals t) n) as [slot Hs].
  unfold bind at 1 in H. rewrite Hs in H. rewrite random_animal_choice in H.
  destruct (candidates_for [pinned] (role (sget (animals t) slot)))
    as [|a rest] eqn:Ec.
  - unfold bind in H. rewrite choice_nil in H. injection H as <-.
    split; [reflexivity|]. exists slot. exact Ec.
  - exfalso.
    destruct (choice_total (a :: rest) src (S n) ltac:(discriminate)
                (proj1 (Hsrc (S n))) (proj2 (Hsrc (S n)))) as (x & Hx & _).
    unfold bind in H. rewrite Hx in H. discriminate H.
Qed.

Lemma below_window target_min target_max p :
  in_window target_min target_max p = false -> Qltb target_max p = false ->
  (p < target_min)%Q.
Proof.
  unfold in_window, Qltb, Qleb. intros Hw Ha.
  apply negb_false_iff in Ha. rewrite Ha, andb_true_r in Hw.
  apply Qnot_le_lt. intros Hle. apply Qle_bool_iff in Hle. congruence.
Qed.

Lemma enforce_iteration_raises sf wi si target_min target_max t src n e :
  valid_stream src -> catalog_foods (foods t) ->
  enforce_iteration sf wi si target_min target_max t src n = Raise e ->
  e = IndexError /\
  exists slot,
    ((target_max < team_power t)%Q /\
     (forall s, sget (foods t) s = None) /\
     (forall s, sget (mutations t) s = none) /\
     candidates_for [wi] (role (sget (animals t) slot)) = []) \/
    ((team_power t < target_min)%Q /\
     (forall s, sget (mutations t) s = rainbow) /\
     candidates_for [si] (role (sget (animals t) slot)) = []).
Proof.
  intros Hsrc Hc H. unfold enforce_iteration in H.
  destruct (in_window target_min target_max (team_power t)) eqn:Ew;
    [discriminate H|].
  destruct (Qltb target_max (team_power t)) eqn:Ea.
  - pose proof (remove_highest_food_spec (foods t) Hc) as Hrem.
    destruct (_remove_highest_food (foods t)) as [[|] fs']; [discriminate H|].
    destruct Hrem as [-> Hnone].
    pose proof (downgrade_mutation_spec (mutations t)) as Hdown.
    destruct (_downgrade_mutation (mutations t)) as [[|] ms']; [discriminate H|].
    destruct Hdown as [-> Hall].
    destruct (pinned_draw_raises wi (mkTeam (animals t) (foods t) (mutations t))
                (fun slot animal =>
                   Next (mkTeam (sset (animals t) slot animal)
                                (sset (foods t) slot None)
                                (sset (mutations t) slot none)))
                src n e Hsrc H) as (-> & slot & Hgap).
    split; [reflexivity|]. exists slot. left.
    split; [apply Qltb_lt, Ea|]. split; [exact Hnone|]. split; [exact Hall|exact Hgap].
  - destruct (add_missing_food_total src Hsrc (animals t) (foods t) n)
      as ([ok fs'] & n1 & Hadd).
    unfold bind at 1 in H. rewrite Hadd in H.
    destruct ok; [discriminate H|].
    pose proof (upgrade_mutation_spec (mutations t)) as Hup.
    destruct (_upgrade_mutation (mutations t)) as [[|] ms']; [discriminate H|].
    destruct Hup as [-> Hall].
    destruct (pinned_draw_raises si (mkTeam (animals t) (foods t) (mutations t))
                (fun slot animal =>
                   Next (mkTeam (sset (animals t) slot animal)
                                (sset fs' slot (Some sf))
                                (sset (mutations t) slot
                                      (order_at (length MUTATION_STRENGTH_ORDER - 1)))))
                src n1 e Hsrc H) as (-> & slot & Hgap).
    split; [reflexivity|]. exists slot. right.
    split; [exact (below_window _ _ _ Ew Ea)|]. split; [exact Hall|exact Hgap].
Qed.

(** X22: with draws in [0, 1) an iteration of the final repair loop can
    only fail with an [IndexError], and only at its re-roll (team above the
    maximum without item or mutation, or below the minimum with every slot
    rainbow), when the catalog has no unit of the chosen slot's role at the
    pinned rarity; among the rarities 0 to 6 the catalog has four such gaps
    (ATTACK at 3 and 5, TANK at 5, SUPPORT at 4); and the failure is
    reached: for the requester whale, shark and octopus, all rainbow and
    fed with the dragon's feast, with every draw at 0.5, the synthesis of
    the opponent ends in an [IndexError]. *)
Theorem final_loop_fails_on_catalog_gaps :
  (forall sf wi si target_min target_max t src n e,
      (forall k, (0 <= src k)%Q /\ (src k < 1)%Q) ->
      catalog_foods (foods t) ->
      enforce_iteration sf wi si target_min target_max t src n = Raise e ->
      e = IndexError /\
      exists slot,
        ((target_max < team_power t)%Q /\
         (forall s, sget (foods t) s = None) /\
         (forall s, sget (mutations t) s = none) /\
         candidates_for [wi] (role (sget (animals t) slot)) = []) \/
        ((team_power t < target_min)%Q /\
         (forall s, sget (mutations t) s = rainbow) /\
         candidates_for [si] (role (sget (animals t) slot)) = [])) /\
  (forall r i, 0 <= i <= 6 ->
               (candidates_for [i] r = [] <->
                In (r, i) [(ATTACK, 3); (ATTACK, 5); (TANK, 5); (SUPPORT, 4)])) /\
  battle_opponent deep_sea_animals feasting_foods feasting_mutations None
    (fun _ => 1 # 2) 0%nat
  = Raise IndexError.
Proof.
  split; [intros; eapply enforce_iteration_raises; eassumption|].
  split; [exact catalog_gaps_spec|].
  vm_compute. reflexivity.
Qed.

Definition stalled_team : Team :=
  mkTeam (mkPerSlot hippo shark octopus) (mkPerSlot None None None)
         (mkPerSlot none none none).

Lemma final_loop_fails_on_catalog_gaps_witness :
  enforce_iteration dragons_feast 3 5 0 1 stalled_team (fun _ => 1 # 2) 0%nat
  = Raise IndexError /\
  exists slot, candidates_for [3] (role (sget (animals stalled_team) slot)) = [].
Proof.
  split; [vm_compute; reflexivity|].
  assert (Hs : forall k : nat, (0 <= 1 # 2)%Q /\ (1 # 2 < 1)%Q).
  { intros _. split; [discriminate|reflexivity]. }
  assert (Hc : catalog_foods (foods stalled_team)).
  { intros slot f H. destruct slot; discriminate H. }
  assert (E : enforce_iteration dragons_feast 3 5 0 1 stalled_team (fun _ => 1 # 2) 0%nat
              = Raise IndexError) by (vm_compute; reflexivity).
  destruct (proj1 final_loop_fails_on_catalog_gaps dragons_feast 3 5 0%Q 1%Q
              stalled_team (fun _ => 1 # 2) 0%nat IndexError Hs Hc E)
    as (_ & slot & [(_ & _ & _ & Hgap)|(Hlow & _)]).
  - exists slot. exact Hgap.
  - exfalso. revert Hlow. vm_compute. discriminate.
Defined.

(** *** Repair steps and the power of the team *)

Lemma catalog_food_power_pos f : In f FOODS -> (0 < food_power (Some f))%Q.
Proof.
  assert (H : Forall (fun f => (0 < food_power (Some f))%Q) FOODS)
    by (repeat constructor).
  rewrite Forall_forall in H. intros Hf. apply H, list_elem_of_In, Hf.
Qed.

Lemma team_power_set_food t slot food :
  (team_power (mkTeam (animals t) (sset (foods t) slot food) (mutations t))
   == team_power t
      + (food_power food - food_power (sget (foods t) slot))
        * mutation_multiplier_value (sget (mutations t) slot))%Q.
Proof.
  destruct t as [[a1 a2 a3] [f1 f2 f3] [m1 m2 m3]], slot;
    unfold team_power, calculate_team_power, effective_power;
    cbn [animals foods mutations fold_left SLOTS sget sset at1 at2 at3]; ring.
Qed.

Lemma team_power_set_mutation t slot m :
  (team_power (mkTeam (animals t) (foods t) (sset (mutations t) slot m))
   == team_power t
      + (power (sget (animals t) slot) + food_power (sget (foods t) slot))
        * (mutation_multiplier_value m
           - mutation_multiplier_value (sget (mutations t) slot)))%Q.
Proof.
  destruct t as [[a1 a2 a3] [f1 f2 f3] [m1 m2 m3]], slot;
    unfold team_power, calculate_team_power, effective_power;
    cbn [animals foods mutations fold_left SLOTS sget sset at1 at2 at3]; ring.
Qed.

Lemma lower_tier_weaker m :
  m <> none -> (mutation_multiplier_value (lower_tier m) < mutation_multiplier_value m)%Q.
Proof. destruct m; intros H; [contradiction|reflexivity..]. Qed.

Lemma higher_tier_stronger m :
  m <> rainbow ->
  (mutation_multiplier_value m < mutation_multiplier_value (higher_tier m))%Q.
Proof. destruct m; intros H; [reflexivity..|contradiction]. Qed.

Lemma unit_and_item_power_pos t slot :
  (forall s, In (sget (animals t) s) ANIMALS) -> catalog_foods (foods t) ->
  (0 < power (sget (animals t) slot) + food_power (sget (foods t) slot))%Q.
Proof.
  intros Ha Hc. pose proof (Rewards.catalog_power_pos _ (Ha slot)) as Hp.
  destruct (sget (foods t) slot) as [f|] eqn:E.
  - pose proof (Rewards.catalog_food_power_nonneg f (Hc slot f E)). lra.
  - cbn [food_power]. lra.
Qed.

Lemma removal_lowers t slot f :
  sget (foods t) slot = Some f -> In f FOODS ->
  (team_power (mkTeam (animals t) (sset (foods t) slot None) (mutations t))
   < team_power t)%Q.
Proof.
  intros E Hf. rewrite team_power_set_food, E.
  assert (0 < food_power (Some f)
              * mutation_multiplier_value (sget (mutations t) slot))%Q
    by (apply Qmult_lt_0_compat;
        [apply catalog_food_power_pos, Hf|apply Rewards.multiplier_pos]).
  change (food_power None) with 0%Q. lra.
Qed.

Lemma addition_raises t slot f :
  sget (foods t) slot = None -> In f FOODS ->
  (team_power t
   < team_power (mkTeam (animals t) (sset (foods t) slot (Some f)) (mutations t)))%Q.
Proof.
  intros E Hf. rewrite team_power_set_food, E.
  assert (0 < food_power (Some f)
              * mutation_multiplier_value (sget (mutations t) slot))%Q
    by (apply Qmult_lt_0_compat;
        [apply catalog_food_power_pos, Hf|apply Rewards.multiplier_pos]).
  change (food_power None) with 0%Q. lra.
Qed.

Lemma downgrade_lowers t slot :
  (forall s, In (sget (animals t) s) ANIMALS) -> catalog_foods (foods t) ->
  sget (mutations t) slot <> none ->
  (team_power (mkTeam (animals t) (foods t)
                 (sset (mutations t) slot (lower_tier (sget (mutations t) slot))))
   < team_power t)%Q.
Proof.
  intros Ha Hc Hm. rewrite team_power_set_mutation.
  pose proof (unit_and_item_power_pos t slot Ha Hc) as Hp.
  pose proof (lower_tier_weaker _ Hm) as Hl.
  assert (0 < (power (sget (animals t) slot) + food_power (sget (foods t) slot))
              * (mutation_multiplier_value (sget (mutations t) slot)
                 - mutation_multiplier_value (lower_tier (sget (mutations t) slot))))%Q
    by (apply Qmult_lt_0_compat; lra).
  lra.
Qed.

Lemma upgrade_raises t slot :
  (forall s, In (sget (animals t) s) ANIMALS) -> catalog_foods (foods t) ->
  sget (mutations t) slot <> rainbow ->
  (team_power t
   < team_power (mkTeam (animals t) (foods t)
                   (sset (mutations t) slot (higher_tier (sget (mutations t) slot)))))%Q.
Proof.
  intros Ha Hc Hm. rewrite team_power_set_mutation.
  pose proof (unit_and_item_power_pos t slot Ha Hc) as Hp.
  pose proof (higher_tier_stronger _ Hm) as Hl.
  assert (0 < (power (sget (animals t) slot) + food_power (sget (foods t) slot))
              * (mutation_multiplier_value (higher_tier (sget (mutations t) slot))
                 - mutation_multiplier_value (sget (mutations t) slot)))%Q
    by (apply Qmult_lt_0_compat; lra).
  lra.
Qed.

(** X23: in either repair loop, an iteration that continues without a
    re-roll moves the power strictly toward the window and keeps the
    units: above the maximum, a catalog team holding an item or a mutation
    comes out with strictly less power; not above it (hence below the
    minimum), a team with a slot that is not rainbow comes out with
    strictly more power, whether an item was added or a tier raised. *)
Theorem repair_step_moves_toward_window
    (pass : Pass) (target_min target_max : Q) (t : Team)
    (src : nat -> Q) (n : nat) (t' : Team) (n' : nat) :
  (forall slot, In (sget (animals t) slot) ANIMALS) ->
  catalog_foods (foods t) ->
  pass_iteration pass target_min target_max t src n = Ok (Next t', n') ->
  ((target_max < team_power t)%Q ->
   (exists slot, sget (foods t) slot <> None) \/
   (exists slot, sget (mutations t) slot <> none) ->
   animals t' = animals t /\ (team_power t' < team_power t)%Q) /\
  ((team_power t <= target_max)%Q ->
   (exists slot, sget (mutations t) slot <> rainbow) ->
   animals t' = animals t /\ (team_power t < target_min)%Q /\
   (team_power t < team_power t')%Q).
Proof.
  intros Ha Hc H.
  destruct pass as [indices|sf wi si]; cbn [pass_iteration] in H;
    [unfold repair_iteration in H|unfold enforce_iteration in H].
  all: destruct (in_window target_min target_max (team_power t)) eqn:Ew;
    [apply ret_Ok in H as [H _]; discriminate|].
  all: destruct (Qltb target_max (team_power t)) eqn:Ea.
  1, 3: (* above the maximum *)
    (split; [intros _ Hsome
            |intros Hle; apply Qltb_lt in Ea; exfalso; lra]);
    pose proof (remove_highest_food_spec (foods t) Hc) as Hrem;
    destruct (_remove_highest_food (foods t)) as [[|] fs'];
    [ destruct Hrem as (slot & f & Hs & _ & ->);
      apply ret_Ok in H as [H _]; injection H as ->;
      (split; [reflexivity|]);
      exact (removal_lowers t slot f Hs (Hc slot f Hs))
    | destruct Hrem as [-> Hnone];
      pose proof (downgrade_mutation_spec (mutations t)) as Hdown;
      destruct (_downgrade_mutation (mutations t)) as [[|] ms'];
      [ destruct Hdown as (slot & Hm & _ & ->);
        apply ret_Ok in H as [H _]; injection H as ->;
        (split; [reflexivity|]);
        exact (downgrade_lowers t slot Ha Hc Hm)
      | destruct Hdown as [-> Hall]; exfalso;
        destruct Hsome as [[slot Hs]|[slot Hs]];
        [apply Hs, Hnone|apply Hs, Hall] ] ].
  all: (* not above: below the minimum *)
    (split; [intros Hlt; apply Qltb_lt in Hlt; congruence|]);
    intros _ [slot0 Hnot];
    pose proof (below_window _ _ _ Ew Ea) as Hlow;
    apply bind_Ok in H as ([ok fs'] & n1 & Hadd & H);
    apply add_missing_food_spec in Hadd as [Hyes Hno];
    destruct ok;
    [ apply ret_Ok in H as [H _]; injection H as ->;
      destruct (Hyes eq_refl) as (slot & f & Hs & Hf & ->);
      (split; [reflexivity|]); (split; [exact Hlow|]);
      exact (addition_raises t slot f Hs Hf)
    | rewrite (Hno eq_refl) in H;
      pose proof (upgrade_mutation_spec (mutations t)) as Hup;
      destruct (_upgrade_mutation (mutations t)) as [[|] ms'];
      [ destruct Hup as (slot & Hm & _ & ->);
        apply ret_Ok in H as [H _]; injection H as ->;
        (split; [reflexivity|]); (split; [exact Hlow|]);
        exact (upgrade_raises t slot Ha Hc Hm)
      | destruct Hup as [-> Hall]; exfalso; apply Hnot, Hall ] ].
Qed.

Lemma fed_rainbow_animals_catalog :
  forall slot, In (sget (animals fed_rainbow_team) slot) ANIMALS.
Proof.
  intros []; cbn; repeat (first [left; reflexivity|right]).
Defined.

Lemma repair_step_moves_toward_window_witness :
  exists t',
    repair_iteration [0; 1] 0 100 fed_rainbow_team (fun _ => 1 # 2) 0%nat
    = Ok (Next t', 0%nat) /\
    (team_power t' < team_power fed_rainbow_team)%Q.
Proof.
  destruct (repair_iteration [0; 1] 0 100 fed_rainbow_team (fun _ => 1 # 2) 0%nat)
    as [[[p|t'] n']|e] eqn:E;
    try (exfalso; revert E; vm_compute; discriminate).
  assert (Hn : n' = 0%nat) by (revert E; vm_compute; congruence).
  subst n'. exists t'. split; [reflexivity|].
  apply (repair_step_moves_toward_window (FirstPass [0; 1]) 0 100 fed_rainbow_team
           (fun _ => 1 # 2) 0%nat t' 0%nat fed_rainbow_animals_catalog
           fed_rainbow_team_catalog E).
  - reflexivity.
  - left. exists slot1. discriminate.
Defined.

End SynthLaws.

(** ** Laws of the name resolution *)

Module Names.
Import Inventory.

(** [FOOD_ALIASES]: every alias and the emoji of every food, in catalog
    order; a later food overwrites the entry of an earlier one. *)
Definition FOOD_ALIASES : gmap string string :=
  fold_left
    (fun acc food =>
       fold_left (fun acc alias => <[alias := food_id food]> acc)
                 (food_aliases food ++ [food_emoji food]) acc)
    FOODS ∅.

Definition resolve_food (query : string) : option Food :=
  let key := lower (strip query) in
  match FOOD_ALIASES !! key with
  | Some found_id =>
      if String.eqb found_id EmptyString then None
      else find (fun f => String.eqb (food_id f) found_id) FOODS
  | None => None
  end.

(** The alias tables are built by the same two nested loops. *)
Section Table.
Context {X : Type} (ident : X -> string) (keys : X -> list string).




End Table.


Lemma food_of_id f :
  In f FOODS -> find (fun g => String.eqb (food_id g) (food_id f)) FOODS = Some f.
Proof.
  unfold FOODS. cbn [In]. intros H.
  repeat (destruct H as [<-|H]; [reflexivity|]). contradiction.
Qed.










End Names.

(** ** The hunt command *)

Module Hunt.
Import Inventory FuseCommand.

Definition DROP_TABLE : list (Q * Rarity) :=
  [ (62, COMMON); (24, UNCOMMON); (9, RARE); (3, EPIC);
    (6 # 5, LEGENDARY); (1 # 2, SPECIAL); (3 # 10, HIDDEN) ]%Q.

(** The loop of [pick_rarity]; [None] is the loop left without a return. *)
Fixpoint pick_loop (roll cumulative : Q) (table : list (Q * Rarity)) : option Rarity :=
  match table with
  | [] => None
  | (chance, rarity) :: rest =>
      let cumulative := (cumulative + chance)%Q in
      if Qleb roll cumulative then Some rarity else pick_loop roll cumulative rest
  end.

Definition pick_rarity : Rand Rarity :=
  do u <- random;
  let roll := (u * 100)%Q in
  match pick_loop roll 0 DROP_TABLE with
  | Some rarity => ret rarity
  | None =>
      match last DROP_TABLE with
      | Some entry => ret (snd entry)
      | None => raise IndexError
      end
  end.

Definition roll_mutation : Rand Mutation :=
  do u <- random;
  let roll := (u * 100)%Q in
  if Qltb roll 1 then ret rainbow
  else if Qltb roll (1 + (5 # 2)) then ret emerald
  else if Qltb roll (1 + (5 # 2) + 5) then ret diamond
  else if Qltb roll (1 + (5 # 2) + 5 + 10) then ret golden
  else ret none.

(** The fields of the profile that the command reads and writes, beside
    the zoo and the team. *)
Record Account := mkAccount {
  coins : Z;
  energy : Z;
  battles_won : Z;
  total_hunts : Z;
  level : Z;
  hunt_cooldown : Q
}.

(** [store.data]: the users, the global owned counts and the global hatch
    counts. *)
Record Ledger := mkLedger {
  ledger_store : Store;
  hatch_counts : gmap string Z
}.

Definition record_hatch (ledger : Ledger) (animal_id : string) : Ledger :=
  mkLedger (ledger_store ledger)
    (<[animal_id := default 0 (hatch_counts ledger !! animal_id) + 1]>
       (hatch_counts ledger)).

Inductive HuntReply :=
| Cooldown (seconds_left : Q)
| NotEnoughCoins
| NotEnoughEnergy (needed : Z)
| HuntResults (results : list (Animal * Mutation)) (coins_spent rolls : Z).

(** [compute_level]; its loop ends within wins + 1 iterations. *)
Definition level_of (battles_won : Z) : Z :=
  default 1 (Levels.compute_level (S (Z.to_nat (Z.max 0 battles_won))) battles_won).

(** One turn of [for _ in range(rolls)]. *)
Definition hunt_roll (st : Profile * Ledger * list (Animal * Mutation))
  : Rand (Profile * Ledger * list (Animal * Mutation)) :=
  let '(profile, ledger, results) := st in
  do picked <- pick_rarity;
  let pool := List.filter (fun a => bool_decide (rarity a = picked)) ANIMALS in
  do animal <- choice pool;
  do mutation <- roll_mutation;
  do profile <- lift (add_animal profile (animal_id animal) (mutation_name mutation) 1);
  let ledger := record_hatch ledger (animal_id animal) in
  let ledger :=
    mkLedger (adjust_owned_count (ledger_store ledger) (animal_id animal) 1)
             (hatch_counts ledger) in
  ret (profile, ledger, (results ++ [(animal, mutation)])%list).

Fixpoint hunt_rolls (k : nat) (st : Profile * Ledger * list (Animal * Mutation))
  : Rand (Profile * Ledger * list (Animal * Mutation)) :=
  match k with
  | O => ret st
  | S k' => do st <- hunt_roll st; hunt_rolls k' st
  end.

(** [hunt]: the reply, and the profile, its other fields and the store as
    the command leaves them. *)
Definition hunt (user_id : string) (now_ts : Q) (account : Account) (ledger : Ledger)
  : Rand (HuntReply * Profile * Account * Ledger) :=
  let '(profile, st) := load_profile (ledger_store ledger) user_id in
  let ledger := mkLedger st (hatch_counts ledger) in
  let level := level_of (battles_won account) in
  let account :=
    mkAccount (coins account) (energy account) (battles_won account)
              (total_hunts account) level (hunt_cooldown account) in
  if Qltb now_ts (hunt_cooldown account) then
    ret (Cooldown (hunt_cooldown account - now_ts)%Q, profile, account, ledger)
  else
    let rolls := level in
    let affordable_rolls := coins account / 5 in
    let rolls := if (affordable_rolls <? rolls)%Z then affordable_rolls else rolls in
    if (rolls <=? 0)%Z then ret (NotEnoughCoins, profile, account, ledger)
    else if (energy account <? rolls)%Z then
      ret (NotEnoughEnergy (rolls - energy account), profile, account, ledger)
    else
      let coins_spent := rolls * 5 in
      let account :=
        mkAccount (coins account - coins_spent) (energy account - rolls)
                  (battles_won account) (total_hunts account + 1) level
                  (hunt_cooldown account) in
      do rolled <- hunt_rolls (Z.to_nat rolls) (profile, ledger, []);
      let '(profile, ledger, results) := rolled in
      let account :=
        mkAccount (coins account) (energy account) (battles_won account)
                  (total_hunts account) (level) (now_ts + 10)%Q in
      let ledger :=
        mkLedger (save_profile (ledger_store ledger) user_id profile)
                 (hatch_counts ledger) in
      ret (HuntResults results coins_spent rolls, profile, account, ledger).

(** *** What a hunt costs and gives *)

(** The owned count of a loaded profile, and the number of rolled units
    of one animal and tier. *)
Definition owned (profile : Profile) (id : string) (m : Mutation) : Z :=
  default 0 (get_owned_count profile id (mutation_name m)).

Definition rolled (results : list (Animal * Mutation)) (id : string) (m : Mutation) : Z :=
  Z.of_nat (length (List.filter
                      (fun r => bool_decide (animal_id (fst r) = id /\ snd r = m))
                      results)).

Lemma rolled_cons a m0 more aid m :
  rolled ((a, m0) :: more) aid m
  = (if decide (animal_id a = aid /\ m0 = m) then 1 else 0) + rolled more aid m.
Proof.
  unfold rolled. cbn [List.filter fst snd].
  destruct (decide (animal_id a = aid /\ m0 = m)) as [H|H].
  - rewrite bool_decide_eq_true_2 by exact H. cbn [length]. lia.
  - rewrite bool_decide_eq_false_2 by exact H. lia.
Qed.

(** The number of rolled units of one animal, and the two global counts
    of an animal. *)
Definition hatched (results : list (Animal * Mutation)) (aid : string) : Z :=
  Z.of_nat (length (List.filter (fun r => bool_decide (animal_id (fst r) = aid)) results)).

Definition hatch_count (ledger : Ledger) (aid : string) : Z :=
  default 0 (hatch_counts ledger !! aid).

Definition owned_count (ledger : Ledger) (aid : string) : Z :=
  default 0 (owned_counts (ledger_store ledger) !! aid).

Definition ledger_grows (before after : Ledger) (more : list (Animal * Mutation)) : Prop :=
  users (ledger_store after) = users (ledger_store before) /\
  (forall aid, hatch_count after aid = hatch_count before aid + hatched more aid) /\
  (forall aid, 0 <= owned_count before aid ->
               owned_count after aid = owned_count before aid + hatched more aid).

Lemma hatched_cons a m0 more aid :
  hatched ((a, m0) :: more) aid
  = (if decide (animal_id a = aid) then 1 else 0) + hatched more aid.
Proof.
  unfold hatched. cbn [List.filter fst].
  destruct (decide (animal_id a = aid)) as [H|H].
  - rewrite bool_decide_eq_true_2 by exact H. cbn [length]. lia.
  - rewrite bool_decide_eq_false_2 by exact H. lia.
Qed.

Lemma hatched_nonneg more aid : 0 <= hatched more aid.
Proof. unfold hatched. lia. Qed.

Lemma ledger_grows_refl ledger : ledger_grows ledger ledger [].
Proof.
  split; [reflexivity|]. split; intros; unfold hatched; cbn; lia.
Qed.

Lemma ledger_grows_roll ledger a m :
  ledger_grows ledger
    (mkLedger (adjust_owned_count (ledger_store (record_hatch ledger (animal_id a)))
                 (animal_id a) 1)
              (hatch_counts (record_hatch ledger (animal_id a))))
    [(a, m)].
Proof.
  split; [reflexivity|]. split.
  - intros aid. unfold hatch_count, record_hatch. cbn [hatch_counts].
    rewrite hatched_cons. change (hatched [] aid) with 0.
    destruct (decide (animal_id a = aid)) as [->|Hne].
    + rewrite lookup_insert_eq. cbn [from_option Datatypes.id]. lia.
    + rewrite lookup_insert_ne by exact Hne. lia.
  - intros aid H0. unfold owned_count, record_hatch, adjust_owned_count in *.
    cbn [ledger_store owned_counts] in *.
    rewrite hatched_cons. change (hatched [] aid) with 0.
    destruct (decide (animal_id a = aid)) as [->|Hne].
    + rewrite lookup_insert_eq. cbn [from_option Datatypes.id]. lia.
    + rewrite lookup_insert_ne by exact Hne. lia.
Qed.

Lemma ledger_grows_step l0 l1 l2 a m more :
  ledger_grows l0 l1 [(a, m)] -> ledger_grows l1 l2 more ->
  ledger_grows l0 l2 ((a, m) :: more).
Proof.
  intros (U1 & H1 & O1) (U2 & H2 & O2). split; [congruence|]. split.
  - intros aid. rewrite H2, H1, (hatched_cons a m more aid), (hatched_cons a m [] aid).
    change (hatched [] aid) with 0. lia.
  - intros aid H0. pose proof (O1 aid H0) as E1.
    pose proof (hatched_nonneg [(a, m)] aid).
    rewrite (O2 aid) by lia.
    rewrite E1, (hatched_cons a m more aid), (hatched_cons a m [] aid).
    change (hatched [] aid) with 0. lia.
Qed.

Lemma add_one profile aid m :
  well_formed profile ->
  exists profile',
    add_animal profile aid (mutation_name m) 1 = Some profile' /\
    well_formed profile' /\
    forall aid' m',
      owned profile' aid' m'
      = owned profile aid' m' + (if decide (aid = aid' /\ m = m') then 1 else 0).
Proof.
  intros Hp. destruct (Hp aid) as [f Hf].
  rewrite (add_animal_view profile aid f m 1 Hf ltac:(lia)).
  assert (Hg : forall m', 0 <= fupd f m (f m + 1) m').
  { intros m'. unfold fupd. pose proof (proj1 Hf m). pose proof (proj1 Hf m').
    destruct (decide (m' = m)); lia. }
  eexists. split; [reflexivity|].
  split; [now apply InventoryLaws.well_formed_insert|].
  intros aid' m'. unfold owned.
  destruct (decide (aid' = aid)) as [->|Hne].
  - destruct (counts_view_insert (zoo profile) (team profile) aid _ Hg) as (_ & Hget & _).
    rewrite Hget. destruct Hf as (_ & Hget0 & _). rewrite Hget0.
    cbn [from_option Datatypes.id]. unfold fupd.
    destruct (decide (aid = aid /\ m = m')) as [[_ E]|E].
    + subst m'. destruct (decide (m = m)); [lia|congruence].
    + destruct (decide (m' = m)) as [E'|_]; [|lia].
      exfalso. apply E. split; congruence.
  - rewrite !get_owned_count_canonical. cbn [zoo].
    rewrite lookup_insert_ne by congruence.
    destruct (decide (aid = aid' /\ m = m')) as [[E _]|_]; [congruence|lia].
Qed.

Lemma pick_rarity_total src n : exists r, pick_rarity src n = Ok (r, S n).
Proof.
  unfold pick_rarity, bind, random.
  destruct (pick_loop _ _ _); eexists; reflexivity.
Qed.

Lemma roll_mutation_total src n : exists m, roll_mutation src n = Ok (m, S n).
Proof.
  unfold roll_mutation, bind, random.
  repeat match goal with |- context [Qltb ?x ?y] => destruct (Qltb x y) end;
    eexists; reflexivity.
Qed.

Lemma pool_not_empty r :
  List.filter (fun a => bool_decide (rarity a = r)) ANIMALS <> [].
Proof. destruct r; vm_compute; discriminate. Qed.

Lemma hunt_roll_spec profile ledger results src n :
  SynthLaws.valid_stream src -> well_formed profile ->
  exists a m profile' ledger',
    hunt_roll (profile, ledger, results) src n
    = Ok ((profile', ledger', (results ++ [(a, m)])%list), (3 + n)%nat) /\
    In a ANIMALS /\ well_formed profile' /\
    ledger_grows ledger ledger' [(a, m)] /\
    forall id' m',
      owned profile' id' m'
      = owned profile id' m' + (if decide (animal_id a = id' /\ m = m') then 1 else 0).
Proof.
  intros Hsrc Hp. unfold hunt_roll.
  destruct (pick_rarity_total src n) as [r Hr]. unfold bind at 1. rewrite Hr.
  destruct (SynthLaws.choice_total _ src (S n) (pool_not_empty r)
              (proj1 (Hsrc (S n))) (proj2 (Hsrc (S n)))) as (a & Ha & Hin).
  unfold bind at 1. rewrite Ha.
  destruct (roll_mutation_total src (S (S n))) as [m Hm]. unfold bind at 1. rewrite Hm.
  destruct (add_one profile (animal_id a) m Hp) as (profile' & Hadd & Hp' & Hown).
  unfold bind at 1. rewrite Hadd. cbn [lift]. unfold ret.
  eexists a, m, profile', _. split; [reflexivity|].
  apply filter_In in Hin as [Hin _].
  split; [exact Hin|]. split; [exact Hp'|]. split; [apply ledger_grows_roll|exact Hown].
Qed.

Lemma hunt_rolls_spec src k :
  SynthLaws.valid_stream src ->
  forall profile ledger results n,
    well_formed profile ->
    exists profile' ledger' more,
      hunt_rolls k (profile, ledger, results) src n
      = Ok ((profile', ledger', (results ++ more)%list), (3 * k + n)%nat) /\
      length more = k /\
      (forall a m, In (a, m) more -> In a ANIMALS) /\
      well_formed profile' /\
      ledger_grows ledger ledger' more /\
      forall id m, owned profile' id m = owned profile id m + rolled more id m.
Proof.
  intros Hsrc. induction k as [|k IH]; intros profile ledger results n Hp.
  - exists profile, ledger, []. cbn [hunt_rolls]. unfold ret.
    rewrite app_nil_r. split; [reflexivity|]. split; [reflexivity|].
    split; [intros a m []|]. split; [exact Hp|].
    split; [apply ledger_grows_refl|].
    intros id m. unfold rolled. cbn. lia.
  - destruct (hunt_roll_spec profile ledger results src n Hsrc Hp)
      as (a & m & p1 & l1 & Hroll & Ha & Hp1 & Hl1 & Hown1).
    destruct (IH p1 l1 (results ++ [(a, m)])%list (3 + n)%nat Hp1)
      as (p2 & l2 & more & Hrolls & Hlen & Hcat & Hp2 & Hl2 & Hown2).
    exists p2, l2, ((a, m) :: more). cbn [hunt_rolls]. unfold bind at 1.
    rewrite Hroll, Hrolls. rewrite <- app_assoc. cbn [app].
    split; [f_equal; f_equal; lia|]. split; [cbn; lia|].
    split.
    { intros a' m' [E|Hin]; [injection E as <- _; exact Ha|exact (Hcat a' m' Hin)]. }
    split; [exact Hp2|].
    split; [exact (ledger_grows_step _ _ _ _ _ _ Hl1 Hl2)|].
    intros id' m'. rewrite Hown2, Hown1, rolled_cons. lia.
Qed.

Lemma level_of_pos battles_won : 1 <= level_of battles_won.
Proof.
  unfold level_of, Levels.compute_level.
  set (wins := Z.max 0 battles_won).
  assert (Hw : wins < 1 * 2 ^ Z.of_nat (Z.to_nat wins)).
  { rewrite Z2Nat.id by lia. pose proof (Z.pow_gt_lin_r 2 wins). lia. }
  destruct (Levels.level_loop_spec (Z.to_nat wins) (S (Z.to_nat wins)) wins 1 1)
    as (l & Hr & Hle & _); [lia|reflexivity|exact Hw|lia|].
  rewrite Hr. cbn [from_option]. exact Hle.
Qed.

(** X26: with draws in [0, 1) the hunt command never raises.  A hunt
    that goes through makes min(level, coins // 5) rolls, at least one;
    it takes 5 coins and one energy per roll and leaves neither coins nor
    energy negative; it counts one more hunt, sets the cooldown to ten
    seconds from now and uses three draws per roll; every roll gives a
    catalog unit, every owned count of the loaded profile grows by exactly
    the number of rolled units of that animal and tier, the profile is
    saved, and the global hatch count of every animal (and its global
    owned count, when that was not negative) grows by the number of its
    rolled units.  A refused hunt (cooldown, fewer than 5 coins, or less
    energy than rolls) draws nothing and changes neither coins, energy
    nor the loaded profile. *)
Theorem hunt_spends_within_means
    (user_id : string) (now_ts : Q) (account : Account) (ledger : Ledger)
    (src : nat -> Q) (n : nat) :
  (forall k, (0 <= src k)%Q /\ (src k < 1)%Q) ->
  let loaded := fst (load_profile (ledger_store ledger) user_id) in
  exists reply profile' account' ledger' n',
    hunt user_id now_ts account ledger src n
    = Ok ((reply, profile', account', ledger'), n') /\
    match reply with
    | HuntResults results coins_spent rolls =>
        rolls = Z.min (level account') (coins account / 5) /\
        1 <= rolls /\
        Z.of_nat (length results) = rolls /\
        coins_spent = 5 * rolls /\
        coins account' = coins account - coins_spent /\ 0 <= coins account' /\
        energy account' = energy account - rolls /\ 0 <= energy account' /\
        total_hunts account' = total_hunts account + 1 /\
        hunt_cooldown account' = (now_ts + 10)%Q /\
        n' = (3 * Z.to_nat rolls + n)%nat /\
        (forall a m, In (a, m) results -> In a ANIMALS) /\
        (forall id m, owned profile' id m = owned loaded id m + rolled results id m) /\
        users (ledger_store ledger') !! user_id = Some profile' /\
        (forall id, hatch_count ledger' id = hatch_count ledger id + hatched results id) /\
        (forall id, 0 <= owned_count ledger id ->
                    owned_count ledger' id = owned_count ledger id + hatched results id)
    | Cooldown seconds_left =>
        (0 < seconds_left)%Q /\
        coins account' = coins account /\ energy account' = energy account /\
        profile' = loaded /\ n' = n
    | NotEnoughCoins =>
        coins account < 5 /\
        coins account' = coins account /\ energy account' = energy account /\
        profile' = loaded /\ n' = n
    | NotEnoughEnergy needed =>
        0 < needed /\
        needed = Z.min (level account') (coins account / 5) - energy account /\
        coins account' = coins account /\ energy account' = energy account /\
        profile' = loaded /\ n' = n
    end.
Proof.
  intros Hsrc loaded. unfold hunt.
  pose proof (load_profile_well_formed (ledger_store ledger) user_id) as Hwf.
  assert (Hoc : owned_counts (snd (load_profile (ledger_store ledger) user_id))
                = owned_counts (ledger_store ledger)) by reflexivity.
  subst loaded. destruct (load_profile (ledger_store ledger) user_id) as [profile st].
  cbn [fst] in *. cbn [coins energy battles_won total_hunts level hunt_cooldown].
  pose proof (level_of_pos (battles_won account)) as Hlevel.
  set (lv := level_of (battles_won account)) in *. clearbody lv.
  destruct (Qltb now_ts (hunt_cooldown account)) eqn:Ec.
  { eexists _, _, _, _, _. split; [reflexivity|]. cbn.
    apply Qltb_lt in Ec. repeat split; try reflexivity. lra. }
  pose proof (Z.mul_div_le (coins account) 5 ltac:(lia)) as Hdiv.
  pose proof (Z.mul_succ_div_gt (coins account) 5 ltac:(lia)) as Hdiv2.
  set (aff := coins account / 5) in *.
  set (rolls := if (aff <? lv)%Z then aff else lv).
  assert (Hrolls : rolls = Z.min lv aff).
  { unfold rolls. destruct (aff <? lv)%Z eqn:E;
      [apply Z.ltb_lt in E|apply Z.ltb_ge in E]; lia. }
  clearbody rolls aff.
  destruct (rolls <=? 0)%Z eqn:E0.
  { apply Z.leb_le in E0. eexists _, _, _, _, _. split; [reflexivity|]. cbn.
    repeat split; try reflexivity. lia. }
  apply Z.leb_gt in E0.
  destruct (energy account <? rolls)%Z eqn:Ee.
  { apply Z.ltb_lt in Ee. eexists _, _, _, _, _. split; [reflexivity|]. cbn.
    repeat split; try reflexivity; lia. }
  apply Z.ltb_ge in Ee.
  destruct (hunt_rolls_spec src (Z.to_nat rolls) Hsrc profile
              (mkLedger st (hatch_counts ledger)) [] n Hwf)
    as (p' & l' & more & Hr & Hlen & Hcat & _ & (_ & Hhatch & Howned) & Hown).
  unfold bind at 1. rewrite Hr. cbn [app]. unfold ret.
  eexists _, _, _, _, _. split; [reflexivity|].
  cbn [coins energy battles_won total_hunts level hunt_cooldown].
  split; [exact Hrolls|]. split; [lia|]. split; [rewrite Hlen; lia|].
  split; [lia|]. split; [lia|]. split; [lia|]. split; [reflexivity|].
  split; [lia|]. split; [reflexivity|]. split; [reflexivity|].
  split; [reflexivity|]. split; [exact Hcat|]. split; [exact Hown|].
  split; [cbn [ledger_store save_profile users]; apply lookup_insert_eq|].
  split.
  - intros aid. exact (Hhatch aid).
  - intros aid H0. unfold owned_count in *. cbn [ledger_store save_profile owned_counts] in *.
    cbn [snd] in Hoc. rewrite Hoc in Howned. exact (Howned aid H0).
Qed.

Definition newcomer : Account := mkAccount 12 40 0 0 1 0.

Lemma hunt_spends_within_means_witness :
  exists reply profile' account' ledger' n',
    hunt "7" 100 newcomer (mkLedger (mkStore ∅ ∅) ∅) (fun _ => 1 # 2) 0%nat
    = Ok ((reply, profile', account', ledger'), n') /\
    match reply with
    | HuntResults results coins_spent rolls =>
        rolls = 1 /\ coins account' = 7 /\ energy account' = 39
    | _ => False
    end.
Proof.
  assert (Hs : forall k : nat, (0 <= 1 # 2)%Q /\ (1 # 2 < 1)%Q).
  { intros _. split; [discriminate|reflexivity]. }
  destruct (hunt_spends_within_means "7" 100 newcomer (mkLedger (mkStore ∅ ∅) ∅)
              (fun _ => 1 # 2) 0%nat Hs)
    as (reply & profile' & account' & ledger' & n' & Hrun & Hreply).
  exists reply, profile', account', ledger', n'. split; [exact Hrun|].
  assert (Hk : exists results coins_spent rolls,
             reply = HuntResults results coins_spent rolls /\
             level account' = 1).
  { revert Hrun. vm_compute. intros E. injection E as <- _ <- _ _.
    eexists _, _, _. split; reflexivity. }
  destruct Hk as (results & coins_spent & rolls & -> & Hl).
  destruct Hreply as (Hr & _ & _ & Hc & Hcoins & _ & He & _).
  rewrite Hl in Hr. change (coins newcomer / 5) with 2 in Hr.
  change (coins newcomer) with 12 in Hcoins.
  change (energy newcomer) with 40 in He.
  split; [lia|]. split; lia.
Defined.

(** *** The drop tables *)

(** [rarity_drop_rate_map]: the dict from rarity to chance. *)
Definition rarity_drop_rate_map (r : Rarity) : option Q :=
  fold_left (fun found entry => if decide (snd entry = r) then Some (fst entry) else found)
            DROP_TABLE None.

(** [spawn_chance_for_animal]; the length of [rarity_animals], a sorted
    list, is the number of units of the rarity. *)
Definition spawn_chance_for_animal (animal : Animal) : Q :=
  let rarity_chance := default 0%Q (rarity_drop_rate_map (rarity animal)) in
  let animals_in_rarity :=
    length (List.filter (fun a => bool_decide (rarity a = rarity animal)) ANIMALS) in
  if (animals_in_rarity =? 0)%nat then 0%Q
  else (rarity_chance / inject_Z (Z.of_nat animals_in_rarity))%Q.

(** The sum of the chances of the entries listed before a rarity. *)
Fixpoint floor_in (table : list (Q * Rarity)) (r : Rarity) (cumulative : Q) : Q :=
  match table with
  | [] => cumulative
  | (chance, r') :: rest =>
      if decide (r' = r) then cumulative else floor_in rest r (cumulative + chance)%Q
  end.

Definition drop_floor (r : Rarity) : Q := floor_in DROP_TABLE r 0.

(** The roll below which [roll_mutation] gives a stronger tier, and the
    width of the band of the tier. *)
Definition tier_floor (m : Mutation) : Q :=
  match m with
  | rainbow => 0 | emerald => 1 | diamond => 7 # 2 | golden => 17 # 2 | none => 37 # 2
  end.

Definition tier_chance (m : Mutation) : Q :=
  match m with
  | rainbow => 1 | emerald => 5 # 2 | diamond => 5 | golden => 10 | none => 163 # 2
  end.

Lemma Qleb_gt x y : Qleb x y = false -> (y < x)%Q.
Proof.
  intros H. apply Qnot_le_lt. intros Hle. apply Qleb_le in Hle. congruence.
Qed.

Lemma Qltb_ge x y : Qltb x y = false -> (y <= x)%Q.
Proof.
  intros H. apply Qnot_lt_le. intros Hlt. apply Qltb_lt in Hlt. congruence.
Qed.

Ltac split_comparisons :=
  repeat match goal with
         | |- context [Qleb ?a ?b] =>
             let E := fresh "E" in
             destruct (Qleb a b) eqn:E; [apply Qleb_le in E|apply Qleb_gt in E]
         | |- context [Qltb ?a ?b] =>
             let E := fresh "E" in
             destruct (Qltb a b) eqn:E; [apply Qltb_lt in E|apply Qltb_ge in E]
         end.

Ltac evaluate_floor :=
  repeat match goal with
         | |- context [drop_floor ?r] =>
             let v := eval vm_compute in (drop_floor r) in
             change (drop_floor r) with v
         end.

(** X27: for a draw u in [0, 1), [pick_rarity] returns from inside its
    loop (the fallback after the loop is never used: the chances add up to
    100) the rarity whose band holds 100u, the bands being laid end to end
    in table order, each as wide as its chance and closed on the right
    (common up to 62, uncommon up to 86, ..., hidden up to 100);
    [roll_mutation] gives rainbow below 1, emerald below 3.5, diamond
    below 8.5, golden below 18.5 and no mutation from there on; and the
    spawn chances shown for the units of the catalog, each the chance of
    the rarity divided by the number of its units, add up to 100. *)
Theorem drop_bands (src : nat -> Q) (n : nat) :
  (0 <= src n)%Q -> (src n < 1)%Q ->
  (exists r chance,
      pick_rarity src n = Ok (r, S n) /\
      pick_loop (src n * 100) 0 DROP_TABLE = Some r /\
      rarity_drop_rate_map r = Some chance /\
      (r = COMMON \/ (drop_floor r < src n * 100)%Q) /\
      (src n * 100 <= drop_floor r + chance)%Q) /\
  (exists m,
      roll_mutation src n = Ok (m, S n) /\
      (tier_floor m <= src n * 100)%Q /\
      (src n * 100 < tier_floor m + tier_chance m)%Q) /\
  (fold_left Qplus (map spawn_chance_for_animal ANIMALS) 0 == 100)%Q /\
  (fold_left Qplus (map tier_chance MUTATIONS) 0 == 100)%Q.
Proof.
  intros H0 H1. split; [|split; [|split; vm_compute; reflexivity]].
  - unfold pick_rarity, bind, random. cbn [pick_loop DROP_TABLE].
    split_comparisons;
      try match goal with
          | |- exists r chance, ret ?x _ _ = _ /\ _ =>
              let c := eval vm_compute in (default 0%Q (rarity_drop_rate_map x)) in
              exists x, c; split; [reflexivity|]; split; [reflexivity|];
              split; [vm_compute; reflexivity|]; evaluate_floor;
              split; [first [left; reflexivity|right; lra]|lra]
          end.
    exfalso. lra.
  - unfold roll_mutation, bind, random.
    split_comparisons;
      (eexists; split; [reflexivity|]; cbn [tier_floor tier_chance]; split; lra).
Qed.

Lemma drop_bands_witness :
  pick_rarity (fun _ => 9 # 10) 0%nat = Ok (RARE, 1%nat) /\
  exists m, roll_mutation (fun _ => 9 # 10) 0%nat = Ok (m, 1%nat) /\
            (tier_floor m <= 90)%Q.
Proof.
  assert (H0 : (0 <= 9 # 10)%Q) by discriminate.
  assert (H1 : (9 # 10 < 1)%Q) by reflexivity.
  split; [vm_compute; reflexivity|].
  destruct (proj1 (proj2 (drop_bands (fun _ => 9 # 10) 0%nat H0 H1)))
    as (m & Hm & Hlow & _).
  exists m. split; [exact Hm|].
  change ((9 # 10) * 100)%Q with (900 # 10)%Q in Hlow. lra.
Defined.

End Hunt.

(** ** The shop: buying and equipping food *)

Module Shop.
Import Names.

(** The fields of the profile that [buy] and [use] read and write. *)
Record Pantry := mkPantry {
  coins : Z;
  foods : gmap string Z;
  equipped_foods : PerSlot (option string);
  equipped_food_wins : PerSlot Z
}.

Inductive BuyReply :=
| UnknownFood
| NotEnoughCoins (food_obj : Food)
| PurchaseSuccessful (food_obj : Food) (coins_left : Z).

Definition buy (food : string) (profile : Pantry) : BuyReply * Pantry :=
  match resolve_food food with
  | None => (UnknownFood, profile)
  | Some food_obj =>
      if (coins profile <? cost food_obj)%Z then (NotEnoughCoins food_obj, profile)
      else
        let profile :=
          mkPantry (coins profile - cost food_obj)
            (<[food_id food_obj := default 0 (foods profile !! food_id food_obj) + 1]>
               (foods profile))
            (equipped_foods profile) (equipped_food_wins profile) in
        (PurchaseSuccessful food_obj (coins profile), profile)
  end.

(** [pos not in (1, 2, 3)] and [f"slot{pos}"]. *)
Definition slot_key (pos : Z) : option Slot :=
  if (pos =? 1)%Z then Some slot1
  else if (pos =? 2)%Z then Some slot2
  else if (pos =? 3)%Z then Some slot3
  else None.

Inductive UseReply :=
| InvalidSlot
| UnknownFoodToEquip
| FoodNotOwned
| FoodEquipped (pos : Z) (food_obj : Food) (replaced : option Food).

(** [use_food]; [None] is the [KeyError] of [FOODS[previous_food]]. *)
Definition use_food (food : string) (pos : Z) (profile : Pantry)
  : option (UseReply * Pantry) :=
  match slot_key pos with
  | None => Some (InvalidSlot, profile)
  | Some slot =>
      match resolve_food food with
      | None => Some (UnknownFoodToEquip, profile)
      | Some food_obj =>
          let owned := default 0 (foods profile !! food_id food_obj) in
          if (owned <=? 0)%Z then Some (FoodNotOwned, profile)
          else
            let previous_food := sget (equipped_foods profile) slot in
            tip ← match previous_food with
                  | Some previous =>
                      if String.eqb previous EmptyString then Some None
                      else
                        match find (fun f => String.eqb (food_id f) previous) FOODS with
                        | Some old => Some (Some old)
                        | None => None
                        end
                  | None => Some None
                  end;
            let profile :=
              mkPantry (coins profile)
                (<[food_id food_obj := Z.max 0 (owned - 1)]> (foods profile))
                (sset (equipped_foods profile) slot (Some (food_id food_obj)))
                (sset (equipped_food_wins profile) slot 0) in
            Some (FoodEquipped pos food_obj tip, profile)
      end
  end.

(** The food id held by a slot names a food of the catalog, or the slot
    is empty. *)
Definition known_equipment (profile : Pantry) (slot : Slot) : Prop :=
  match sget (equipped_foods profile) slot with
  | Some previous =>
      previous = EmptyString \/ exists old, In old FOODS /\ food_id old = previous
  | None => True
  end.

Lemma known_food_found previous old :
  In old FOODS -> food_id old = previous ->
  find (fun f => String.eqb (food_id f) previous) FOODS = Some old.
Proof. intros Hin <-. apply food_of_id, Hin. Qed.

(** X28: a purchase is refused, with nothing changed, when the coins
    are short of the cost, and otherwise takes exactly the cost (the coins
    stay non-negative) and adds one unit.  Buying a food and equipping it
    at once leaves the count of that food where it was, puts the food in
    the slot with its win counter at 0, and gives nothing back for the
    food the slot held before: no other count of the inventory changes.
    Equipping fails with a [KeyError] exactly when the slot holds a
    non-empty id that is not a food of the catalog. *)
Theorem buy_then_use
    (query : string) (pos : Z) (slot : Slot) (f : Food) (profile : Pantry) :
  resolve_food query = Some f ->
  slot_key pos = Some slot ->
  0 <= default 0 (foods profile !! food_id f) ->
  (coins profile < cost f -> buy query profile = (NotEnoughCoins f, profile)) /\
  (cost f <= coins profile ->
   exists bought,
     buy query profile = (PurchaseSuccessful f (coins profile - cost f), bought) /\
     coins bought = coins profile - cost f /\ 0 <= coins bought /\
     foods bought !! food_id f = Some (default 0 (foods profile !! food_id f) + 1) /\
     (use_food query pos bought = None <-> ~ known_equipment profile slot) /\
     (known_equipment profile slot ->
      exists replaced final,
        use_food query pos bought = Some (FoodEquipped pos f replaced, final) /\
        coins final = coins bought /\
        foods final !! food_id f = Some (default 0 (foods profile !! food_id f)) /\
        (forall other, other <> food_id f ->
                       foods final !! other = foods profile !! other) /\
        sget (equipped_foods final) slot = Some (food_id f) /\
        sget (equipped_food_wins final) slot = 0 /\
        (forall s, s <> slot ->
                   sget (equipped_foods final) s = sget (equipped_foods profile) s /\
                   sget (equipped_food_wins final) s
                   = sget (equipped_food_wins profile) s))).
Proof.
  intros Hres Hslot Hold. unfold buy. rewrite Hres. split.
  - intros Hlt. apply Z.ltb_lt in Hlt. rewrite Hlt. reflexivity.
  - intros Hle. assert (E : (coins profile <? cost f)%Z = false) by (apply Z.ltb_ge; lia).
    rewrite E. eexists. split; [reflexivity|]. cbn [coins foods].
    split; [reflexivity|]. split; [lia|].
    split; [apply lookup_insert_eq|].
    unfold use_food. rewrite Hslot, Hres. cbn [foods equipped_foods coins
                                                 equipped_food_wins].
    rewrite lookup_insert_eq. cbn [from_option Datatypes.id].
    assert (E1 : (default 0 (foods profile !! food_id f) + 1 <=? 0)%Z = false)
      by (apply Z.leb_gt; lia).
    rewrite E1. unfold known_equipment.
    destruct (sget (equipped_foods profile) slot) as [previous|] eqn:Ep.
    + destruct (String.eqb previous EmptyString) eqn:Ee.
      * apply String.eqb_eq in Ee.
        split; [split; [discriminate|intros H; exfalso; apply H; left; exact Ee]|].
        intros _. eexists _, _. split; [reflexivity|]. cbn [coins foods equipped_foods
                                                             equipped_food_wins].
        split; [reflexivity|]. split.
        { rewrite lookup_insert_eq. f_equal. lia. }
        split.
        { intros other Hne. rewrite !lookup_insert_ne by congruence. reflexivity. }
        split; [apply sget_sset_same|]. split; [apply sget_sset_same|].
        intros s Hs. split; apply sget_sset_other; congruence.
      * apply String.eqb_neq in Ee.
        destruct (find (fun g => String.eqb (food_id g) previous) FOODS) as [old|] eqn:Ef.
        -- split.
           { split; [discriminate|]. intros H. exfalso. apply H. right.
             apply find_some in Ef as [Hin Hid]. apply String.eqb_eq in Hid.
             exists old. split; assumption. }
           intros _. eexists _, _. split; [reflexivity|].
           cbn [coins foods equipped_foods equipped_food_wins].
           split; [reflexivity|]. split.
           { rewrite lookup_insert_eq. f_equal. lia. }
           split.
           { intros other Hne. rewrite !lookup_insert_ne by congruence. reflexivity. }
           split; [apply sget_sset_same|]. split; [apply sget_sset_same|].
           intros s Hs. split; apply sget_sset_other; congruence.
        -- assert (Hunknown : ~ (previous = EmptyString \/
                                 exists old, In old FOODS /\ food_id old = previous)).
           { intros [H|(old & Hin & Hid)]; [contradiction|].
             rewrite (known_food_found previous old Hin Hid) in Ef. discriminate. }
           split; [split; [intros _; exact Hunknown|reflexivity]|].
           intros H. contradiction.
    + split; [split; [discriminate|intros H; exfalso; apply H; exact I]|].
      intros _. eexists _, _. split; [reflexivity|].
      cbn [coins foods equipped_foods equipped_food_wins].
      split; [reflexivity|]. split.
      { rewrite lookup_insert_eq. f_equal. lia. }
      split.
      { intros other Hne. rewrite !lookup_insert_ne by congruence. reflexivity. }
      split; [apply sget_sset_same|]. split; [apply sget_sset_same|].
      intros s Hs. split; apply sget_sset_other; congruence.
Qed.

Definition saver : Pantry :=
  mkPantry 100 ∅ (mkPerSlot None (Some "honey") None) (mkPerSlot 0 4 0).

Lemma buy_then_use_witness :
  exists bought replaced final,
    buy "sushi" saver = (PurchaseSuccessful Synth.sushi 20, bought) /\
    use_food "sushi" 2 bought = Some (FoodEquipped 2 Synth.sushi replaced, final) /\
    foods final !! "sushi" = Some 0 /\ foods final !! "honey" = None.
Proof.
  assert (Hres : resolve_food "sushi" = Some Synth.sushi) by (vm_compute; reflexivity).
  assert (Hold : 0 <= default 0 (foods saver !! food_id Synth.sushi))
    by (vm_compute; discriminate).
  destruct (buy_then_use "sushi" 2 slot2 Synth.sushi saver Hres eq_refl Hold)
    as [_ Hbuy].
  destruct Hbuy as (bought & Hb & _ & _ & _ & _ & Huse);
    [vm_compute; discriminate|].
  destruct Huse as (replaced & final & Hu & _ & Hf & Hother & _).
  { right. eexists. split; [cbn; do 5 right; left; reflexivity|reflexivity]. }
  exists bought, replaced, final. split; [exact Hb|]. split; [exact Hu|].
  split; [exact Hf|]. rewrite Hother by discriminate. reflexivity.
Defined.

End Shop.

(** ** The admin remove command *)

Module Admin.
Import Inventory FuseCommand.

Definition ADMIN_ID : string := "1317419437854560288".

(** The three choices of the [type] argument. *)
Inductive ResourceType := AnimalResource | EnergyResource | CoinsResource.

(** The two counters of the profile that the command writes. *)
Record Wallet := mkWallet { coins : Z; energy : Z }.

Inductive RemoveReply :=
| NoPermission
| AmountNotPositive
| UnknownTarget
| InvalidMutation
| NotEnoughOwned
| AdminRemoved (applied_amount : Z).

(** [admin remove]: the reply, the two counters and the store; [None] is
    a [ValueError].  The loaded profile is the object held by the store, so
    what [remove_animal] does to it is in the store before any save. *)
Definition admin_remove (caller : string) (type_value : ResourceType)
    (target_user_id target : string) (amount : Z) (mutation : string)
    (wallet : Wallet) (st : Store) : option (RemoveReply * Wallet * Store) :=
  if negb (String.eqb caller ADMIN_ID) then Some (NoPermission, wallet, st)
  else if (amount <=? 0)%Z then Some (AmountNotPositive, wallet, st)
  else
    let '(profile, st) := load_profile st target_user_id in
    match type_value with
    | AnimalResource =>
        match resolve_animal target with
        | None => Some (UnknownTarget, wallet, st)
        | Some animal_obj =>
            match normalize_mutation_key mutation with
            | None => Some (InvalidMutation, wallet, st)
            | Some mutation_key =>
                available ← get_owned_count profile (animal_id animal_obj)
                              (mutation_name mutation_key);
                if (available <? amount)%Z then Some (NotEnoughOwned, wallet, st)
                else
                  taken ← remove_animal profile (animal_id animal_obj)
                            (mutation_name mutation_key) amount;
                  let '(removed, profile) := taken in
                  let st := save_profile st target_user_id profile in
                  if (removed <? amount)%Z then Some (NotEnoughOwned, wallet, st)
                  else
                    let st := adjust_owned_count st (animal_id animal_obj) (- removed) in
                    Some (AdminRemoved removed, wallet, st)
            end
        end
    | EnergyResource =>
        let before := energy wallet in
        let wallet := mkWallet (coins wallet) (Z.max 0 (before - amount)) in
        Some (AdminRemoved (before - energy wallet), wallet,
              save_profile st target_user_id profile)
    | CoinsResource =>
        let before := coins wallet in
        let wallet := mkWallet (Z.max 0 (before - amount)) (energy wallet) in
        Some (AdminRemoved (before - coins wallet), wallet,
              save_profile st target_user_id profile)
    end.

(** X29: the admin removal of animals looks at the owned count only, not
    at what the team reserves: for a known animal, a valid tier and a
    positive amount it is refused, with nothing taken, when fewer units
    than the amount are owned, and otherwise takes exactly the amount (the
    second "not enough" reply is never sent), leaves the other tiers and
    the team as loaded, so that a slot can keep a unit that is no longer
    owned, and lowers the global owned count by the amount, not below 0.
    Removing energy or coins takes min(before, amount) when the counter is
    not negative and never leaves it negative. *)
Theorem admin_remove_ignores_reservations
    (st : Store) (target_user_id target mutation : string) (a : Animal)
    (m : Mutation) (amount : Z) (wallet : Wallet) :
  resolve_animal target = Some a ->
  normalize_mutation_key mutation = Some m ->
  0 < amount ->
  let loaded := fst (load_profile st target_user_id) in
  (exists owned reply st',
      get_owned_count loaded (animal_id a) (mutation_name m) = Some owned /\
      admin_remove ADMIN_ID AnimalResource target_user_id target amount mutation wallet st
      = Some (reply, wallet, st') /\
      (owned < amount ->
       reply = NotEnoughOwned /\ st' = snd (load_profile st target_user_id)) /\
      (amount <= owned ->
       reply = AdminRemoved amount /\
       exists profile',
         users st' !! target_user_id = Some profile' /\
         get_owned_count profile' (animal_id a) (mutation_name m) = Some (owned - amount) /\
         (forall m', m' <> m ->
                     get_owned_count profile' (animal_id a) (mutation_name m')
                     = get_owned_count loaded (animal_id a) (mutation_name m')) /\
         team profile' = team loaded /\
         default 0 (owned_counts st' !! animal_id a)
         = Z.max 0 (default 0 (owned_counts st !! animal_id a) - amount))) /\
  (forall type_value,
      type_value <> AnimalResource ->
      exists applied wallet' st',
        admin_remove ADMIN_ID type_value target_user_id target amount mutation wallet st
        = Some (AdminRemoved applied, wallet', st') /\
        (type_value = EnergyResource ->
         coins wallet' = coins wallet /\ energy wallet' = energy wallet - applied /\
         0 <= energy wallet' /\
         (0 <= energy wallet -> applied = Z.min (energy wallet) amount)) /\
        (type_value = CoinsResource ->
         energy wallet' = energy wallet /\ coins wallet' = coins wallet - applied /\
         0 <= coins wallet' /\
         (0 <= coins wallet -> applied = Z.min (coins wallet) amount))).
Proof.
  intros Hres Hm Hamount loaded.
  assert (Hgate : (amount <=? 0)%Z = false) by (apply Z.leb_gt; lia).
  split.
  - pose proof (load_profile_well_formed st target_user_id) as Hwf.
    assert (Hoc : owned_counts (snd (load_profile st target_user_id)) = owned_counts st)
      by reflexivity.
    unfold admin_remove. rewrite String.eqb_refl, Hgate. cbn [negb].
    subst loaded. destruct (load_profile st target_user_id) as [profile st0].
    cbn [fst snd] in *. rewrite Hres, Hm.
    destruct (Hwf (animal_id a)) as [f Hf].
    pose proof (proj1 Hf m) as Hfm.
    rewrite (proj1 (proj2 Hf) m). cbn [mbind option_bind].
    exists (f m).
    destruct (f m <? amount)%Z eqn:E.
    + apply Z.ltb_lt in E. eexists _, _. split; [reflexivity|].
      split; [reflexivity|]. split; [intros _; split; reflexivity|lia].
    + apply Z.ltb_ge in E.
      rewrite (remove_animal_view profile (animal_id a) f m amount Hf Hamount).
      cbn [mbind option_bind]. rewrite (Z.min_r (f m) amount) by lia.
      rewrite Z.ltb_irrefl.
      eexists _, _. split; [reflexivity|]. split; [reflexivity|].
      split; [lia|]. intros _. split; [reflexivity|].
      eexists. split.
      { unfold adjust_owned_count, save_profile. cbn [users]. apply lookup_insert_eq. }
      assert (Hg : forall m', 0 <= fupd f m (Z.max 0 (f m - amount)) m').
      { intros m'. unfold fupd. pose proof (proj1 Hf m').
        destruct (decide (m' = m)); lia. }
      destruct (counts_view_insert (zoo profile) (team profile) (animal_id a) _ Hg)
        as (_ & Hget & _).
      split.
      { rewrite Hget. unfold fupd. destruct (decide (m = m)); [f_equal; lia|congruence]. }
      split.
      { intros m' Hne. rewrite Hget, (proj1 (proj2 Hf) m'). unfold fupd.
        destruct (decide (m' = m)); [contradiction|reflexivity]. }
      split; [reflexivity|].
      unfold adjust_owned_count, save_profile. cbn [owned_counts users].
      rewrite lookup_insert_eq, Hoc. cbn [from_option Datatypes.id]. reflexivity.
  - intros type_value Hty. unfold admin_remove.
    rewrite String.eqb_refl, Hgate. cbn [negb].
    destruct (load_profile st target_user_id) as [profile st0].
    destruct type_value; [contradiction| |];
      eexists _, _, _; (split; [reflexivity|]); cbn [coins energy]; split;
      intros X; try discriminate X;
      (split; [reflexivity|]); (split; [lia|]); (split; [lia|]); intros _; lia.
Qed.

(** A profile whose only pig is on the team. *)
Definition lone_pig_store : Store :=
  mkStore
    {[ "9" := mkProfile {[ "pig" := ZDict [("none", 1)] ]}
                (mkPerSlot (SlotDict [("animal_id", "pig"); ("mutation", "none")])
                           SlotNone SlotNone) ]}
    {[ "pig" := 1 ]}.

Lemma admin_remove_ignores_reservations_witness :
  exists st' profile',
    admin_remove ADMIN_ID AnimalResource "9" "pig" 1 "none" (mkWallet 0 0) lone_pig_store
    = Some (AdminRemoved 1, mkWallet 0 0, st') /\
    users st' !! "9" = Some profile' /\
    get_owned_count profile' "pig" "none" = Some 0 /\
    sget (team profile') slot1 = SlotDict [("animal_id", "pig"); ("mutation", "none")].
Proof.
  assert (Hres : resolve_animal "pig" = Some Synth.pig) by (vm_compute; reflexivity).
  destruct (admin_remove_ignores_reservations lone_pig_store "9" "pig" "none"
              Synth.pig none 1 (mkWallet 0 0) Hres eq_refl ltac:(lia))
    as [(owned & reply & st' & Ho & Hrun & _ & Hok) _].
  assert (E : owned = 1) by (revert Ho; vm_compute; congruence).
  subst owned. destruct (Hok ltac:(lia)) as (-> & profile' & Hu & Hget & _ & Ht & _).
  exists st', profile'. split; [exact Hrun|]. split; [exact Hu|].
  split; [exact Hget|]. rewrite Ht. reflexivity.
Defined.

End Admin.
